(** * WardOps: discrete-event simulation engine, job runner and replay streamer

    A shallow embedding of
    - [backend/app/simulation/engine.py]  (the DES engine),
    - [backend/app/worker.py]             (the Celery job runner),
    - [backend/app/api/simulation.py]     (the simulation endpoints),
    - [backend/app/api/websocket.py]      (the replay streamer),
    followed by the properties of the specification that concern them.

    Conventions of the embedding.
    - Python [float] virtual times and metric values are exact rationals [Q];
      Python [int]s are [Z].
    - A Python [dict] that the code iterates over ([beds], [nurses], the
      bottleneck summary) is an association list in insertion order; a dict
      that is only indexed ([patients], [timeseries]) is a [gmap].
    - Objects mutated in place are updated under their key in the store that
      owns them.
    - A Python exception is the result [Raise]; the two [while] loops whose
      exit depends on the drawn numbers or on the queue take fuel, and running
      out of it is the separate result [OutOfFuel]. *)

From Stdlib Require Import ZArith QArith Qround Lqa String List Permutation.
From stdpp Require Import gmap strings list sorting.

Local Open Scope string_scope.
Local Open Scope list_scope.
Local Open Scope Z_scope.

(** ** Results of fallible code *)

Inductive Res (A : Type) : Type :=
| Ok (a : A)
| Raise (exn : string)
| OutOfFuel.
Arguments Ok {A} a.
Arguments Raise {A} exn.
Arguments OutOfFuel {A}.

#[global] Instance Res_ret : MRet Res := fun A a => Ok a.

#[global] Instance Res_bind : MBind Res := fun A B k m =>
  match m with
  | Ok a => k a
  | Raise e => Raise e
  | OutOfFuel => OutOfFuel
  end.

(** [d[k]] on a dict: [KeyError] when the key is missing. *)
Definition getitem {A : Type} (o : option A) : Res A :=
  match o with
  | Some a => Ok a
  | None => Raise "KeyError"
  end.

(** A run that returned or raised, as opposed to one cut short by the fuel. *)
Definition finished {A : Type} (r : Res A) : Prop := r <> OutOfFuel.

(** ** Numbers *)

Definition Qlt_bool (a b : Q) : bool := negb (Qle_bool b a).

(** Python's [int(x)] on a float: truncation towards zero. *)
Definition int_of_float (x : Q) : Z := Z.quot (Qnum x) (Zpos (Qden x)).

(** [len(l)] as a Python int. *)
Definition len {A : Type} (l : list A) : Z := Z.of_nat (length l).

Definition Qsum (l : list Q) : Q := fold_right Qplus 0%Q l.

(** [np.mean] of a non-empty list. *)
Definition np_mean (l : list Q) : Q := (Qsum l / inject_Z (len l))%Q.

Fixpoint insert_sorted (x : Q) (l : list Q) : list Q :=
  match l with
  | [] => [x]
  | y :: l' => if Qle_bool x y then x :: l else y :: insert_sorted x l'
  end.

Definition sort_floats (l : list Q) : list Q := fold_right insert_sorted [] l.

(** [np.median]: the middle of the sorted list, or the mean of the two middles. *)
Definition np_median (l : list Q) : Q :=
  let s := sort_floats l in
  let n := length s in
  if Nat.even n
  then ((nth (n / 2 - 1) s 0%Q + nth (n / 2) s 0%Q) / 2)%Q
  else nth (n / 2) s 0%Q.

(** Python's [max] of a list: the first maximal element ([default] when empty). *)
Definition py_max (l : list Q) (default : Q) : Q :=
  match l with
  | [] => default
  | x :: l' => fold_left (fun m y => if Qlt_bool m y then y else m) l' x
  end.

(** Truthiness of an [Optional[float]] and of an [Optional[int]]. *)
Definition truthy_float (o : option Q) : bool :=
  match o with
  | Some x => negb (Qeq_bool x 0)
  | None => false
  end.

Definition truthy_int (o : option Z) : bool :=
  match o with
  | Some x => negb (x =? 0)
  | None => false
  end.

(** ** Dicts in insertion order, keyed by an integer id *)

Definition odict (V : Type) : Type := list (Z * V).

Fixpoint od_get {V : Type} (k : Z) (d : odict V) : option V :=
  match d with
  | [] => None
  | (k', v) :: d' => if k =? k' then Some v else od_get k d'
  end.

(** In-place mutation of the object stored under [k]. *)
Fixpoint od_update {V : Type} (k : Z) (f : V -> V) (d : odict V) : odict V :=
  match d with
  | [] => []
  | (k', v) :: d' => if k =? k' then (k', f v) :: d' else (k', v) :: od_update k f d'
  end.

(** [d[k] = v]: the value under an existing key is replaced where it stands,
    a new key goes last. *)
Fixpoint od_set {V : Type} (k : Z) (v : V) (d : odict V) : odict V :=
  match d with
  | [] => [(k, v)]
  | (k', v') :: d' => if k =? k' then (k', v) :: d' else (k', v') :: od_set k v d'
  end.

Definition od_values {V : Type} (d : odict V) : list V := map snd d.

(** [dict.get(key, default)] on a dict with string keys. *)
Fixpoint assoc_get {V : Type} (k : string) (d : list (string * V)) : option V :=
  match d with
  | [] => None
  | (k', v) :: d' => if String.eqb k k' then Some v else assoc_get k d'
  end.

(** ** Data model of [engine.py] *)

Inductive SimEventType : Type :=
| ARRIVAL | TRIAGE_START | TRIAGE_END | BED_REQUEST | BED_ASSIGNED
| IMAGING_REQUEST | IMAGING_START | IMAGING_END
| CONSULT_REQUEST | CONSULT_END | DISCHARGE | CLEANING_START | CLEANING_END.

(** The [data] dict of an event: empty by default, the three arrival keys, or
    the [bed_id] of a cleaning event. *)
Inductive EventData : Type :=
| NoData
| ArrivalData (acuity : string) (requires_imaging requires_consult : bool)
| BedData (bed_id : Z).

Record SimEvent : Type := mkEvent {
  time : Q;
  event_type : SimEventType;
  entity_id : Z;
  data : EventData
}.

Record SimPatient : Type := mkPatient {
  p_id : Z;
  p_acuity : string;
  p_arrival_time : Q;
  p_requires_imaging : bool;
  p_requires_consult : bool;
  p_triage_time : option Q;
  p_bed_assigned_time : option Q;
  p_imaging_start_time : option Q;
  p_imaging_end_time : option Q;
  p_discharge_time : option Q;
  p_bed_id : option Z;
  p_nurse_id : option Z
}.

Record SimBed : Type := mkBed {
  b_id : Z;
  b_bed_type : string;
  b_is_occupied : bool;
  b_is_cleaning : bool;
  b_patient_id : option Z;
  b_available_at : Q
}.

Record SimNurse : Type := mkNurse {
  n_id : Z;
  n_max_patients : Z;
  n_assigned_patients : list Z;
  n_shift_start : Q;
  n_shift_end : Q
}.

(** One entry of [patient_outcomes]. *)
Record Outcome : Type := mkOutcome {
  o_patient_id : Z;
  o_acuity : string;
  o_wait_time : option Q;
  o_los : option Q;
  o_had_imaging : bool;
  o_imaging_delay : option Q
}.

(** One entry of [bottleneck_events]; [queue_length] and [description] are the
    keys only some of the records carry. *)
Record Bottleneck : Type := mkBottleneck {
  bn_time : Q;
  bn_constraint : string;
  bn_patient_id : Z;
  bn_queue_length : option Z;
  bn_description : option string
}.

(** The scenario parameter dict; [None] is a missing key. *)
Record Params : Type := mkParams {
  arrival_multiplier : option Q;
  acuity_mix : option (list (string * Q));
  beds_available : option Z;
  nurse_count : option (list (string * Z));
  param_imaging_capacity : option Q;
  param_transport_capacity : option Q
}.

(** ** The two libraries the engine calls *)

(** [heapq] on a Python list of events.  The engine relies on the queue only
    as a container that gives back what was pushed; which of the queued events
    comes out first is left to the instance. *)
Class HeapQ : Type := {
  heappush : list SimEvent -> SimEvent -> list SimEvent;
  heappop : list SimEvent -> option (SimEvent * list SimEvent);
  heappush_perm : forall h e, heappush h e ≡ₚ e :: h;
  heappop_perm : forall h e h', heappop h = Some (e, h') -> h ≡ₚ e :: h';
  heappop_nonempty : forall h, h <> [] -> is_Some (heappop h)
}.

(** [numpy.random.Generator]: a generator state and the four draws the engine
    makes.  [integers low high] is below [high] and not below [low];
    [choice] may refuse its arguments ([ValueError]). *)
Class Generator : Type := {
  G : Type;
  default_rng : Z -> G;
  exponential : Q -> G -> Q * G;
  choice : list string -> list Q -> G -> option (string * G);
  random : G -> Q * G;
  integers : Z -> Z -> G -> Z * G;
  integers_range : forall low high g,
    low < high -> low <= fst (integers low high g) < high
}.

(** Field assignments, one function per assigned field. *)

Definition set_p_triage_time (v : option Q) (p : SimPatient) : SimPatient :=
  mkPatient (p_id p) (p_acuity p) (p_arrival_time p) (p_requires_imaging p) (p_requires_consult p) v (p_bed_assigned_time p) (p_imaging_start_time p) (p_imaging_end_time p) (p_discharge_time p) (p_bed_id p) (p_nurse_id p).

Definition set_p_bed_assigned_time (v : option Q) (p : SimPatient) : SimPatient :=
  mkPatient (p_id p) (p_acuity p) (p_arrival_time p) (p_requires_imaging p) (p_requires_consult p) (p_triage_time p) v (p_imaging_start_time p) (p_imaging_end_time p) (p_discharge_time p) (p_bed_id p) (p_nurse_id p).

Definition set_p_imaging_start_time (v : option Q) (p : SimPatient) : SimPatient :=
  mkPatient (p_id p) (p_acuity p) (p_arrival_time p) (p_requires_imaging p) (p_requires_consult p) (p_triage_time p) (p_bed_assigned_time p) v (p_imaging_end_time p) (p_discharge_time p) (p_bed_id p) (p_nurse_id p).

Definition set_p_imaging_end_time (v : option Q) (p : SimPatient) : SimPatient :=
  mkPatient (p_id p) (p_acuity p) (p_arrival_time p) (p_requires_imaging p) (p_requires_consult p) (p_triage_time p) (p_bed_assigned_time p) (p_imaging_start_time p) v (p_discharge_time p) (p_bed_id p) (p_nurse_id p).

Definition set_p_discharge_time (v : option Q) (p : SimPatient) : SimPatient :=
  mkPatient (p_id p) (p_acuity p) (p_arrival_time p) (p_requires_imaging p) (p_requires_consult p) (p_triage_time p) (p_bed_assigned_time p) (p_imaging_start_time p) (p_imaging_end_time p) v (p_bed_id p) (p_nurse_id p).

Definition set_p_bed_id (v : option Z) (p : SimPatient) : SimPatient :=
  mkPatient (p_id p) (p_acuity p) (p_arrival_time p) (p_requires_imaging p) (p_requires_consult p) (p_triage_time p) (p_bed_assigned_time p) (p_imaging_start_time p) (p_imaging_end_time p) (p_discharge_time p) v (p_nurse_id p).

Definition set_p_nurse_id (v : option Z) (p : SimPatient) : SimPatient :=
  mkPatient (p_id p) (p_acuity p) (p_arrival_time p) (p_requires_imaging p) (p_requires_consult p) (p_triage_time p) (p_bed_assigned_time p) (p_imaging_start_time p) (p_imaging_end_time p) (p_discharge_time p) (p_bed_id p) v.

Definition set_b_is_occupied (v : bool) (b : SimBed) : SimBed :=
  mkBed (b_id b) (b_bed_type b) v (b_is_cleaning b) (b_patient_id b) (b_available_at b).

Definition set_b_is_cleaning (v : bool) (b : SimBed) : SimBed :=
  mkBed (b_id b) (b_bed_type b) (b_is_occupied b) v (b_patient_id b) (b_available_at b).

Definition set_b_patient_id (v : option Z) (b : SimBed) : SimBed :=
  mkBed (b_id b) (b_bed_type b) (b_is_occupied b) (b_is_cleaning b) v (b_available_at b).

Definition set_b_available_at (v : Q) (b : SimBed) : SimBed :=
  mkBed (b_id b) (b_bed_type b) (b_is_occupied b) (b_is_cleaning b) (b_patient_id b) v.

Definition set_n_assigned_patients (v : list Z) (n : SimNurse) : SimNurse :=
  mkNurse (n_id n) (n_max_patients n) v (n_shift_start n) (n_shift_end n).

(** [list.remove(x)]: the first occurrence goes. *)
Fixpoint list_remove (x : Z) (l : list Z) : list Z :=
  match l with
  | [] => []
  | y :: l' => if x =? y then l' else y :: list_remove x l'
  end.

(** [x in l]. *)
Definition list_in (x : Z) (l : list Z) : bool := existsb (Z.eqb x) l.

(** The aggregated metrics, one ranked bottleneck, and the bundle [run] returns. *)
Record Metrics : Type := mkMetrics {
  total_patients : Z;
  avg_wait_time_minutes : Q;
  median_wait_time_minutes : Q;
  max_wait_time_minutes : Q;
  avg_los_minutes : Q;
  sla_breaches : Z;
  avg_occupancy : Q;
  peak_occupancy : Q;
  avg_nurse_load : Q
}.

Record RankedBottleneck : Type := mkRanked {
  rb_constraint : string;
  rb_impact_score : Q;
  rb_occurrences : Z;
  rb_avg_queue : Q;
  rb_description : string
}.

Record Results : Type := mkResults {
  metrics : Metrics;
  res_timeseries : gmap string (list Q);
  bottlenecks : list RankedBottleneck
}.

(** [timeseries] is a [defaultdict(list)]: reading a key yields the empty list
    when it is missing, and stores it. *)
Definition ts_read (key : string) (ts : gmap string (list Q)) : list Q :=
  default [] (ts !! key).

Definition ts_touch (key : string) (ts : gmap string (list Q)) : gmap string (list Q) :=
  <[key := ts_read key ts]> ts.

Definition ts_append (key : string) (v : Q) (ts : gmap string (list Q)) : gmap string (list Q) :=
  <[key := ts_read key ts ++ [v]]> ts.

(** ** The engine *)

Section Engine.
Context {heapq : HeapQ} {np_random : Generator}.

Record SimulationEngine : Type := mkEngine {
  params : Params;
  rng : G;
  current_time : Q;
  end_time : Q;
  event_queue : list SimEvent;
  patients : gmap Z SimPatient;
  beds : odict SimBed;
  nurses : odict SimNurse;
  bed_queue : list Z;
  imaging_queue : list Z;
  transport_queue : list Z;
  imaging_capacity : Z;
  imaging_in_use : Z;
  transport_capacity : Z;
  transport_in_use : Z;
  patient_counter : Z;
  timeseries : gmap string (list Q);
  patient_outcomes : list Outcome;
  bottleneck_events : list Bottleneck
}.

Definition set_rng (v : G) (st : SimulationEngine) : SimulationEngine :=
  mkEngine (params st) v (current_time st) (end_time st) (event_queue st) (patients st) (beds st) (nurses st) (bed_queue st) (imaging_queue st) (transport_queue st) (imaging_capacity st) (imaging_in_use st) (transport_capacity st) (transport_in_use st) (patient_counter st) (timeseries st) (patient_outcomes st) (bottleneck_events st).

Definition set_current_time (v : Q) (st : SimulationEngine) : SimulationEngine :=
  mkEngine (params st) (rng st) v (end_time st) (event_queue st) (patients st) (beds st) (nurses st) (bed_queue st) (imaging_queue st) (transport_queue st) (imaging_capacity st) (imaging_in_use st) (transport_capacity st) (transport_in_use st) (patient_counter st) (timeseries st) (patient_outcomes st) (bottleneck_events st).

Definition set_event_queue (v : list SimEvent) (st : SimulationEngine) : SimulationEngine :=
  mkEngine (params st) (rng st) (current_time st) (end_time st) v (patients st) (beds st) (nurses st) (bed_queue st) (imaging_queue st) (transport_queue st) (imaging_capacity st) (imaging_in_use st) (transport_capacity st) (transport_in_use st) (patient_counter st) (timeseries st) (patient_outcomes st) (bottleneck_events st).

Definition set_patients (v : gmap Z SimPatient) (st : SimulationEngine) : SimulationEngine :=
  mkEngine (params st) (rng st) (current_time st) (end_time st) (event_queue st) v (beds st) (nurses st) (bed_queue st) (imaging_queue st) (transport_queue st) (imaging_capacity st) (imaging_in_use st) (transport_capacity st) (transport_in_use st) (patient_counter st) (timeseries st) (patient_outcomes st) (bottleneck_events st).

Definition set_beds (v : odict SimBed) (st : SimulationEngine) : SimulationEngine :=
  mkEngine (params st) (rng st) (current_time st) (end_time st) (event_queue st) (patients st) v (nurses st) (bed_queue st) (imaging_queue st) (transport_queue st) (imaging_capacity st) (imaging_in_use st) (transport_capacity st) (transport_in_use st) (patient_counter st) (timeseries st) (patient_outcomes st) (bottleneck_events st).

Definition set_nurses (v : odict SimNurse) (st : SimulationEngine) : SimulationEngine :=
  mkEngine (params st) (rng st) (current_time st) (end_time st) (event_queue st) (patients st) (beds st) v (bed_queue st) (imaging_queue st) (transport_queue st) (imaging_capacity st) (imaging_in_use st) (transport_capacity st) (transport_in_use st) (patient_counter st) (timeseries st) (patient_outcomes st) (bottleneck_events st).

Definition set_bed_queue (v : list Z) (st : SimulationEngine) : SimulationEngine :=
  mkEngine (params st) (rng st) (current_time st) (end_time st) (event_queue st) (patients st) (beds st) (nurses st) v (imaging_queue st) (transport_queue st) (imaging_capacity st) (imaging_in_use st) (transport_capacity st) (transport_in_use st) (patient_counter st) (timeseries st) (patient_outcomes st) (bottleneck_events st).

Definition set_imaging_queue (v : list Z) (st : SimulationEngine) : SimulationEngine :=
  mkEngine (params st) (rng st) (current_time st) (end_time st) (event_queue st) (patients st) (beds st) (nurses st) (bed_queue st) v (transport_queue st) (imaging_capacity st) (imaging_in_use st) (transport_capacity st) (transport_in_use st) (patient_counter st) (timeseries st) (patient_outcomes st) (bottleneck_events st).

Definition set_imaging_in_use (v : Z) (st : SimulationEngine) : SimulationEngine :=
  mkEngine (params st) (rng st) (current_time st) (end_time st) (event_queue st) (patients st) (beds st) (nurses st) (bed_queue st) (imaging_queue st) (transport_queue st) (imaging_capacity st) v (transport_capacity st) (transport_in_use st) (patient_counter st) (timeseries st) (patient_outcomes st) (bottleneck_events st).

Definition set_patient_counter (v : Z) (st : SimulationEngine) : SimulationEngine :=
  mkEngine (params st) (rng st) (current_time st) (end_time st) (event_queue st) (patients st) (beds st) (nurses st) (bed_queue st) (imaging_queue st) (transport_queue st) (imaging_capacity st) (imaging_in_use st) (transport_capacity st) (transport_in_use st) v (timeseries st) (patient_outcomes st) (bottleneck_events st).

Definition set_timeseries (v : gmap string (list Q)) (st : SimulationEngine) : SimulationEngine :=
  mkEngine (params st) (rng st) (current_time st) (end_time st) (event_queue st) (patients st) (beds st) (nurses st) (bed_queue st) (imaging_queue st) (transport_queue st) (imaging_capacity st) (imaging_in_use st) (transport_capacity st) (transport_in_use st) (patient_counter st) v (patient_outcomes st) (bottleneck_events st).

Definition set_patient_outcomes (v : list Outcome) (st : SimulationEngine) : SimulationEngine :=
  mkEngine (params st) (rng st) (current_time st) (end_time st) (event_queue st) (patients st) (beds st) (nurses st) (bed_queue st) (imaging_queue st) (transport_queue st) (imaging_capacity st) (imaging_in_use st) (transport_capacity st) (transport_in_use st) (patient_counter st) (timeseries st) v (bottleneck_events st).

Definition set_bottleneck_events (v : list Bottleneck) (st : SimulationEngine) : SimulationEngine :=
  mkEngine (params st) (rng st) (current_time st) (end_time st) (event_queue st) (patients st) (beds st) (nurses st) (bed_queue st) (imaging_queue st) (transport_queue st) (imaging_capacity st) (imaging_in_use st) (transport_capacity st) (transport_in_use st) (patient_counter st) (timeseries st) (patient_outcomes st) v.

(** [_initialize_resources]: beds [1..num_beds], the first and the last of
    them isolation beds, and the day shift's nurses. *)
Definition _initialize_resources (st : SimulationEngine) : SimulationEngine :=
  let num_beds := default 24 (beds_available (params st)) in
  let st :=
    fold_left
      (fun st i =>
         let bed_type := if (i =? 1) || (i =? num_beds) then "isolation" else "standard" in
         set_beds (od_set i (mkBed i bed_type false false None 0%Q) (beds st)) st)
      (seqZ 1 num_beds) st in
  let nurse_count := default 6 (assoc_get "day" (default [] (nurse_count (params st)))) in
  fold_left
    (fun st i => set_nurses (od_set i (mkNurse i 4 [] 0%Q 480%Q) (nurses st)) st)
    (seqZ 1 nurse_count) st.

(** [SimulationEngine.__init__(parameters, seed)]. *)
Definition __init__ (parameters : Params) (seed : Z) : SimulationEngine :=
  _initialize_resources
    (mkEngine parameters (default_rng seed) 0%Q 1440%Q [] ∅ [] [] [] [] []
       (int_of_float (default 1%Q (param_imaging_capacity parameters) * 2)) 0
       (int_of_float (default 1%Q (param_transport_capacity parameters) * 2)) 0
       0 ∅ [] []).

Definition _schedule_event (event : SimEvent) (st : SimulationEngine) : SimulationEngine :=
  set_event_queue (heappush (event_queue st) event) st.

Definition default_acuity_mix : list (string * Q) :=
  [("low", 3 # 10); ("medium", 1 # 2); ("high", 15 # 100); ("critical", 5 # 100)]%Q.

(** The [while current_arrival < self.end_time] loop of [_generate_arrivals]. *)
Fixpoint _generate_arrivals_loop (fuel : nat) (arrival_rate : Q)
    (acuity_mix : list (string * Q)) (current_arrival : Q)
    (st : SimulationEngine) : Res SimulationEngine :=
  match fuel with
  | O => OutOfFuel
  | S fuel' =>
    if Qlt_bool current_arrival (end_time st) then
      if Qeq_bool arrival_rate 0 then Raise "ZeroDivisionError" else
      let scale := (60 / arrival_rate)%Q in
      if Qlt_bool scale 0 then Raise "ValueError" else
      let '(inter_arrival, g1) := exponential scale (rng st) in
      let current_arrival := (current_arrival + inter_arrival)%Q in
      if Qle_bool (end_time st) current_arrival then Ok (set_rng g1 st) else
      let counter := patient_counter st + 1 in
      match choice (map fst acuity_mix) (map snd acuity_mix) g1 with
      | None => Raise "ValueError"
      | Some (acuity, g2) =>
        let '(u1, g3) := random g2 in
        let '(u2, g4) := random g3 in
        let event := mkEvent current_arrival ARRIVAL counter
                       (ArrivalData acuity (Qlt_bool u1 (4 # 10)) (Qlt_bool u2 (25 # 100))) in
        _generate_arrivals_loop fuel' arrival_rate acuity_mix current_arrival
          (_schedule_event event (set_patient_counter counter (set_rng g4 st)))
      end
    else Ok st
  end.

Definition _generate_arrivals (fuel : nat) (st : SimulationEngine) : Res SimulationEngine :=
  let arrival_rate := ((125 # 10) * default 1 (arrival_multiplier (params st)))%Q in
  let acuity_mix := default default_acuity_mix (acuity_mix (params st)) in
  _generate_arrivals_loop fuel arrival_rate acuity_mix 0%Q st.

Definition _handle_arrival (event : SimEvent) (st : SimulationEngine) : Res SimulationEngine :=
  match data event with
  | ArrivalData acuity requires_imaging requires_consult =>
    let patient := mkPatient (entity_id event) acuity (time event)
                     requires_imaging requires_consult
                     None None None None None None None in
    let st := set_patients (<[p_id patient := patient]> (patients st)) st in
    let '(triage_duration, g) := integers 5 15 (rng st) in
    Ok (_schedule_event
          (mkEvent (time event + inject_Z triage_duration)%Q TRIAGE_END (p_id patient) NoData)
          (set_rng g st))
  | _ => Raise "KeyError"
  end.

(** [_assign_nurse]: the first nurse of least load among those below their
    maximum; [min_load] starts at infinity ([None]). *)
Definition least_loaded (ns : odict SimNurse) : option (Z * SimNurse) :=
  fst (fold_left
         (fun (acc : option (Z * SimNurse) * option Z) (kn : Z * SimNurse) =>
            let load := len (n_assigned_patients (snd kn)) in
            if (load <? n_max_patients (snd kn))
               && match snd acc with None => true | Some m => load <? m end
            then (Some kn, Some load) else acc)
         ns (None, None)).

Definition _assign_nurse (pref : Z) (patient : SimPatient) (time : Q)
    (st : SimulationEngine) : SimulationEngine :=
  match least_loaded (nurses st) with
  | Some (nref, best_nurse) =>
    set_patients (alter (set_p_nurse_id (Some (n_id best_nurse))) pref (patients st))
      (set_nurses
         (od_update nref
            (fun n => set_n_assigned_patients (n_assigned_patients n ++ [p_id patient]) n)
            (nurses st)) st)
  | None =>
    set_bottleneck_events
      (bottleneck_events st ++
         [mkBottleneck time "nurse_staffing" (p_id patient) None
            (Some "All nurses at max capacity")]) st
  end.

Definition los_range (acuity : string) : Z * Z :=
  if String.eqb acuity "low" then (120, 360)
  else if String.eqb acuity "medium" then (240, 720)
  else if String.eqb acuity "high" then (480, 1440)
  else if String.eqb acuity "critical" then (720, 2880)
  else (240, 720).

(** [_assign_bed(patient, bed, time)]; [pref] and [bref] are the keys under
    which the two objects are stored. *)
Definition _assign_bed (pref : Z) (patient : SimPatient) (bref : Z) (bed : SimBed)
    (time : Q) (st : SimulationEngine) : SimulationEngine :=
  let st := set_beds
              (od_update bref
                 (fun b => set_b_patient_id (Some (p_id patient)) (set_b_is_occupied true b))
                 (beds st)) st in
  let st := set_patients
              (alter (fun p => set_p_bed_assigned_time (Some time)
                                 (set_p_bed_id (Some (b_id bed)) p))
                 pref (patients st)) st in
  let st := _assign_nurse pref patient time st in
  let st :=
    if p_requires_imaging patient then
      let '(imaging_delay, g) := integers 15 45 (rng st) in
      _schedule_event
        (mkEvent (time + inject_Z imaging_delay)%Q IMAGING_REQUEST (p_id patient) NoData)
        (set_rng g st)
    else st in
  let '(los_minutes, g) := integers (fst (los_range (p_acuity patient)))
                             (snd (los_range (p_acuity patient))) (rng st) in
  let st := set_rng g st in
  let discharge_time := (time + inject_Z los_minutes)%Q in
  if Qlt_bool discharge_time (end_time st) then
    _schedule_event (mkEvent discharge_time DISCHARGE (p_id patient) NoData) st
  else st.

(** The test of the scan in [_request_bed]. *)
Definition bed_available (time : Q) (bed : SimBed) : bool :=
  negb (b_is_occupied bed) && negb (b_is_cleaning bed) && Qle_bool (b_available_at bed) time.

Definition _request_bed (patient_id : Z) (time : Q) (st : SimulationEngine)
    : Res SimulationEngine :=
  patient ← getitem (patients st !! patient_id);
  match find (fun kb => bed_available time (snd kb)) (beds st) with
  | Some (bref, available_bed) =>
    Ok (_assign_bed patient_id patient bref available_bed time st)
  | None =>
    let st := set_bed_queue (bed_queue st ++ [patient_id]) st in
    Ok (set_bottleneck_events
          (bottleneck_events st ++
             [mkBottleneck time "bed_availability" patient_id
                (Some (len (bed_queue st))) None]) st)
  end.

Definition _handle_triage_end (event : SimEvent) (st : SimulationEngine)
    : Res SimulationEngine :=
  patient ← getitem (patients st !! entity_id event);
  let st := set_patients
              (alter (set_p_triage_time (Some (time event))) (entity_id event) (patients st))
              st in
  _request_bed (p_id patient) (time event) st.

Definition _handle_imaging_request (event : SimEvent) (st : SimulationEngine)
    : Res SimulationEngine :=
  let patient_id := entity_id event in
  if imaging_in_use st <? imaging_capacity st then
    let st := set_imaging_in_use (imaging_in_use st + 1) st in
    let '(duration, g) := integers 20 60 (rng st) in
    let st := _schedule_event
                (mkEvent (time event + inject_Z duration)%Q IMAGING_END patient_id NoData)
                (set_rng g st) in
    _ ← getitem (patients st !! patient_id);
    Ok (set_patients
          (alter (set_p_imaging_start_time (Some (time event))) patient_id (patients st)) st)
  else
    let st := set_imaging_queue (imaging_queue st ++ [patient_id]) st in
    Ok (set_bottleneck_events
          (bottleneck_events st ++
             [mkBottleneck (time event) "imaging_capacity" patient_id
                (Some (len (imaging_queue st))) None]) st).

Definition _handle_imaging_end (event : SimEvent) (st : SimulationEngine)
    : Res SimulationEngine :=
  _ ← getitem (patients st !! entity_id event);
  let st := set_patients
              (alter (set_p_imaging_end_time (Some (time event))) (entity_id event)
                 (patients st)) st in
  let st := set_imaging_in_use (imaging_in_use st - 1) st in
  match imaging_queue st with
  | next_patient_id :: rest =>
    let st := set_imaging_queue rest st in
    let st := set_imaging_in_use (imaging_in_use st + 1) st in
    let '(duration, g) := integers 20 60 (rng st) in
    let st := _schedule_event
                (mkEvent (time event + inject_Z duration)%Q IMAGING_END next_patient_id NoData)
                (set_rng g st) in
    _ ← getitem (patients st !! next_patient_id);
    Ok (set_patients
          (alter (set_p_imaging_start_time (Some (time event))) next_patient_id (patients st))
          st)
  | [] => Ok st
  end.

(** The dict appended to [patient_outcomes]; [patient] is read after its
    [discharge_time] was set. *)
Definition outcome_of (patient : SimPatient) : Outcome :=
  mkOutcome (p_id patient) (p_acuity patient)
    (if truthy_float (p_bed_assigned_time patient)
     then Some (default 0 (p_bed_assigned_time patient) - p_arrival_time patient)%Q
     else None)
    (if truthy_float (p_discharge_time patient)
     then Some (default 0 (p_discharge_time patient) - p_arrival_time patient)%Q
     else None)
    (p_requires_imaging patient)
    (if truthy_float (p_imaging_start_time patient)
        && truthy_float (p_bed_assigned_time patient)
     then Some (default 0 (p_imaging_start_time patient)
                - default 0 (p_bed_assigned_time patient))%Q
     else None).

Definition _handle_discharge (event : SimEvent) (st : SimulationEngine)
    : Res SimulationEngine :=
  patient ← getitem (patients st !! entity_id event);
  let patient := set_p_discharge_time (Some (time event)) patient in
  let st := set_patients
              (alter (set_p_discharge_time (Some (time event))) (entity_id event)
                 (patients st)) st in
  st ← (if truthy_int (p_bed_id patient) then
          let bed_id := default 0 (p_bed_id patient) in
          _ ← getitem (od_get bed_id (beds st));
          let st := set_beds
                      (od_update bed_id
                         (fun b => set_b_patient_id None
                                     (set_b_is_cleaning true (set_b_is_occupied false b)))
                         (beds st)) st in
          let '(cleaning_time, g) := integers 15 30 (rng st) in
          Ok (_schedule_event
                (mkEvent (time event + inject_Z cleaning_time)%Q CLEANING_END bed_id
                   (BedData bed_id))
                (set_rng g st))
        else Ok st);
  st ← (if truthy_int (p_nurse_id patient) then
          let nurse_id := default 0 (p_nurse_id patient) in
          nurse ← getitem (od_get nurse_id (nurses st));
          if list_in (p_id patient) (n_assigned_patients nurse) then
            Ok (set_nurses
                  (od_update nurse_id
                     (fun n => set_n_assigned_patients
                                 (list_remove (p_id patient) (n_assigned_patients n)) n)
                     (nurses st)) st)
          else Ok st
        else Ok st);
  Ok (set_patient_outcomes (patient_outcomes st ++ [outcome_of patient]) st).

Definition _handle_cleaning_end (event : SimEvent) (st : SimulationEngine)
    : Res SimulationEngine :=
  match data event with
  | BedData bed_id =>
    bed ← getitem (od_get bed_id (beds st));
    let st := set_beds
                (od_update bed_id
                   (fun b => set_b_available_at (time event) (set_b_is_cleaning false b))
                   (beds st)) st in
    match bed_queue st with
    | patient_id :: rest =>
      let st := set_bed_queue rest st in
      patient ← getitem (patients st !! patient_id);
      Ok (_assign_bed patient_id patient bed_id bed (time event) st)
    | [] => Ok st
    end
  | _ => Raise "KeyError"
  end.

(** [_process_event]: the dispatch table; a kind without a handler does nothing. *)
Definition _process_event (event : SimEvent) (st : SimulationEngine)
    : Res SimulationEngine :=
  match event_type event with
  | ARRIVAL => _handle_arrival event st
  | TRIAGE_END => _handle_triage_end event st
  | IMAGING_REQUEST => _handle_imaging_request event st
  | IMAGING_END => _handle_imaging_end event st
  | DISCHARGE => _handle_discharge event st
  | CLEANING_END => _handle_cleaning_end event st
  | _ => Ok st
  end.

Definition _collect_metrics (st : SimulationEngine) : SimulationEngine :=
  let occupied := len (filter (fun b => b_is_occupied b = true) (od_values (beds st))) in
  let total := len (beds st) in
  let ts := timeseries st in
  let ts := ts_append "time" (current_time st) ts in
  let ts := ts_append "occupancy"
              (if 0 <? total then (inject_Z occupied / inject_Z total * 100)%Q else 0%Q) ts in
  let ts := ts_append "bed_queue" (inject_Z (len (bed_queue st))) ts in
  let ts := ts_append "imaging_queue" (inject_Z (len (imaging_queue st))) ts in
  let avg_load :=
    match nurses st with
    | [] => 0%Q
    | _ => np_mean (map (fun n => inject_Z (len (n_assigned_patients n))) (od_values (nurses st)))
    end in
  set_timeseries (ts_append "nurse_load" avg_load ts) st.

(** [_describe_bottleneck]. *)
Definition _describe_bottleneck (constraint : string) : string :=
  if String.eqb constraint "bed_availability"
  then "Insufficient bed capacity causing patient wait times"
  else if String.eqb constraint "nurse_staffing"
  then "Nurse staffing ratios exceeded, delaying patient care"
  else if String.eqb constraint "imaging_capacity"
  then "Imaging equipment utilization at maximum capacity"
  else if String.eqb constraint "transport_capacity"
  then "Transport resources insufficient for demand"
  else String.append "Constraint: " constraint.

(** One round of the loop over [bottleneck_events]: the summary is a
    [defaultdict] from a constraint to its [count] and [total_queue]. *)
Fixpoint summary_add (constraint : string) (queue_length : option Z)
    (summary : list (string * (Z * Z))) : list (string * (Z * Z)) :=
  match summary with
  | [] => [(constraint, (1, default 0 queue_length))]
  | (c, (count, total_queue)) :: summary' =>
    if String.eqb constraint c
    then (c, (count + 1, total_queue + default 0 queue_length)) :: summary'
    else (c, (count, total_queue)) :: summary_add constraint queue_length summary'
  end.

Definition bottleneck_summary (events : list Bottleneck) : list (string * (Z * Z)) :=
  fold_left (fun s b => summary_add (bn_constraint b) (bn_queue_length b) s) events [].

(** [list.sort(key=impact_score, reverse=True)]: stable, largest score first. *)
Fixpoint insert_ranked (x : RankedBottleneck) (l : list RankedBottleneck)
    : list RankedBottleneck :=
  match l with
  | [] => [x]
  | y :: l' =>
    if Qlt_bool (rb_impact_score x) (rb_impact_score y)
    then y :: insert_ranked x l' else x :: l
  end.

Definition sort_ranked (l : list RankedBottleneck) : list RankedBottleneck :=
  fold_right insert_ranked [] l.

Definition somes {A : Type} (l : list (option A)) : list A :=
  omap (fun o => o) l.

Definition _calculate_results (st : SimulationEngine) : Results :=
  let wait_times := somes (map o_wait_time (patient_outcomes st)) in
  let los_times := somes (map o_los (patient_outcomes st)) in
  let ranked :=
    map (fun cd : string * (Z * Z) =>
           let '(constraint, (count, total_queue)) := cd in
           mkRanked constraint
             (inject_Z count / inject_Z (Z.max (len (patient_outcomes st)) 1))%Q
             count
             (if 0 <? count then (inject_Z total_queue / inject_Z count)%Q else 0%Q)
             (_describe_bottleneck constraint))
        (bottleneck_summary (bottleneck_events st)) in
  let ts := ts_touch "nurse_load" (ts_touch "occupancy" (timeseries st)) in
  let occupancy := ts_read "occupancy" ts in
  let nurse_load := ts_read "nurse_load" ts in
  mkResults
    (mkMetrics
       (len (patient_outcomes st))
       (match wait_times with [] => 0%Q | _ => np_mean wait_times end)
       (match wait_times with [] => 0%Q | _ => np_median wait_times end)
       (py_max wait_times 0%Q)
       (match los_times with [] => 0%Q | _ => np_mean los_times end)
       (len (filter (fun w => Qlt_bool 60 w = true) wait_times))
       (match occupancy with [] => 0%Q | _ => np_mean occupancy end)
       (py_max occupancy 0%Q)
       (match nurse_load with [] => 0%Q | _ => np_mean nurse_load end))
    ts
    (take 5 (sort_ranked ranked)).

(** The state of the main loop of [run]: its two local variables, the engine,
    and [W], whatever the progress callback acts on. *)
Record Loop (W : Type) : Type := mkLoop {
  last_metric_time : Q;
  last_progress : Z;
  engine : SimulationEngine;
  world : W
}.
Arguments mkLoop {W} _ _ _ _.
Arguments last_metric_time {W} _.
Arguments last_progress {W} _.
Arguments engine {W} _.
Arguments world {W} _.

(** The body of [while self.event_queue]: pop, dispatch, sample the metrics
    when 15 minutes have passed since the last sample, report the progress
    when its integer value has grown. *)
Definition loop_body {W : Type} (progress_callback : option (Z -> W -> W))
    (c : Loop W) : Res (Loop W) :=
  match heappop (event_queue (engine c)) with
  | None => Raise "IndexError"
  | Some (event, queue) =>
    let st := set_current_time (time event) (set_event_queue queue (engine c)) in
    st ← _process_event event st;
    let collect := Qle_bool 15 (current_time st - last_metric_time c) in
    let st := if collect then _collect_metrics st else st in
    let last_metric_time := if collect then current_time st else last_metric_time c in
    match progress_callback with
    | Some callback =>
      let progress := int_of_float (current_time st / end_time st * 100) in
      if last_progress c <? progress
      then Ok (mkLoop last_metric_time progress st (callback progress (world c)))
      else Ok (mkLoop last_metric_time (last_progress c) st (world c))
    | None => Ok (mkLoop last_metric_time (last_progress c) st (world c))
    end
  end.

(** The loop itself.  The callback's effects so far are kept when a handler
    raises. *)
Fixpoint run_loop {W : Type} (fuel : nat) (progress_callback : option (Z -> W -> W))
    (c : Loop W) : W * Res SimulationEngine :=
  match fuel with
  | O => (world c, OutOfFuel)
  | S fuel' =>
    match event_queue (engine c) with
    | [] => (world c, Ok (engine c))
    | _ :: _ =>
      match loop_body progress_callback c with
      | Ok c' => run_loop fuel' progress_callback c'
      | Raise e => (world c, Raise e)
      | OutOfFuel => (world c, OutOfFuel)
      end
    end
  end.

(** [SimulationEngine.run(progress_callback)]. *)
Definition run {W : Type} (fuel : nat) (progress_callback : option (Z -> W -> W))
    (st : SimulationEngine) (w : W) : W * Res Results :=
  match _generate_arrivals fuel st with
  | Ok st =>
    let '(w, r) := run_loop fuel progress_callback (mkLoop 0%Q 0 st w) in
    (w, st ← r; Ok (_calculate_results st))
  | Raise e => (w, Raise e)
  | OutOfFuel => (w, OutOfFuel)
  end.

End Engine.

Arguments mkLoop {np_random W} _ _ _ _.
Arguments last_metric_time {np_random W} _.
Arguments last_progress {np_random W} _.
Arguments engine {np_random W} _.
Arguments world {np_random W} _.

(** ** The job runner of [worker.py] *)

Inductive SimulationStatus : Type := PENDING | RUNNING | COMPLETED | FAILED.

(** A row of [simulation_runs]. *)
Record SimulationRun : Type := mkRun {
  r_id : Z;
  r_scenario_id : Z;
  r_status : SimulationStatus;
  r_started_at : option Z;
  r_completed_at : option Z;
  r_progress : Z;
  r_metrics : option Metrics;
  r_timeseries : option (gmap string (list Q));
  r_bottlenecks : option (list RankedBottleneck);
  r_error_message : option string
}.

(** A row of [scenarios], as far as the worker reads it. *)
Record Scenario : Type := mkScenario {
  s_id : Z;
  s_parameters : Params
}.

(** The database as the worker sees it: the two tables, and every version of
    a run row that a [db.commit()] has made visible, oldest first. *)
Record Database : Type := mkDatabase {
  simulation_runs : gmap Z SimulationRun;
  scenarios : gmap Z Scenario;
  committed : list SimulationRun
}.

(** The session of one task: the [run] object it mutates, the database, and
    the progress states published through [self.update_state]. *)
Record Session : Type := mkSession {
  row : SimulationRun;
  db : Database;
  task_states : list Z
}.

(** What the task returns. *)
Inductive TaskResult : Type :=
| TaskError (error : string)
| TaskCompleted (run_id scenario_id : Z) (metrics : Metrics).

Definition commit (s : Session) : Session :=
  mkSession (row s)
    (mkDatabase (<[r_id (row s) := row s]> (simulation_runs (db s)))
       (scenarios (db s)) (committed (db s) ++ [row s]))
    (task_states s).

Definition set_r_progress (v : Z) (r : SimulationRun) : SimulationRun :=
  mkRun (r_id r) (r_scenario_id r) (r_status r) (r_started_at r) (r_completed_at r) v
    (r_metrics r) (r_timeseries r) (r_bottlenecks r) (r_error_message r).

(** The closure [progress_callback] of the task. *)
Definition progress_callback (progress : Z) (s : Session) : Session :=
  let s := commit (mkSession (set_r_progress progress (row s)) (db s) (task_states s)) in
  mkSession (row s) (db s) (task_states s ++ [progress]).

Section Worker.
Context {heapq : HeapQ} {np_random : Generator}.

(** [run_simulation_task(run_id, scenario_id)]; [started] and [completed] are
    the two readings of [datetime.utcnow()].  The engine is built without a
    seed argument, so with the default 42. *)
Definition run_simulation_task (fuel : nat) (run_id scenario_id : Z)
    (started completed : Z) (d : Database) : Database * Res TaskResult :=
  match simulation_runs d !! run_id, scenarios d !! scenario_id with
  | Some r, Some scenario =>
    let r := mkRun (r_id r) (r_scenario_id r) RUNNING (Some started)
               (r_completed_at r) (r_progress r) (r_metrics r) (r_timeseries r)
               (r_bottlenecks r) (r_error_message r) in
    let s := commit (mkSession r d []) in
    let engine := __init__ (s_parameters scenario) 42 in
    let '(s, results) := run fuel (Some progress_callback) engine s in
    match results with
    | Ok results =>
      let r := mkRun (r_id (row s)) (r_scenario_id (row s)) COMPLETED
                 (r_started_at (row s)) (Some completed) 100
                 (Some (metrics results)) (Some (res_timeseries results))
                 (Some (bottlenecks results)) (r_error_message (row s)) in
      let s := commit (mkSession r (db s) (task_states s)) in
      (db s, Ok (TaskCompleted run_id scenario_id (metrics results)))
    | Raise e =>
      let r := mkRun (r_id (row s)) (r_scenario_id (row s)) FAILED
                 (r_started_at (row s)) (Some completed) (r_progress (row s))
                 (r_metrics (row s)) (r_timeseries (row s))
                 (r_bottlenecks (row s)) (Some e) in
      let s := commit (mkSession r (db s) (task_states s)) in
      (db s, Ok (TaskError e))
    | OutOfFuel => (db s, OutOfFuel)
    end
  | _, _ => (d, Ok (TaskError "Run or scenario not found"))
  end.

End Worker.

(** ** The simulation endpoints of [api/simulation.py] *)

(** What an endpoint answers: its value, or an [HTTPException]. *)
Inductive Http (A : Type) : Type :=
| Respond (a : A)
| HTTPException (status_code : Z) (detail : string).
Arguments Respond {A} a.
Arguments HTTPException {A} status_code detail.

Record APIResponse : Type := mkAPIResponse {
  success : bool;
  message : string
}.

(** [run_simulation_task.delay(run_id, scenario_id, baseline_id)]: a task
    put on the broker's queue. *)
Record QueuedTask : Type := mkTask {
  task_run_id : Z;
  task_scenario_id : Z
}.

(** [start_simulation(scenario_id)]; [new_id] is the primary key the
    database gives the new row on commit, a key the table does not hold. *)
Definition start_simulation (new_id : Z) (scenario_id : Z) (d : Database)
    : Database * list QueuedTask * Http SimulationRun :=
  match scenarios d !! scenario_id with
  | None => (d, [], HTTPException 404 "Scenario not found")
  | Some _ =>
    let sim_run := mkRun new_id scenario_id PENDING None None 0 None None None None in
    (mkDatabase (<[new_id := sim_run]> (simulation_runs d)) (scenarios d)
       (committed d ++ [sim_run]),
     [mkTask new_id scenario_id], Respond sim_run)
  end.

(** [get_simulation_status(job_id)]. *)
Definition get_simulation_status (job_id : Z) (d : Database) : Http SimulationRun :=
  match simulation_runs d !! job_id with
  | None => HTTPException 404 "Simulation run not found"
  | Some run => Respond run
  end.

(** [cancel_simulation(job_id)]. *)
Definition cancel_simulation (job_id : Z) (d : Database) : Database * Http APIResponse :=
  match simulation_runs d !! job_id with
  | None => (d, HTTPException 404 "Simulation run not found")
  | Some run =>
    match r_status run with
    | COMPLETED | FAILED => (d, Respond (mkAPIResponse false "Simulation already finished"))
    | _ =>
      let run := mkRun (r_id run) (r_scenario_id run) FAILED (r_started_at run)
                   (r_completed_at run) (r_progress run) (r_metrics run)
                   (r_timeseries run) (r_bottlenecks run) (Some "Cancelled by user") in
      (mkDatabase (<[r_id run := run]> (simulation_runs d)) (scenarios d)
         (committed d ++ [run]),
       Respond (mkAPIResponse true "Simulation cancelled"))
    end
  end.

(** ** The replay streamer of [api/websocket.py]

    A [datetime] is the number of microseconds since the epoch.  The
    [metrics] block of a delta is left out: it is computed from the bed rows
    and from constants, not from the events. *)

Module Replay.

Inductive EventType : Type :=
| ARRIVAL | TRIAGE | ADMISSION_REQUEST | BED_ASSIGNMENT | TRANSFER
| IMAGING_REQUEST | IMAGING_START | IMAGING_END
| CONSULT_REQUEST | CONSULT_START | CONSULT_END
| CLEANING_START | CLEANING_END | DISCHARGE | ESCALATION | NURSE_ASSIGNMENT
| TRANSPORT_REQUEST | TRANSPORT_START | TRANSPORT_END.

(** [EventType.value]. *)
Definition value (t : EventType) : string :=
  match t with
  | ARRIVAL => "arrival" | TRIAGE => "triage"
  | ADMISSION_REQUEST => "admission_request" | BED_ASSIGNMENT => "bed_assignment"
  | TRANSFER => "transfer" | IMAGING_REQUEST => "imaging_request"
  | IMAGING_START => "imaging_start" | IMAGING_END => "imaging_end"
  | CONSULT_REQUEST => "consult_request" | CONSULT_START => "consult_start"
  | CONSULT_END => "consult_end" | CLEANING_START => "cleaning_start"
  | CLEANING_END => "cleaning_end" | DISCHARGE => "discharge"
  | ESCALATION => "escalation" | NURSE_ASSIGNMENT => "nurse_assignment"
  | TRANSPORT_REQUEST => "transport_request" | TRANSPORT_START => "transport_start"
  | TRANSPORT_END => "transport_end"
  end.

(** A row of [events]; [data] is the JSON column, kept as text. *)
Record Event : Type := mkEvent {
  id : Z;
  patient_id : option Z;
  event_type : EventType;
  timestamp : Z;
  unit_id : option Z;
  bed_id : option Z;
  data : string
}.

Record EventMarker : Type := mkMarker {
  m_id : Z;
  m_type : string;
  m_timestamp : Z;
  m_patient_id : option Z;
  m_bed_id : option Z;
  m_data : string
}.

Record BedChange : Type := mkBedChange {
  c_bed_id : Z;
  c_status : string;
  c_patient_id : option Z
}.

Record Delta : Type := mkDelta {
  bed_changes : list BedChange;
  event_markers : list EventMarker
}.

Definition second : Z := 1000000.
Definition minute : Z := 60 * second.
Definition hour : Z := 60 * minute.

(** [ORDER BY Event.timestamp], rows of equal timestamp in stored order. *)
Fixpoint insert_by_timestamp (e : Event) (l : list Event) : list Event :=
  match l with
  | [] => [e]
  | e' :: l' =>
    if timestamp e <=? timestamp e' then e :: l else e' :: insert_by_timestamp e l'
  end.

Definition order_by_timestamp (l : list Event) : list Event :=
  fold_right insert_by_timestamp [] l.

(** The [select(Event)] of [get_replay_delta]: the events of the unit between
    [timestamp - 1 minute] and [timestamp], both ends included. *)
Definition select_events (events : list Event) (unit : Z) (t : Z) : list Event :=
  let window_start := t - minute in
  order_by_timestamp
    (List.filter
       (fun e => match unit_id e with Some u => u =? unit | None => false end
                 && (window_start <=? timestamp e) && (timestamp e <=? t))
       events).

Definition marker_of (e : Event) : EventMarker :=
  mkMarker (id e) (value (event_type e)) (timestamp e) (patient_id e) (bed_id e) (data e).

Definition bed_change_of (e : Event) : option BedChange :=
  if truthy_int (bed_id e) then
    match event_type e with
    | BED_ASSIGNMENT => Some (mkBedChange (default 0 (bed_id e)) "occupied" (patient_id e))
    | DISCHARGE => Some (mkBedChange (default 0 (bed_id e)) "empty" None)
    | CLEANING_START => Some (mkBedChange (default 0 (bed_id e)) "cleaning" None)
    | CLEANING_END => Some (mkBedChange (default 0 (bed_id e)) "empty" None)
    | _ => None
    end
  else None.

(** [get_replay_delta(db, unit_id, timestamp)]. *)
Definition get_replay_delta (events : list Event) (unit : Z) (t : Z) : Delta :=
  let selected := select_events events unit t in
  mkDelta (omap bed_change_of selected) (map marker_of selected).

(** The [value] of a [speed] message as [float(message.get("value", 1.0))]
    reads it: missing, a number, or something [float] refuses. *)
Inductive Value : Type :=
| Missing
| Number (x : Q)
| NotANumber.

(** An inbound control message, by its [action]; the [time] of a [seek] is
    [None] when [datetime.fromisoformat] refuses it. *)
Inductive Message : Type :=
| Pause
| Play
| Seek (time : option Z)
| Speed (value : Value)
| Stop
| Other.

(** What the streamer does that a client can observe: the frames it sends
    and the real time it sleeps. *)
Inductive Output : Type :=
| SendTick (timestamp : Z) (delta : Delta)
| SendError (message : string)
| SendComplete
| Sleep (seconds : Q).

(** The local variables of [replay_websocket]. *)
Record Stream : Type := mkStream {
  current_time : Z;
  is_playing : bool;
  speed : Q
}.

(** The control message of one round, if any.  [None] as a result is [break]. *)
Definition apply_message (message : option Message) (s : Stream) : Res (option Stream) :=
  match message with
  | Some Pause => Ok (Some (mkStream (current_time s) false (speed s)))
  | Some Play => Ok (Some (mkStream (current_time s) true (speed s)))
  | Some (Seek (Some t)) => Ok (Some (mkStream t (is_playing s) (speed s)))
  | Some (Seek None) => Raise "ValueError"
  | Some (Speed Missing) => Ok (Some (mkStream (current_time s) (is_playing s) 1%Q))
  | Some (Speed (Number x)) => Ok (Some (mkStream (current_time s) (is_playing s) x))
  | Some (Speed NotANumber) => Raise "ValueError"
  | Some Stop => Ok None
  | Some Other => Ok (Some s)
  | None => Ok (Some s)
  end.

(** One round of [while current_time < end_time]: the outputs of the round
    and the variables after it, [None] when the round leaves the loop. *)
Definition round (events : list Event) (unit : Z) (message : option Message)
    (s : Stream) : list Output * option Stream :=
  match apply_message message s with
  | Raise e => ([SendError e], None)
  | OutOfFuel => ([], None)
  | Ok None => ([], None)
  | Ok (Some s) =>
    if negb (is_playing s) then ([Sleep (1 # 10)], Some s)
    else
      let tick := SendTick (current_time s) (get_replay_delta events unit (current_time s)) in
      let s' := mkStream (current_time s + 60 * second) (is_playing s) (speed s) in
      if Qeq_bool (speed s) 0
      then ([tick; SendError "float division by zero"], None)
      else ([tick; Sleep (1 / speed s)], Some s')
  end.

(** The loop; [inbox] holds what [receive_json] yields round by round
    ([None]: the 10 ms wait timed out), and nothing arrives after it. *)
Fixpoint replay_loop (fuel : nat) (events : list Event) (unit : Z) (end_time : Z)
    (inbox : list (option Message)) (s : Stream) : Res (list Output * Stream) :=
  match fuel with
  | O => OutOfFuel
  | S fuel' =>
    if current_time s <? end_time then
      let '(outputs, next) := round events unit (default None (head inbox)) s in
      match next with
      | Some s' =>
        '(rest, s'') ← replay_loop fuel' events unit end_time (tail inbox) s';
        Ok (outputs ++ rest, s'')
      | None => Ok (outputs, s)
      end
    else Ok ([], s)
  end.

(** [datetime(2026, 1, 15, 0, 0, 0)]. *)
Definition default_start : Z := 1768435200 * second.

(** [replay_websocket(websocket, unit_id, start_time, speed)]: everything
    sent and slept until the handler returns. *)
Definition replay_websocket (fuel : nat) (events : list Event) (unit : Z)
    (start_time : option Z) (speed : Q) (inbox : list (option Message))
    : Res (list Output) :=
  let current_time := default default_start start_time in
  let end_time := current_time + 24 * hour in
  '(outputs, _) ← replay_loop fuel events unit end_time inbox
                    (mkStream current_time true speed);
  Ok (outputs ++ [SendComplete]).

End Replay.

(** * The libraries, concretely *)

(** ** [heapq], as CPython has it *)

(** [SimEvent] is a dataclass with [order=True] whose only compared field is
    [time]. *)
Definition event_lt (a b : SimEvent) : bool := Qlt_bool (time a) (time b).

(** The loop of [_siftdown]: [heap] has a hole at [pos] that [newitem] will
    fill; parents larger than [newitem] move down into the hole. *)
Fixpoint _siftdown_loop (fuel : nat) (heap : list SimEvent) (startpos pos : nat)
    (newitem : SimEvent) : list SimEvent :=
  match fuel with
  | O => <[pos := newitem]> heap
  | S fuel' =>
    if decide (startpos < pos)%nat then
      let parentpos := ((pos - 1) / 2)%nat in
      match heap !! parentpos with
      | Some parent =>
        if event_lt newitem parent
        then _siftdown_loop fuel' (<[pos := parent]> heap) startpos parentpos newitem
        else <[pos := newitem]> heap
      | None => <[pos := newitem]> heap
      end
    else <[pos := newitem]> heap
  end.

Definition _siftdown (heap : list SimEvent) (startpos pos : nat) : list SimEvent :=
  match heap !! pos with
  | Some newitem => _siftdown_loop pos heap startpos pos newitem
  | None => heap
  end.

(** The loop of [_siftup]: the smaller child moves up into the hole until the
    hole is a leaf; the result is the heap and where the hole ended. *)
Fixpoint _siftup_loop (fuel : nat) (heap : list SimEvent) (pos : nat)
    : list SimEvent * nat :=
  match fuel with
  | O => (heap, pos)
  | S fuel' =>
    let childpos := (2 * pos + 1)%nat in
    match heap !! childpos with
    | Some lchild =>
      let rightpos := (childpos + 1)%nat in
      let childpos :=
        match heap !! rightpos with
        | Some rchild => if negb (event_lt lchild rchild) then rightpos else childpos
        | None => childpos
        end in
      match heap !! childpos with
      | Some child => _siftup_loop fuel' (<[pos := child]> heap) childpos
      | None => (heap, pos)
      end
    | None => (heap, pos)
    end
  end.

Definition _siftup (heap : list SimEvent) (pos : nat) : list SimEvent :=
  match heap !! pos with
  | Some newitem =>
    let '(heap', pos') := _siftup_loop (length heap) heap pos in
    _siftdown (<[pos' := newitem]> heap') pos pos'
  | None => heap
  end.

Definition py_heappush (heap : list SimEvent) (item : SimEvent) : list SimEvent :=
  _siftdown (heap ++ [item]) 0 (length heap).

(** [heap.pop()]: the list without its last element, and that element. *)
Fixpoint list_pop {A : Type} (l : list A) : option (list A * A) :=
  match l with
  | [] => None
  | [x] => Some ([], x)
  | x :: l' => '(r, y) ← list_pop l'; Some (x :: r, y)
  end.

Definition py_heappop (heap : list SimEvent) : option (SimEvent * list SimEvent) :=
  '(heap, lastelt) ← list_pop heap;
  match heap with
  | returnitem :: _ => Some (returnitem, _siftup (<[0%nat := lastelt]> heap) 0)
  | [] => Some (lastelt, [])
  end.

(** ** A generator that replays recorded draws

    The state is the list of the draws still to come, each a rational: a
    standard exponential sample for [exponential], the uniform sample of
    [random] and of [choice], and for [integers] a number whose floor is
    reduced into the range.  Past its end the list yields 0. *)

Definition next_draw (g : list Q) : Q * list Q :=
  match g with
  | [] => (0%Q, [])
  | x :: g' => (x, g')
  end.

(** [choice] by the inverse of the cumulative distribution, as [numpy] does:
    the first item whose cumulative probability exceeds the uniform draw. *)
Fixpoint pick (items : list string) (p : list Q) (u acc : Q) : string :=
  match items, p with
  | [], _ => ""
  | [item], _ => item
  | item :: _, [] => item
  | item :: items', px :: p' =>
    if Qlt_bool u (acc + px) then item else pick items' p' u (acc + px)%Q
  end.

Definition replay_choice (items : list string) (p : list Q) (g : list Q)
    : option (string * list Q) :=
  if Nat.eqb (length items) 0 || negb (Nat.eqb (length items) (length p))
     || negb (Qeq_bool (Qsum p) 1) || existsb (fun x => Qlt_bool x 0) p
  then None
  else Some (pick items p (fst (next_draw g)) 0, snd (next_draw g)).

(** ** Scenarios *)

(** The baseline scenario of the specification, and the same with one bed. *)
Definition baseline : Params :=
  mkParams (Some 1%Q)
    (Some [("low", 3 # 10); ("medium", 1 # 2); ("high", 15 # 100); ("critical", 5 # 100)]%Q)
    (Some 24) (Some [("day", 6)]) (Some 1%Q) (Some 1%Q).

Definition one_bed : Params :=
  mkParams (Some 1%Q)
    (Some [("low", 3 # 10); ("medium", 1 # 2); ("high", 15 # 100); ("critical", 5 # 100)]%Q)
    (Some 1) (Some [("day", 6)]) (Some 1%Q) (Some 1%Q).

(** Two patients and one bed: they arrive at 480 and 484.8, both of low
    acuity and without imaging; triage takes 5 minutes, a stay 120, a cleaning
    15.  The second patient waits for the bed of the first until 620. *)
Definition two_patients (seed : Z) : list Q :=
  [100; 1 # 10; 9 # 10; 9 # 10; 1; 1 # 10; 9 # 10; 9 # 10; 200]%Q.

(** A late arrival: one patient arrives at 1435.2 and needs imaging; triage
    takes 14 minutes, the imaging request follows the bed by 15 minutes and the
    imaging takes 20. *)
Definition late_arrival (seed : Z) : list Q := [299; 1 # 10; 1 # 10; 9 # 10; 1; 9; 0; 0; 0]%Q.

(** * Properties *)

(** ** Reading results *)

Lemma bind_Ok {A B : Type} (m : Res A) (k : A -> Res B) (b : B) :
  m ≫= k = Ok b -> exists a, m = Ok a /\ k a = Ok b.
Proof. destruct m; simpl; intros; try discriminate; eauto. Qed.

Ltac res_inv :=
  repeat match goal with
  | H : _ ≫= _ = Ok _ |- _ => apply bind_Ok in H; destruct H as (? & ? & H)
  | H : getitem ?o = Ok _ |- _ => destruct o eqn:?; simpl in H; [|discriminate]
  | H : Ok _ = Ok _ |- _ => injection H as H
  | H : Raise _ = Ok _ |- _ => discriminate H
  | H : OutOfFuel = Ok _ |- _ => discriminate H
  | H : (let '(_, _) := ?p in _) = _ |- _ => destruct p eqn:?
  | H : (if ?b then _ else _) = Ok _ |- _ => destruct b eqn:?
  | H : match ?x with _ => _ end = Ok _ |- _ => destruct x eqn:?
  end.

#[global] Instance SimEventType_eq_dec : EqDecision SimEventType.
Proof. solve_decision. Defined.

(** ** Ordered dicts *)

Lemma od_update_keys {V : Type} k (f : V -> V) d : map fst (od_update k f d) = map fst d.
Proof.
  induction d as [|[k' v] d IH]; simpl; [done|].
  destruct (k =? k'); simpl; [done|]. by rewrite IH.
Qed.

Lemma od_update_length {V : Type} k (f : V -> V) d : length (od_update k f d) = length d.
Proof. rewrite <- (length_map fst), od_update_keys. apply length_map. Qed.

Lemma od_update_Forall {V : Type} (P : Z * V -> Prop) k (f : V -> V) d :
  (forall v, P (k, v) -> P (k, f v)) -> Forall P d -> Forall P (od_update k f d).
Proof.
  intros Hf. induction 1 as [|[k' v] d Hx Hd IH]; simpl; [constructor|].
  destruct (Z.eqb_spec k k'); constructor; subst; auto.
Qed.

Lemma od_get_update {V : Type} k (f : V -> V) d v :
  od_get k d = Some v -> od_get k (od_update k f d) = Some (f v).
Proof.
  induction d as [|[k' v'] d IH]; simpl; [done|].
  destruct (Z.eqb_spec k k'); simpl.
  - subst. rewrite Z.eqb_refl. congruence.
  - destruct (Z.eqb_spec k k'); [done|]. auto.
Qed.

Lemma od_get_update_ne {V : Type} k j (f : V -> V) d :
  j <> k -> od_get j (od_update k f d) = od_get j d.
Proof.
  intros Hne. induction d as [|[k' v'] d IH]; simpl; [done|].
  destruct (Z.eqb_spec k k'); simpl.
  - subst. destruct (Z.eqb_spec j k'); [done|done].
  - destruct (Z.eqb_spec j k'); [done|]. auto.
Qed.

Lemma od_get_elem_of {V : Type} k (d : odict V) v : od_get k d = Some v -> (k, v) ∈ d.
Proof.
  induction d as [|[k' v'] d IH]; simpl; [done|].
  destruct (Z.eqb_spec k k').
  - intros [= ->]. subst. left.
  - intros. right. auto.
Qed.

Lemma od_set_fresh {V : Type} k (v : V) d :
  k ∉ map fst d -> od_set k v d = d ++ [(k, v)].
Proof.
  induction d as [|[k' v'] d IH]; simpl; [done|].
  intros Hk. destruct (Z.eqb_spec k k').
  - subst. exfalso. apply Hk. left.
  - f_equal. apply IH. intros ?. apply Hk. by right.
Qed.

(** [find] on the bed dict: the first entry that passes the test. *)
Lemma find_first {A : Type} (f : A -> bool) l x :
  find f l = Some x ->
  exists l1 l2, l = l1 ++ x :: l2 /\ f x = true /\ Forall (fun y => f y = false) l1.
Proof.
  induction l as [|y l IH]; simpl; [done|].
  destruct (f y) eqn:Hy.
  - intros [= ->]. exists [], l. auto.
  - intros (l1 & l2 & -> & ? & ?)%IH. exists (y :: l1), l2. auto.
Qed.


Lemma seqZ_sorted m n : StronglySorted Z.lt (seqZ m n).
Proof.
  remember (Z.to_nat n) as k eqn:Hk. revert m n Hk.
  induction k as [|k IH]; intros m n Hk.
  - rewrite seqZ_nil by lia. constructor.
  - rewrite seqZ_cons by lia. constructor.
    + apply IH. lia.
    + apply Forall_seqZ. lia.
Qed.

Section BedScan.
Context {heapq : HeapQ} {np_random : Generator}.

(** The bed dict lists the beds by ascending key, and every bed is stored
    under its own id. *)
Definition beds_by_id (d : odict SimBed) : Prop :=
  StronglySorted Z.lt (map fst d) /\ Forall (fun kb => b_id (snd kb) = fst kb) d.

Lemma beds_by_id_update k f d :
  (forall b, b_id (f b) = b_id b) -> beds_by_id d -> beds_by_id (od_update k f d).
Proof.
  intros Hf [Hs Hid]. split.
  - by rewrite od_update_keys.
  - apply od_update_Forall; [|done]. simpl. intros v. by rewrite Hf.
Qed.

Lemma _assign_nurse_beds pref p t st : beds (_assign_nurse pref p t st) = beds st.
Proof. unfold _assign_nurse. repeat case_match; done. Qed.

Lemma _assign_nurse_bed_queue pref p t st : bed_queue (_assign_nurse pref p t st) = bed_queue st.
Proof. unfold _assign_nurse. repeat case_match; done. Qed.

Lemma _assign_nurse_patients pref p t st :
  patients (_assign_nurse pref p t st) = patients st \/
  exists nid, patients (_assign_nurse pref p t st)
              = alter (set_p_nurse_id (Some nid)) pref (patients st).
Proof. unfold _assign_nurse. repeat case_match; simpl; eauto. Qed.

Lemma _assign_bed_beds pref p bref b t st :
  beds (_assign_bed pref p bref b t st)
  = od_update bref (fun b' => set_b_patient_id (Some (p_id p)) (set_b_is_occupied true b'))
      (beds st).
Proof.
  unfold _assign_bed. repeat (case_match; simpl); by rewrite _assign_nurse_beds.
Qed.

Lemma _assign_bed_bed_queue pref p bref b t st :
  bed_queue (_assign_bed pref p bref b t st) = bed_queue st.
Proof.
  unfold _assign_bed. repeat (case_match; simpl); by rewrite _assign_nurse_bed_queue.
Qed.

Lemma _assign_bed_patient pref p bref b t st p0 :
  patients st !! pref = Some p0 ->
  exists p', patients (_assign_bed pref p bref b t st) !! pref = Some p' /\
    p_bed_id p' = Some (b_id b) /\ p_bed_assigned_time p' = Some t.
Proof.
  intros Hp. unfold _assign_bed.
  repeat (case_match; simpl);
    match goal with
    | |- context [patients (_assign_nurse ?a ?b ?c ?d)] =>
      destruct (_assign_nurse_patients a b c d) as [->|[nid ->]]
    end; simpl; rewrite ?lookup_alter_eq, Hp; simpl; eauto.
Qed.


End BedScan.

Section Imaging.
Context {heapq : HeapQ} {np_random : Generator}.

(** C5. When an [imaging_end] event fires and the imaging queue is not empty,
    the head waiter leaves the queue, gets [imaging_start_time = now], and an
    [imaging_end] event is scheduled for that waiter at [now + d], [d] the
    integer drawn from [20..59]; the slot count is back at its old value. *)
Theorem imaging_end_serves_head (st : SimulationEngine) (event : SimEvent)
    (next_patient_id : Z) (rest : list Z) (p pn : SimPatient) :
  patients st !! entity_id event = Some p ->
  imaging_queue st = next_patient_id :: rest ->
  patients st !! next_patient_id = Some pn ->
  exists st' d,
    _handle_imaging_end event st = Ok st' /\
    d = fst (integers 20 60 (rng st)) /\ 20 <= d <= 59 /\
    imaging_queue st' = rest /\
    (exists pn', patients st' !! next_patient_id = Some pn' /\
       p_imaging_start_time pn' = Some (time event)) /\
    event_queue st'
      = heappush (event_queue st)
          (mkEvent (time event + inject_Z d)%Q IMAGING_END next_patient_id NoData) /\
    imaging_in_use st' = imaging_in_use st.
Proof.
  intros Hp Hq Hn. unfold _handle_imaging_end. rewrite Hp. simpl. rewrite Hq.
  pose proof (integers_range 20 60 (rng st) eq_refl) as Hr.
  destruct (integers 20 60 (rng st)) as [d g] eqn:Hd. simpl in *.
  assert (Hn' : exists q, alter (set_p_imaging_end_time (Some (time event)))
                            (entity_id event) (patients st) !! next_patient_id = Some q).
  { rewrite lookup_alter. case_decide; [rewrite Hp|rewrite Hn]; simpl; eauto. }
  destruct Hn' as [q Hn']. rewrite Hn'. simpl.
  eexists _, d. split; [reflexivity|]. simpl.
  split; [done|]. split; [lia|]. split; [done|]. split; [|split; [done|lia]].
  rewrite lookup_alter_eq, Hn'. simpl. eauto.
Qed.

End Imaging.

(** ** How a handler may change the engine *)

(** A patient record keeps its id, and a bed assignment or a discharge, once
    stamped, stays stamped. *)
Definition patient_grows (p p' : SimPatient) : Prop :=
  p_id p' = p_id p /\
  (is_Some (p_bed_assigned_time p) -> is_Some (p_bed_assigned_time p')) /\
  (is_Some (p_discharge_time p) -> is_Some (p_discharge_time p')).

Definition patients_grow (m m' : gmap Z SimPatient) : Prop :=
  forall k, match m !! k with
            | Some p => exists p', m' !! k = Some p' /\ patient_grows p p'
            | None => m' !! k = None
            end.

Definition has_bed (m : gmap Z SimPatient) (k : Z) : Prop :=
  exists p, m !! k = Some p /\ is_Some (p_bed_assigned_time p).

Definition discharged (m : gmap Z SimPatient) (k : Z) : Prop :=
  exists p, m !! k = Some p /\
    is_Some (p_bed_assigned_time p) /\ is_Some (p_discharge_time p).

(** What a handler may schedule: never an arrival, and a discharge only for a
    patient who holds a bed. *)
Definition schedulable (m : gmap Z SimPatient) (e : SimEvent) : Prop :=
  event_type e <> ARRIVAL /\ (event_type e = DISCHARGE -> has_bed m (entity_id e)).

Definition contended : list string := ["bed_availability"; "nurse_staffing"; "imaging_capacity"].

Lemma patient_grows_refl p : patient_grows p p.
Proof. by repeat split. Qed.

Lemma patient_grows_trans p1 p2 p3 :
  patient_grows p1 p2 -> patient_grows p2 p3 -> patient_grows p1 p3.
Proof. intros (? & ? & ?) (? & ? & ?). repeat split; [congruence|auto..]. Qed.

Lemma patients_grow_refl m : patients_grow m m.
Proof. intros k. destruct (m !! k) eqn:E; [|done]. eauto using patient_grows_refl. Qed.

Lemma patients_grow_trans m1 m2 m3 :
  patients_grow m1 m2 -> patients_grow m2 m3 -> patients_grow m1 m3.
Proof.
  intros H12 H23 k. specialize (H12 k). specialize (H23 k).
  destruct (m1 !! k); [|by rewrite H12 in H23].
  destruct H12 as (p2 & E2 & G2). rewrite E2 in H23.
  destruct H23 as (p3 & E3 & G3). eauto using patient_grows_trans.
Qed.

Lemma patients_grow_alter f k m :
  (forall p, patient_grows p (f p)) -> patients_grow m (alter f k m).
Proof.
  intros Hf j. rewrite lookup_alter. case_decide; subst.
  - destruct (m !! j); simpl; eauto.
  - destruct (m !! j); eauto using patient_grows_refl.
Qed.

Lemma has_bed_grow m m' k : patients_grow m m' -> has_bed m k -> has_bed m' k.
Proof.
  intros Hg (p & E & Hb). specialize (Hg k). rewrite E in Hg.
  destruct Hg as (p' & E' & _ & Hb' & _). exists p'. auto.
Qed.

Lemma discharged_grow m m' k : patients_grow m m' -> discharged m k -> discharged m' k.
Proof.
  intros Hg (p & E & Hb & Hd). specialize (Hg k). rewrite E in Hg.
  destruct Hg as (p' & E' & _ & Hb' & Hd'). exists p'. auto.
Qed.

Lemma schedulable_grow m m' e : patients_grow m m' -> schedulable m e -> schedulable m' e.
Proof. intros Hg [? Hd]. split; [done|]. eauto using has_bed_grow. Qed.

Section Evolves.
Context {heapq : HeapQ} {np_random : Generator}.

Record evolves (st st' : SimulationEngine) : Prop := mkEvolves {
  ev_patients : patients_grow (patients st) (patients st');
  ev_queue : exists added, event_queue st' ≡ₚ added ++ event_queue st /\
               Forall (schedulable (patients st')) added;
  ev_outcomes : exists new, patient_outcomes st' = patient_outcomes st ++ new /\
                  Forall (fun o => discharged (patients st') (o_patient_id o)) new;
  ev_bottlenecks : exists new, bottleneck_events st' = bottleneck_events st ++ new /\
                     Forall (fun b => bn_constraint b ∈ contended) new;
  ev_transport_in_use : transport_in_use st' = transport_in_use st;
  ev_transport_queue : transport_queue st' = transport_queue st;
  ev_beds : beds_by_id (beds st) -> beds_by_id (beds st');
  ev_timeseries : timeseries st' = timeseries st;
  ev_end_time : end_time st' = end_time st
}.

Lemma evolves_refl st : evolves st st.
Proof.
  split; try done.
  - apply patients_grow_refl.
  - exists []. by split.
  - exists []. by rewrite app_nil_r.
  - exists []. by rewrite app_nil_r.
Qed.

Lemma evolves_trans st1 st2 st3 : evolves st1 st2 -> evolves st2 st3 -> evolves st1 st3.
Proof.
  intros [P1 (a1 & Q1 & F1) (o1 & O1 & G1) (b1 & B1 & C1) T1 U1 D1 S1 E1]
         [P2 (a2 & Q2 & F2) (o2 & O2 & G2) (b2 & B2 & C2) T2 U2 D2 S2 E2].
  split; try congruence; [eauto using patients_grow_trans| | | |auto].
  - exists (a2 ++ a1). split.
    + rewrite Q2, Q1. by rewrite (assoc app).
    + apply Forall_app. split; [done|].
      eapply Forall_impl; [exact F1|]. intros e. by apply schedulable_grow.
  - exists (o1 ++ o2). split.
    + rewrite O2, O1. by rewrite (assoc app).
    + apply Forall_app. split; [|done].
      eapply Forall_impl; [exact G1|]. intros o. by apply discharged_grow.
  - exists (b1 ++ b2). split.
    + rewrite B2, B1. by rewrite (assoc app).
    + apply Forall_app. by split.
Qed.

(** The state changes a handler is made of. *)
Lemma evolves_frame st st' :
  patients st' = patients st -> event_queue st' = event_queue st ->
  patient_outcomes st' = patient_outcomes st ->
  bottleneck_events st' = bottleneck_events st ->
  transport_in_use st' = transport_in_use st ->
  transport_queue st' = transport_queue st ->
  (beds_by_id (beds st) -> beds_by_id (beds st')) ->
  timeseries st' = timeseries st -> end_time st' = end_time st ->
  evolves st st'.
Proof.
  intros HP HQ HO HB ? ? ? ? ?. split; try done.
  - rewrite HP. apply patients_grow_refl.
  - exists []. by rewrite HQ.
  - exists []. by rewrite HO, app_nil_r.
  - exists []. by rewrite HB, app_nil_r.
Qed.

Lemma evolves_schedule e st :
  schedulable (patients st) e -> evolves st (_schedule_event e st).
Proof.
  intros He. split; try done; simpl.
  - apply patients_grow_refl.
  - exists [e]. split; [apply heappush_perm|]. by constructor.
  - exists []. by rewrite app_nil_r.
  - exists []. by rewrite app_nil_r.
Qed.

Lemma evolves_alter f k st :
  (forall p, patient_grows p (f p)) ->
  evolves st (set_patients (alter f k (patients st)) st).
Proof.
  intros Hf. split; try done; simpl.
  - by apply patients_grow_alter.
  - exists []. by split.
  - exists []. by rewrite app_nil_r.
  - exists []. by rewrite app_nil_r.
Qed.

Lemma evolves_bottleneck b st :
  bn_constraint b ∈ contended ->
  evolves st (set_bottleneck_events (bottleneck_events st ++ [b]) st).
Proof.
  intros Hb. split; try done; simpl.
  - apply patients_grow_refl.
  - exists []. by split.
  - exists []. by rewrite app_nil_r.
  - exists [b]. split; [done|]. by constructor.
Qed.

Lemma evolves_outcome o st :
  discharged (patients st) (o_patient_id o) ->
  evolves st (set_patient_outcomes (patient_outcomes st ++ [o]) st).
Proof.
  intros Ho. split; try done; simpl.
  - apply patients_grow_refl.
  - exists []. by split.
  - exists [o]. split; [done|]. by constructor.
  - exists []. by rewrite app_nil_r.
Qed.

Lemma evolves_beds k f st :
  (forall b, b_id (f b) = b_id b) ->
  evolves st (set_beds (od_update k f (beds st)) st).
Proof.
  intros Hf. apply evolves_frame; try done. simpl. by apply beds_by_id_update.
Qed.

End Evolves.

Section Handlers.
Context {heapq : HeapQ} {np_random : Generator}.

Ltac grows := intros ?; repeat split; simpl; eauto.

Ltac evolve :=
  lazymatch goal with
  | |- evolves ?s ?s => apply evolves_refl
  | |- evolves ?s (_schedule_event ?e ?s') =>
    apply (evolves_trans s s'); [evolve | apply evolves_schedule]
  | |- evolves ?s (set_patients (alter ?f ?k _) ?s') =>
    apply (evolves_trans s s'); [evolve | apply (evolves_alter f k s'); grows]
  | |- evolves ?s (set_bottleneck_events (_ ++ [?b]) ?s') =>
    apply (evolves_trans s s');
    [evolve | apply (evolves_bottleneck b s'); simpl; unfold contended; set_solver]
  | |- evolves ?s (set_patient_outcomes (_ ++ [?o]) ?s') =>
    apply (evolves_trans s s'); [evolve | apply (evolves_outcome o s')]
  | |- evolves ?s (set_beds (od_update ?k ?f _) ?s') =>
    apply (evolves_trans s s'); [evolve | apply (evolves_beds k f s'); done]
  | |- evolves ?s (set_rng _ ?s') =>
    apply (evolves_trans s s'); [evolve | by apply evolves_frame]
  | |- evolves ?s (set_nurses _ ?s') =>
    apply (evolves_trans s s'); [evolve | by apply evolves_frame]
  | |- evolves ?s (set_bed_queue _ ?s') =>
    apply (evolves_trans s s'); [evolve | by apply evolves_frame]
  | |- evolves ?s (set_imaging_queue _ ?s') =>
    apply (evolves_trans s s'); [evolve | by apply evolves_frame]
  | |- evolves ?s (set_imaging_in_use _ ?s') =>
    apply (evolves_trans s s'); [evolve | by apply evolves_frame]
  end.

Lemma _assign_nurse_evolves pref p t st : evolves st (_assign_nurse pref p t st).
Proof. unfold _assign_nurse. repeat case_match; evolve. Qed.

Lemma _assign_bed_evolves pref p bref b t st :
  patients st !! pref = Some p -> p_id p = pref ->
  evolves st (_assign_bed pref p bref b t st).
Proof.
  intros Hp Hid. unfold _assign_bed.
  set (st1 := set_patients _ (set_beds _ st)).
  assert (H1 : evolves st st1) by (subst st1; evolve).
  assert (Hb1 : has_bed (patients st1) pref).
  { subst st1. simpl.
    eexists. rewrite lookup_alter_eq, Hp. simpl. split; [done|]. simpl. eauto. }
  set (st2 := _assign_nurse pref p t st1).
  assert (H2 : evolves st1 st2) by apply _assign_nurse_evolves.
  assert (Hb2 : has_bed (patients st2) pref) by (eapply has_bed_grow; [apply H2|done]).
  apply (evolves_trans _ st1); [done|].
  apply (evolves_trans _ st2); [done|].
  clearbody st2. clear H1 H2 Hb1 st1 Hp.
  repeat (case_match; simpl); evolve; split; simpl; try done; rewrite ?Hid; auto.
Qed.

Lemma _request_bed_evolves patient_id t st st' :
  (forall k p, patients st !! k = Some p -> p_id p = k) ->
  _request_bed patient_id t st = Ok st' -> evolves st st'.
Proof.
  intros Hkey H. unfold _request_bed in H. res_inv; subst.
  - apply _assign_bed_evolves; eauto.
  - evolve.
Qed.

Lemma _handle_triage_end_evolves ev st st' :
  (forall k p, patients st !! k = Some p -> p_id p = k) ->
  _handle_triage_end ev st = Ok st' -> evolves st st'.
Proof.
  intros Hkey H. unfold _handle_triage_end in H. res_inv.
  match type of H with _request_bed _ _ ?s = _ => apply (evolves_trans _ s) end.
  - evolve.
  - eapply _request_bed_evolves; [|done]. simpl.
    intros k p. rewrite lookup_alter. case_decide; subst.
    + destruct (patients st !! entity_id ev) eqn:E; simpl; [|done].
      intros [= <-]. simpl. eauto.
    + eauto.
Qed.

Lemma _handle_imaging_request_evolves ev st st' :
  _handle_imaging_request ev st = Ok st' -> evolves st st'.
Proof.
  intros H. unfold _handle_imaging_request in H. res_inv; subst; evolve.
  split; simpl; done.
Qed.

Lemma _handle_imaging_end_evolves ev st st' :
  _handle_imaging_end ev st = Ok st' -> evolves st st'.
Proof.
  intros H. unfold _handle_imaging_end in H. res_inv; subst; evolve.
  split; simpl; done.
Qed.

Lemma _handle_discharge_evolves ev st st' :
  (forall k p, patients st !! k = Some p -> p_id p = k) ->
  has_bed (patients st) (entity_id ev) ->
  _handle_discharge ev st = Ok st' -> evolves st st'.
Proof.
  intros Hkey (p & Hp & Hbed) H. unfold _handle_discharge in H.
  rewrite Hp in H. simpl in H.
  res_inv; subst; evolve;
    first [ by split
          | simpl; rewrite (Hkey _ _ Hp); eexists;
            rewrite lookup_alter_eq, Hp; simpl; split; [done|]; simpl; eauto ].
Qed.

Lemma _handle_cleaning_end_evolves ev st st' :
  (forall k p, patients st !! k = Some p -> p_id p = k) ->
  _handle_cleaning_end ev st = Ok st' -> evolves st st'.
Proof.
  intros Hkey H. unfold _handle_cleaning_end in H. res_inv; subst.
  - evolve.
  - match goal with |- evolves _ (_assign_bed _ _ _ _ _ ?s) => apply (evolves_trans _ s) end.
    + evolve.
    + apply _assign_bed_evolves; simpl; eauto.
Qed.

End Handlers.

Lemma filter_none {A : Type} (P : A -> Prop) `{forall x, Decision (P x)} (l : list A) :
  Forall (fun x => ~ P x) l -> filter P l = [].
Proof.
  induction 1 as [|x l Hx Hl IH]; [done|].
  rewrite filter_cons. destruct (decide (P x)); [done|]. exact IH.
Qed.

Section Invariant.
Context {heapq : HeapQ} {np_random : Generator}.

Definition is_arrival (e : SimEvent) : Prop := event_type e = ARRIVAL.

(** ** The invariant of the run *)

Record engine_inv (st : SimulationEngine) : Prop := mkInv {
  inv_transport_in_use : transport_in_use st = 0;
  inv_transport_queue : transport_queue st = [];
  inv_bottlenecks : Forall (fun b => bn_constraint b ∈ contended) (bottleneck_events st);
  inv_beds : beds_by_id (beds st);
  inv_keys : forall k p, patients st !! k = Some p -> p_id p = k;
  inv_arrivals :
    Forall (fun e => is_arrival e -> patients st !! entity_id e = None) (event_queue st);
  inv_arrivals_nodup : NoDup (entity_id <$> filter is_arrival (event_queue st));
  inv_discharges :
    Forall (fun e => event_type e = DISCHARGE -> has_bed (patients st) (entity_id e))
      (event_queue st);
  inv_outcomes :
    Forall (fun o => discharged (patients st) (o_patient_id o)) (patient_outcomes st)
}.

Lemma evolves_inv st st' : engine_inv st -> evolves st st' -> engine_inv st'.
Proof.
  intros [T U B D K A N Di O]
         [P (added & HQ & Hadd) (newo & HO & Hnewo) (newb & HB & Hnewb) T' U' D' _ _].
  split.
  - congruence.
  - congruence.
  - rewrite HB. apply Forall_app. by split.
  - auto.
  - intros k p' Hk. specialize (P k). destruct (patients st !! k) as [p|] eqn:E.
    + destruct P as (p'' & E' & Hid & _). rewrite E' in Hk. injection Hk as <-.
      rewrite Hid. eauto.
    + congruence.
  - rewrite HQ. apply Forall_app. split.
    + eapply Forall_impl; [exact Hadd|]. intros e [Hne _] He. done.
    + eapply Forall_impl; [exact A|]. intros e He Ha. specialize (He Ha).
      specialize (P (entity_id e)). by rewrite He in P.
  - rewrite HQ, filter_app, (filter_none is_arrival added), app_nil_l; [done|].
    eapply Forall_impl; [exact Hadd|]. by intros e [Hne _].
  - rewrite HQ. apply Forall_app. split.
    + eapply Forall_impl; [exact Hadd|]. by intros e [_ Hd].
    + eapply Forall_impl; [exact Di|]. intros e He Hd. eauto using has_bed_grow.
  - rewrite HO. apply Forall_app. split; [|done].
    eapply Forall_impl; [exact O|]. intros o. by apply discharged_grow.
Qed.

(** Popping an event: the rest of the queue still satisfies the invariant,
    and the popped event satisfied its share of it. *)
Lemma pop_inv st event queue :
  engine_inv st -> heappop (event_queue st) = Some (event, queue) ->
  engine_inv (set_current_time (time event) (set_event_queue queue st)) /\
  (is_arrival event ->
     patients st !! entity_id event = None /\
     Forall (fun e => is_arrival e -> entity_id e <> entity_id event) queue) /\
  (event_type event = DISCHARGE -> has_bed (patients st) (entity_id event)).
Proof.
  intros [T U B D K A N Di O] Hpop. apply heappop_perm in Hpop.
  rewrite Hpop in A, N, Di.
  apply Forall_cons in A as [A0 A]. apply Forall_cons in Di as [Di0 Di].
  split; [|split; [|done]].
  - split; simpl; try done.
    rewrite filter_cons in N. destruct (decide (is_arrival event)); [|done].
    rewrite fmap_cons in N. by apply NoDup_cons in N as [_ N].
  - intros Ha. split; [auto|].
    rewrite filter_cons in N. destruct (decide (is_arrival event)); [|done].
    rewrite fmap_cons in N. apply NoDup_cons in N as [N0 _].
    apply Forall_forall. intros e He Hae Heq. apply N0.
    rewrite <- Heq. apply list_elem_of_fmap_2. apply list_elem_of_filter. done.
Qed.

Lemma _handle_arrival_inv event st st' :
  engine_inv st -> is_arrival event ->
  patients st !! entity_id event = None ->
  Forall (fun e => is_arrival e -> entity_id e <> entity_id event) (event_queue st) ->
  _handle_arrival event st = Ok st' -> engine_inv st'.
Proof.
  intros [T U B D K A N Di O] Ha Hfresh Hothers H.
  unfold _handle_arrival in H. res_inv; subst.
  assert (Hkeep : forall k, k <> entity_id event ->
            <[entity_id event := mkPatient (entity_id event) acuity (time event)
               requires_imaging requires_consult None None None None None None None]>
              (patients st) !! k = patients st !! k).
  { intros k Hk. by rewrite lookup_insert_ne. }
  assert (Hbed : forall k, has_bed (patients st) k -> k <> entity_id event).
  { intros k (p & E & _) ->. congruence. }
  split; simpl; try done.
  - intros k p. destruct (decide (k = entity_id event)) as [->|Hne].
    + rewrite lookup_insert_eq. by intros [= <-].
    + rewrite Hkeep by done. auto.
  - rewrite heappush_perm. constructor; [done|].
    rewrite Forall_forall in A, Hothers. apply Forall_forall. intros e He Hae.
    rewrite Hkeep by auto. auto.
  - rewrite heappush_perm, filter_cons.
    destruct (decide _) as [Hx|_]; [discriminate Hx|done].
  - rewrite heappush_perm. constructor; [done|].
    eapply Forall_impl; [exact Di|]. intros e He Hd. specialize (He Hd).
    destruct He as (p & E & ?). exists p. split; [|done].
    rewrite Hkeep; [done|]. apply Hbed. by exists p.
  - eapply Forall_impl; [exact O|]. intros o (p & E & ? & ?). exists p. split; [|done].
    rewrite Hkeep; [done|]. apply Hbed. by exists p.
Qed.

Lemma _process_event_inv st event queue st' :
  engine_inv st -> heappop (event_queue st) = Some (event, queue) ->
  _process_event event (set_current_time (time event) (set_event_queue queue st)) = Ok st' ->
  engine_inv st'.
Proof.
  intros Hinv Hpop H.
  destruct (pop_inv _ _ _ Hinv Hpop) as (Hinv' & Harr & Hdis).
  pose proof (inv_keys _ Hinv') as Hkeys.
  unfold _process_event in H.
  destruct (event_type event) eqn:Hty; try (injection H as <-; exact Hinv').
  - destruct (Harr Hty) as [Hfresh Hothers].
    eapply _handle_arrival_inv; [exact Hinv'|exact Hty|exact Hfresh|exact Hothers|exact H].
  - eapply evolves_inv; [exact Hinv'|]. by eapply _handle_triage_end_evolves.
  - eapply evolves_inv; [exact Hinv'|]. by eapply _handle_imaging_request_evolves.
  - eapply evolves_inv; [exact Hinv'|]. by eapply _handle_imaging_end_evolves.
  - eapply evolves_inv; [exact Hinv'|].
    eapply _handle_discharge_evolves; [done|by apply Hdis|done].
  - eapply evolves_inv; [exact Hinv'|]. by eapply _handle_cleaning_end_evolves.
Qed.

Lemma _collect_metrics_inv st : engine_inv st -> engine_inv (_collect_metrics st).
Proof. intros []. by split. Qed.

(** ** The states a run passes through *)

Inductive loop_reaches {W : Type} (cb : option (Z -> W -> W)) : Loop W -> Loop W -> Prop :=
| reaches_here c : loop_reaches cb c c
| reaches_next c c' c'' :
    event_queue (engine c) <> [] -> loop_body cb c = Ok c' ->
    loop_reaches cb c' c'' -> loop_reaches cb c c''.

Lemma run_loop_reaches {W : Type} fuel (cb : option (Z -> W -> W)) c w st :
  run_loop fuel cb c = (w, Ok st) ->
  exists c', loop_reaches cb c c' /\ engine c' = st /\ world c' = w /\
             event_queue st = [].
Proof.
  revert c. induction fuel as [|fuel IH]; intros c H; simpl in H; [discriminate|].
  destruct (event_queue (engine c)) eqn:Hq.
  - injection H as <- <-. exists c. split; [constructor|done].
  - destruct (loop_body cb c) as [c1| |] eqn:Hb; try discriminate.
    apply IH in H as (c' & Hr & ? & ? & ?). exists c'. split; [|done].
    eapply reaches_next; [|exact Hb|exact Hr]. by rewrite Hq.
Qed.

Lemma loop_body_inv {W : Type} (cb : option (Z -> W -> W)) c c' :
  engine_inv (engine c) -> loop_body cb c = Ok c' -> engine_inv (engine c').
Proof.
  intros Hinv H. unfold loop_body in H.
  destruct (heappop _) as [[event queue]|] eqn:Hpop; [|discriminate].
  apply bind_Ok in H as (st & Hp & H).
  apply (_process_event_inv _ _ _ _ Hinv Hpop) in Hp.
  assert (engine_inv (if Qle_bool 15 (current_time st - last_metric_time c)
                      then _collect_metrics st else st)).
  { destruct (Qle_bool _ _); auto using _collect_metrics_inv. }
  destruct cb; [destruct (_ <? _)|]; injection H as <-; done.
Qed.

Lemma loop_reaches_inv {W : Type} (cb : option (Z -> W -> W)) c c' :
  loop_reaches cb c c' -> engine_inv (engine c) -> engine_inv (engine c').
Proof. induction 1; eauto using loop_body_inv. Qed.

End Invariant.

Lemma filter_all {A : Type} (P : A -> Prop) `{forall x, Decision (P x)} (l : list A) :
  Forall P l -> filter P l = l.
Proof.
  induction 1 as [|x l Hx Hl IH]; [done|].
  rewrite filter_cons. destruct (decide (P x)); [|done]. by rewrite IH.
Qed.

Section Start.
Context {heapq : HeapQ} {np_random : Generator}.

(** ** The engine before the main loop *)

Lemma fold_set_beds (f : Z -> SimBed) (l : list Z) (st : SimulationEngine) :
  StronglySorted Z.lt (map fst (beds st) ++ l) ->
  fold_left (fun st i => set_beds (od_set i (f i) (beds st)) st) l st
  = set_beds (beds st ++ map (fun i => (i, f i)) l) st.
Proof.
  revert st. induction l as [|i l IH]; intros st Hs; simpl.
  - rewrite app_nil_r. by destruct st.
  - rewrite IH; simpl.
    + rewrite od_set_fresh.
      * by rewrite <- (assoc app).
      * intros Hin. apply StronglySorted_app_1_elem_of with (x1 := i) (x2 := i) in Hs.
        -- lia.
        -- done.
        -- left.
    + rewrite od_set_fresh.
      * rewrite map_app. simpl. by rewrite <- (assoc app).
      * intros Hin. apply StronglySorted_app_1_elem_of with (x1 := i) (x2 := i) in Hs.
        -- lia.
        -- done.
        -- left.
Qed.

Lemma fold_set_nurses (f : Z -> SimNurse) (l : list Z) (st : SimulationEngine) :
  StronglySorted Z.lt (map fst (nurses st) ++ l) ->
  fold_left (fun st i => set_nurses (od_set i (f i) (nurses st)) st) l st
  = set_nurses (nurses st ++ map (fun i => (i, f i)) l) st.
Proof.
  revert st. induction l as [|i l IH]; intros st Hs; simpl.
  - rewrite app_nil_r. by destruct st.
  - rewrite IH; simpl.
    + rewrite od_set_fresh.
      * by rewrite <- (assoc app).
      * intros Hin. apply StronglySorted_app_1_elem_of with (x1 := i) (x2 := i) in Hs.
        -- lia.
        -- done.
        -- left.
    + rewrite od_set_fresh.
      * rewrite map_app. simpl. by rewrite <- (assoc app).
      * intros Hin. apply StronglySorted_app_1_elem_of with (x1 := i) (x2 := i) in Hs.
        -- lia.
        -- done.
        -- left.
Qed.

(** After [__init__] the beds are [1..beds_available], in that order. *)
Lemma __init___beds parameters seed :
  map fst (beds (__init__ parameters seed)) = seqZ 1 (default 24 (beds_available parameters)) /\
  beds_by_id (beds (__init__ parameters seed)).
Proof.
  unfold __init__, _initialize_resources. simpl.
  rewrite fold_set_beds by (simpl; apply seqZ_sorted).
  rewrite fold_set_nurses by (simpl; apply seqZ_sorted). simpl.
  assert (E : forall (f : Z -> SimBed) l, map fst (map (fun i => (i, f i)) l) = l).
  { intros f l. induction l; simpl; congruence. }
  split; [apply E|]. split.
  - rewrite E. apply seqZ_sorted.
  - apply Forall_forall. intros [k b] Hin.
    apply list_elem_of_fmap in Hin as (i & [= -> ->] & _). done.
Qed.

(** The invariant of [_generate_arrivals]: nothing but arrivals is queued,
    one per patient number handed out so far. *)
Record gen_inv (st : SimulationEngine) : Prop := mkGen {
  gen_patients : patients st = ∅;
  gen_queue : Forall (fun e => is_arrival e /\ entity_id e <= patient_counter st)
                (event_queue st);
  gen_nodup : NoDup (entity_id <$> event_queue st);
  gen_outcomes : patient_outcomes st = [];
  gen_bottlenecks : bottleneck_events st = [];
  gen_transport_in_use : transport_in_use st = 0;
  gen_transport_queue : transport_queue st = [];
  gen_beds : beds_by_id (beds st);
  gen_timeseries : timeseries st = ∅
}.

Lemma __init___gen parameters seed : gen_inv (__init__ parameters seed).
Proof.
  pose proof (__init___beds parameters seed) as [_ Hb].
  revert Hb. unfold __init__, _initialize_resources. simpl.
  rewrite fold_set_beds by (simpl; apply seqZ_sorted).
  rewrite fold_set_nurses by (simpl; apply seqZ_sorted). simpl.
  intros Hb. split; simpl; try done. constructor.
Qed.

Lemma _generate_arrivals_loop_gen fuel rate mix current st st' :
  gen_inv st -> _generate_arrivals_loop fuel rate mix current st = Ok st' -> gen_inv st'.
Proof.
  revert current st. induction fuel as [|fuel IH]; intros current st Hinv H; simpl in H;
    [discriminate|].
  destruct (Qlt_bool current (end_time st)); [|by injection H as <-].
  destruct (Qeq_bool rate 0); [discriminate|].
  destruct (Qlt_bool _ 0); [discriminate|].
  destruct (exponential _ _) as [inter g1].
  destruct (Qle_bool _ _).
  { injection H as <-. destruct Hinv. by split. }
  destruct (choice _ _ _) as [[acuity g2]|]; [|discriminate].
  destruct (random g2) as [u1 g3]. destruct (random g3) as [u2 g4].
  apply IH in H; [done|]. clear IH H.
  destruct Hinv as [P Q N O B T U D S]. split; simpl; try done.
  - rewrite heappush_perm. constructor; [split; [done|simpl; lia]|].
    eapply Forall_impl; [exact Q|]. intros e [? ?]. split; [done|lia].
  - rewrite heappush_perm, fmap_cons. apply NoDup_cons. split; [|done].
    simpl. intros Hin. apply list_elem_of_fmap in Hin as (e & He & Hin).
    rewrite Forall_forall in Q. destruct (Q _ Hin). lia.
Qed.

Lemma gen_inv_engine_inv st : gen_inv st -> engine_inv st.
Proof.
  intros [P Q N O B T U D S]. split; try done.
  - rewrite B. constructor.
  - intros k p. by rewrite P, lookup_empty.
  - eapply Forall_impl; [exact Q|]. intros e _ _. by rewrite P, lookup_empty.
  - rewrite filter_all; [done|]. eapply Forall_impl; [exact Q|]. by intros e [? _].
  - eapply Forall_impl; [exact Q|]. intros e [Ha _] Hd.
    unfold is_arrival in Ha. congruence.
  - rewrite O. constructor.
Qed.

Lemma _generate_arrivals_inv fuel parameters seed st :
  _generate_arrivals fuel (__init__ parameters seed) = Ok st ->
  engine_inv st /\ timeseries st = ∅.
Proof.
  intros H. apply _generate_arrivals_loop_gen in H; [|apply __init___gen].
  split; [by apply gen_inv_engine_inv|by destruct H].
Qed.

End Start.

(** ** The ranked bottlenecks name only constraints of the log *)

Lemma summary_add_keys (P : string -> Prop) c q s :
  P c -> Forall (fun cd => P (fst cd)) s -> Forall (fun cd => P (fst cd)) (summary_add c q s).
Proof.
  intros Hc. induction 1 as [|[c' [n t]] s Hx Hs IH]; simpl.
  - by constructor.
  - destruct (String.eqb c c'); constructor; auto.
Qed.

Lemma fold_summary_keys (P : string -> Prop) events s :
  Forall (fun cd => P (fst cd)) s ->
  Forall (fun b => P (bn_constraint b)) events ->
  Forall (fun cd => P (fst cd))
    (fold_left (fun s b => summary_add (bn_constraint b) (bn_queue_length b) s) events s).
Proof.
  revert s. induction events as [|b events IH]; intros s Hs Hev; simpl; [done|].
  apply Forall_cons in Hev as [Hb Hev]. apply IH; [|done].
  by apply summary_add_keys.
Qed.

Lemma insert_ranked_Forall (P : RankedBottleneck -> Prop) x l :
  P x -> Forall P l -> Forall P (insert_ranked x l).
Proof.
  intros Hx. induction 1 as [|y l Hy Hl IH]; simpl.
  - by constructor.
  - destruct (Qlt_bool _ _); repeat constructor; auto.
Qed.

Lemma sort_ranked_Forall (P : RankedBottleneck -> Prop) l :
  Forall P l -> Forall P (sort_ranked l).
Proof.
  induction 1 as [|x l Hx Hl IH]; simpl; [constructor|].
  by apply insert_ranked_Forall.
Qed.

Section Results.
Context {heapq : HeapQ} {np_random : Generator}.

Lemma _calculate_results_constraints (P : string -> Prop) st :
  Forall (fun b => P (bn_constraint b)) (bottleneck_events st) ->
  Forall (fun r => P (rb_constraint r)) (bottlenecks (_calculate_results st)).
Proof.
  intros H. unfold _calculate_results. simpl.
  apply Forall_take, sort_ranked_Forall, Forall_fmap.
  eapply Forall_impl.
  - apply (fold_summary_keys P); [constructor|exact H].
  - by intros [c [n t]].
Qed.

(** What [run] returns is computed from a state the loop reached with an
    empty queue. *)
Lemma run_result_reached {W : Type} fuel (cb : option (Z -> W -> W)) st w w' r :
  run fuel cb st w = (w', Ok r) ->
  exists st0 c, _generate_arrivals fuel st = Ok st0 /\
    loop_reaches cb (mkLoop 0%Q 0 st0 w) c /\
    event_queue (engine c) = [] /\ world c = w' /\ r = _calculate_results (engine c).
Proof.
  unfold run. intros H.
  destruct (_generate_arrivals fuel st) as [st0| |] eqn:Hgen; try discriminate.
  destruct (run_loop fuel cb _) as [w1 [st1| |]] eqn:Hloop; simpl in H; try discriminate.
  injection H as <- <-.
  apply run_loop_reaches in Hloop as (c & Hr & <- & <- & Hq).
  by exists st0, c.
Qed.

Lemma reached_inv {W : Type} fuel (cb : option (Z -> W -> W)) parameters seed st0 w c :
  _generate_arrivals fuel (__init__ parameters seed) = Ok st0 ->
  loop_reaches cb (mkLoop 0%Q 0 st0 w) c ->
  engine_inv (engine c).
Proof.
  intros Hgen Hr. apply _generate_arrivals_inv in Hgen as [Hinv _].
  by apply (loop_reaches_inv _ _ _ Hr).
Qed.

(** C9. In every state a run passes through the transport pool is idle and
    its queue empty, no record of the bottleneck log names
    [transport_capacity], and neither does any ranked bottleneck computed from
    that state: in particular none of the bundle [run] returns. *)
Theorem transport_pool_never_acquired {W : Type} (fuel : nat)
    (cb : option (Z -> W -> W)) (parameters : Params) (seed : Z)
    (st0 : SimulationEngine) (w : W) (c : Loop W) :
  _generate_arrivals fuel (__init__ parameters seed) = Ok st0 ->
  loop_reaches cb (mkLoop 0%Q 0 st0 w) c ->
  transport_in_use (engine c) = 0 /\
  transport_queue (engine c) = [] /\
  Forall (fun b => bn_constraint b <> "transport_capacity") (bottleneck_events (engine c)) /\
  Forall (fun r => rb_constraint r <> "transport_capacity")
    (bottlenecks (_calculate_results (engine c))).
Proof.
  intros Hgen Hr. destruct (reached_inv _ _ _ _ _ _ _ Hgen Hr) as [T U B _ _ _ _ _ _].
  assert (Hlog : Forall (fun b => bn_constraint b <> "transport_capacity")
                   (bottleneck_events (engine c))).
  { eapply Forall_impl; [exact B|]. intros b Hb Heq. unfold contended in Hb.
    rewrite Heq in Hb. repeat (apply elem_of_cons in Hb as [Hb|Hb]; [discriminate Hb|]).
    by apply elem_of_nil in Hb. }
  split; [done|]. split; [done|]. split; [done|].
  by apply (_calculate_results_constraints (fun s => s <> "transport_capacity")).
Qed.


End Results.

(** ** The sampled times *)





Section Samples.
Context {heapq : HeapQ} {np_random : Generator}.



Lemma _process_event_timeseries st event queue st' :
  engine_inv st -> heappop (event_queue st) = Some (event, queue) ->
  _process_event event (set_current_time (time event) (set_event_queue queue st)) = Ok st' ->
  timeseries st' = timeseries st.
Proof.
  intros Hinv Hpop H.
  destruct (pop_inv _ _ _ Hinv Hpop) as (Hinv' & Harr & Hdis).
  pose proof (inv_keys _ Hinv') as Hkeys.
  unfold _process_event in H.
  destruct (event_type event) eqn:Hty; try (by injection H as <-).
  - unfold _handle_arrival in H. res_inv; by subst.
  - by apply _handle_triage_end_evolves in H as [].
  - by apply _handle_imaging_request_evolves in H as [].
  - by apply _handle_imaging_end_evolves in H as [].
  - apply _handle_discharge_evolves in H as []; [done..|]. by apply Hdis.
  - by apply _handle_cleaning_end_evolves in H as [].
Qed.




End Samples.

Section Determinism.
Context {heapq : HeapQ} {np_random : Generator}.

(** ** More fuel changes nothing *)

Lemma _generate_arrivals_loop_fuel fuel fuel' rate mix current st :
  (fuel <= fuel')%nat ->
  finished (_generate_arrivals_loop fuel rate mix current st) ->
  _generate_arrivals_loop fuel' rate mix current st
  = _generate_arrivals_loop fuel rate mix current st.
Proof.
  revert fuel' current st. induction fuel as [|fuel IH]; intros fuel' current st Hle Hfin.
  - by destruct Hfin.
  - destruct fuel' as [|fuel']; [lia|]. simpl in *.
    repeat (case_match; try done). apply IH; [lia|done].
Qed.

Lemma run_loop_fuel {W : Type} fuel fuel' (cb : option (Z -> W -> W)) c :
  (fuel <= fuel')%nat ->
  finished (snd (run_loop fuel cb c)) ->
  run_loop fuel' cb c = run_loop fuel cb c.
Proof.
  revert fuel' c. induction fuel as [|fuel IH]; intros fuel' c Hle Hfin.
  - by destruct Hfin.
  - destruct fuel' as [|fuel']; [lia|]. simpl in *.
    repeat (case_match; try done). apply IH; [lia|done].
Qed.

(** ** The callback does not act on the engine *)

(** Two loop states with the same engine and the same time of the last sample. *)
Definition same_engine {W1 W2 : Type} (c1 : Loop W1) (c2 : Loop W2) : Prop :=
  engine c1 = engine c2 /\ last_metric_time c1 = last_metric_time c2.

Lemma loop_body_same_engine {W1 W2 : Type}
    (cb1 : option (Z -> W1 -> W1)) (cb2 : option (Z -> W2 -> W2)) c1 c2 :
  same_engine c1 c2 ->
  match loop_body cb1 c1, loop_body cb2 c2 with
  | Ok c1', Ok c2' => same_engine c1' c2'
  | Raise e1, Raise e2 => e1 = e2
  | OutOfFuel, OutOfFuel => True
  | _, _ => False
  end.
Proof.
  intros [He Hl]. unfold loop_body. rewrite He, Hl.
  destruct (heappop _) as [[event queue]|]; [|done].
  destruct (_process_event _ _) as [st| |]; simpl; [|done..].
  destruct (Qle_bool 15 _); destruct cb1 as [f1|], cb2 as [f2|]; simpl;
    repeat (match goal with |- context [if ?b then _ else _] => destruct b end);
    simpl; by split.
Qed.

Lemma run_loop_same_engine {W1 W2 : Type} fuel
    (cb1 : option (Z -> W1 -> W1)) (cb2 : option (Z -> W2 -> W2)) c1 c2 :
  same_engine c1 c2 ->
  snd (run_loop fuel cb1 c1) = snd (run_loop fuel cb2 c2).
Proof.
  revert c1 c2. induction fuel as [|fuel IH]; intros c1 c2 Hs; [done|]. simpl.
  pose proof (loop_body_same_engine cb1 cb2 c1 c2 Hs) as Hb.
  destruct Hs as [He Hl]. rewrite He.
  destruct (event_queue (engine c2)); [done|].
  destruct (loop_body cb1 c1), (loop_body cb2 c2); try done.
  - by apply IH.
  - simpl. by rewrite Hb.
Qed.

Lemma run_same_engine {W1 W2 : Type} fuel
    (cb1 : option (Z -> W1 -> W1)) (cb2 : option (Z -> W2 -> W2)) st w1 w2 :
  snd (run fuel cb1 st w1) = snd (run fuel cb2 st w2).
Proof.
  unfold run. destruct (_generate_arrivals fuel st) as [st0| |]; [|done..].
  pose proof (run_loop_same_engine fuel cb1 cb2 (mkLoop 0%Q 0 st0 w1) (mkLoop 0%Q 0 st0 w2))
    as H.
  destruct (run_loop fuel cb1 _) as [w1' r1], (run_loop fuel cb2 _) as [w2' r2].
  simpl in *. by rewrite H.
Qed.

Lemma run_fuel {W : Type} fuel fuel' (cb : option (Z -> W -> W)) st w :
  (fuel <= fuel')%nat ->
  finished (snd (run fuel cb st w)) ->
  run fuel' cb st w = run fuel cb st w.
Proof.
  intros Hle Hfin. unfold run in *. unfold _generate_arrivals in *.
  destruct (_generate_arrivals_loop fuel _ _ _ st) as [st0| |] eqn:Hgen.
  - rewrite (_generate_arrivals_loop_fuel fuel fuel'), Hgen; [|done|by rewrite Hgen].
    rewrite (run_loop_fuel fuel fuel'); [done|done|].
    destruct (run_loop fuel cb _) as [w' [st1| |]]; simpl in *; done.
  - rewrite (_generate_arrivals_loop_fuel fuel fuel'), Hgen; [done|done|by rewrite Hgen].
  - by destruct Hfin.
Qed.

(** C1. Two executions of [run] on an engine built from the same parameters
    and the same seed end alike, whatever progress callbacks they are given
    and however long they are allowed to take: both raise the same exception,
    or both return, and then the metrics, the time series and the ranked
    bottlenecks of the two bundles are equal. *)
Theorem run_deterministic {W1 W2 : Type} (parameters : Params) (seed : Z)
    (fuel1 fuel2 : nat)
    (cb1 : option (Z -> W1 -> W1)) (cb2 : option (Z -> W2 -> W2)) (w1 : W1) (w2 : W2) :
  finished (snd (run fuel1 cb1 (__init__ parameters seed) w1)) ->
  finished (snd (run fuel2 cb2 (__init__ parameters seed) w2)) ->
  snd (run fuel1 cb1 (__init__ parameters seed) w1)
  = snd (run fuel2 cb2 (__init__ parameters seed) w2) /\
  forall r1 r2,
    snd (run fuel1 cb1 (__init__ parameters seed) w1) = Ok r1 ->
    snd (run fuel2 cb2 (__init__ parameters seed) w2) = Ok r2 ->
    metrics r1 = metrics r2 /\
    res_timeseries r1 = res_timeseries r2 /\
    bottlenecks r1 = bottlenecks r2.
Proof.
  intros H1 H2.
  assert (E : snd (run fuel1 cb1 (__init__ parameters seed) w1)
              = snd (run fuel2 cb2 (__init__ parameters seed) w2)).
  { destruct (Nat.le_ge_cases fuel1 fuel2) as [Hle|Hle].
    - rewrite <- (run_fuel fuel1 fuel2 cb1) by done. apply run_same_engine.
    - rewrite <- (run_fuel fuel2 fuel1 cb2) by done. apply run_same_engine. }
  split; [exact E|]. intros r1 r2 E1 E2. rewrite E, E2 in E1. by injection E1 as ->.
Qed.

End Determinism.

(** ** The progress reports *)

Section Progress.
Context {heapq : HeapQ} {np_random : Generator}.

(** A callback that keeps the values it is passed, oldest first. *)
Definition record_progress (progress : Z) (log : list Z) : list Z := log ++ [progress].

Definition reports_inv (c : Loop (list Z)) : Prop :=
  0 <= last_progress c /\ StronglySorted Z.lt (world c) /\
  Forall (fun p => 0 < p <= last_progress c) (world c).

Lemma _generate_arrivals_loop_end_time fuel rate mix current st st' :
  _generate_arrivals_loop fuel rate mix current st = Ok st' -> end_time st' = end_time st.
Proof.
  revert current st. induction fuel as [|fuel IH]; intros current st H; simpl in H;
    [discriminate|].
  destruct (Qlt_bool current (end_time st)); [|by injection H as <-].
  destruct (Qeq_bool rate 0); [discriminate|].
  destruct (Qlt_bool _ 0); [discriminate|].
  destruct (exponential _ _) as [inter g1].
  destruct (Qle_bool _ _); [by injection H as <-|].
  destruct (choice _ _ _) as [[acuity g2]|]; [|discriminate].
  destruct (random g2) as [u1 g3]. destruct (random g3) as [u2 g4].
  by apply IH in H.
Qed.

Lemma _generate_arrivals_end_time fuel parameters seed st :
  _generate_arrivals fuel (__init__ parameters seed) = Ok st -> end_time st = 1440%Q.
Proof.
  intros H. unfold _generate_arrivals in H.
  apply _generate_arrivals_loop_end_time in H. rewrite H.
  unfold __init__, _initialize_resources. simpl.
  rewrite fold_set_beds by (simpl; apply seqZ_sorted).
  by rewrite fold_set_nurses by (simpl; apply seqZ_sorted).
Qed.

Lemma _process_event_end_time st event queue st' :
  engine_inv st -> heappop (event_queue st) = Some (event, queue) ->
  _process_event event (set_current_time (time event) (set_event_queue queue st)) = Ok st' ->
  end_time st' = end_time st.
Proof.
  intros Hinv Hpop H.
  destruct (pop_inv _ _ _ Hinv Hpop) as (Hinv' & Harr & Hdis).
  pose proof (inv_keys _ Hinv') as Hkeys.
  unfold _process_event in H.
  destruct (event_type event) eqn:Hty; try (by injection H as <-).
  - unfold _handle_arrival in H. res_inv; by subst.
  - by apply _handle_triage_end_evolves in H as [].
  - by apply _handle_imaging_request_evolves in H as [].
  - by apply _handle_imaging_end_evolves in H as [].
  - apply _handle_discharge_evolves in H as []; [done..|]. by apply Hdis.
  - by apply _handle_cleaning_end_evolves in H as [].
Qed.

(** What one round of the loop does with the callback. *)
Lemma loop_body_progress {W : Type} (cb : Z -> W -> W) c c' :
  loop_body (Some cb) c = Ok c' ->
  let progress :=
    int_of_float (current_time (engine c') / end_time (engine c') * 100) in
  (last_progress c < progress /\ world c' = cb progress (world c) /\
   last_progress c' = progress) \/
  (progress <= last_progress c /\ world c' = world c /\
   last_progress c' = last_progress c).
Proof.
  intros H. unfold loop_body in H.
  destruct (heappop _) as [[event queue]|] eqn:Hpop; [|discriminate].
  apply bind_Ok in H as (st & Hp & H).
  destruct (_ <? _) eqn:Hlt; injection H as <-; simpl.
  - left. apply Z.ltb_lt in Hlt. done.
  - right. apply Z.ltb_ge in Hlt. done.
Qed.

Lemma loop_body_end_time {W : Type} (cb : option (Z -> W -> W)) c c' :
  engine_inv (engine c) -> loop_body cb c = Ok c' ->
  end_time (engine c') = end_time (engine c).
Proof.
  intros Hinv H. unfold loop_body in H.
  destruct (heappop _) as [[event queue]|] eqn:Hpop; [|discriminate].
  apply bind_Ok in H as (st & Hp & H).
  apply (_process_event_end_time _ _ _ _ Hinv Hpop) in Hp.
  destruct cb; [destruct (_ <? _)|]; injection H as <-; simpl;
    by destruct (Qle_bool _ _).
Qed.

Lemma loop_reaches_end_time {W : Type} (cb : option (Z -> W -> W)) c c' :
  loop_reaches cb c c' -> engine_inv (engine c) ->
  end_time (engine c') = end_time (engine c).
Proof.
  induction 1 as [|c1 c2 c3 Hq Hb Hr IH]; [done|]. intros Hinv.
  rewrite IH by eauto using loop_body_inv. by eapply loop_body_end_time.
Qed.

Lemma StronglySorted_snoc_lt (l : list Z) (x : Z) :
  StronglySorted Z.lt l -> Forall (fun p => p < x) l -> StronglySorted Z.lt (l ++ [x]).
Proof.
  induction 1 as [|y l Hs IH Hy]; intros Hx; simpl.
  - repeat constructor.
  - apply Forall_cons in Hx as [Hyx Hx]. constructor; [by apply IH|].
    apply Forall_app. split; [done|]. by constructor.
Qed.

Lemma loop_body_reports c c' :
  reports_inv c -> loop_body (Some record_progress) c = Ok c' -> reports_inv c'.
Proof.
  intros (H0 & Hs & Hb) H. apply loop_body_progress in H.
  unfold reports_inv.
  destruct H as [(Hlt & Hw & Hl)|(Hle & Hw & Hl)]; rewrite Hw, Hl; [|done].
  unfold record_progress. split; [lia|]. split.
  - apply StronglySorted_snoc_lt; [done|].
    eapply Forall_impl; [exact Hb|]. simpl. intros p ?. lia.
  - apply Forall_app. split.
    + eapply Forall_impl; [exact Hb|]. simpl. intros p ?. lia.
    + constructor; [lia|done].
Qed.

Lemma loop_reaches_reports c c' :
  loop_reaches (Some record_progress) c c' -> reports_inv c -> reports_inv c'.
Proof. induction 1; eauto using loop_body_reports. Qed.

(** Where the run has the callback called, it passes the integer part of
    [100 * now / 1440]: in a round from [c] to [c'] of a run the callback is
    called once with that number when it exceeds the last number reported,
    and not at all otherwise. *)
Theorem progress_report_is_floor {W : Type} (fuel : nat) (cb : Z -> W -> W)
    (parameters : Params) (seed : Z) (st0 : SimulationEngine) (w : W) (c c' : Loop W) :
  _generate_arrivals fuel (__init__ parameters seed) = Ok st0 ->
  loop_reaches (Some cb) (mkLoop 0%Q 0 st0 w) c ->
  loop_body (Some cb) c = Ok c' ->
  let progress := int_of_float (current_time (engine c') / 1440 * 100) in
  (last_progress c < progress /\ world c' = cb progress (world c) /\
   last_progress c' = progress) \/
  (progress <= last_progress c /\ world c' = world c /\
   last_progress c' = last_progress c).
Proof.
  intros Hgen Hr Hb.
  pose proof (_generate_arrivals_end_time _ _ _ _ Hgen) as H0.
  apply _generate_arrivals_inv in Hgen as [Hinv _].
  pose proof (loop_reaches_inv _ _ _ Hr Hinv) as Hinv'.
  pose proof (loop_reaches_end_time _ _ _ Hr Hinv) as He. simpl in He.
  pose proof (loop_body_end_time _ _ _ Hinv' Hb) as He'.
  apply loop_body_progress in Hb. rewrite He', He, H0 in Hb. exact Hb.
Qed.

(** The numbers a run reports are positive and strictly increasing. *)
Theorem reported_progress_increases (st0 : SimulationEngine) (c : Loop (list Z)) :
  loop_reaches (Some record_progress) (mkLoop 0%Q 0 st0 []) c ->
  StronglySorted Z.lt (world c) /\ Forall (fun p => 0 < p) (world c).
Proof.
  intros Hr. apply loop_reaches_reports in Hr as (_ & Hs & Hb).
  - split; [done|]. eapply Forall_impl; [exact Hb|]. simpl. intros p ?. lia.
  - repeat split; simpl; [lia|constructor|constructor].
Qed.

End Progress.

(** ** The beds of a run *)

Section Beds.
Context {heapq : HeapQ} {np_random : Generator}.

(** In every state a run passes through, the bed dict lists the beds by
    ascending id, each under its own id: the scan of [_request_bed] over
    [self.beds.values()] is a scan in ascending id order. *)
Theorem beds_stay_in_id_order {W : Type} (fuel : nat) (cb : option (Z -> W -> W))
    (parameters : Params) (seed : Z) (st0 : SimulationEngine) (w : W) (c : Loop W) :
  _generate_arrivals fuel (__init__ parameters seed) = Ok st0 ->
  loop_reaches cb (mkLoop 0%Q 0 st0 w) c ->
  beds_by_id (beds (engine c)).
Proof. intros Hgen Hr. exact (inv_beds _ (reached_inv _ _ _ _ _ _ _ Hgen Hr)). Qed.

End Beds.

Section Rounds.
Context {heapq : HeapQ} {np_random : Generator}.

(** The engine once [_generate_arrivals] has returned. *)
Definition arrivals_queued (fuel : nat) (st : SimulationEngine) : SimulationEngine :=
  match _generate_arrivals fuel st with
  | Ok st' => st'
  | _ => st
  end.

(** The loop state after at most [n] rounds. *)
Fixpoint run_rounds {W : Type} (n : nat) (cb : option (Z -> W -> W)) (c : Loop W) : Loop W :=
  match n with
  | O => c
  | S n' =>
    match event_queue (engine c) with
    | [] => c
    | _ :: _ =>
      match loop_body cb c with
      | Ok c' => run_rounds n' cb c'
      | _ => c
      end
    end
  end.

Lemma run_rounds_reaches {W : Type} n (cb : option (Z -> W -> W)) c :
  loop_reaches cb c (run_rounds n cb c).
Proof.
  revert c. induction n as [|n IH]; intros c; simpl; [constructor|].
  destruct (event_queue (engine c)) eqn:Hq; [constructor|].
  destruct (loop_body cb c) as [c'| |] eqn:Hb; try constructor.
  eapply reaches_next; [by rewrite Hq|exact Hb|apply IH].
Qed.
End Rounds.

Section ReplayProperties.
Import Replay.

(** ** The replay streamer *)

(** The ticks among the outputs, in the order sent. *)
Definition ticks (outputs : list Output) : list (Z * Delta) :=
  omap (fun o => match o with SendTick t d => Some (t, d) | _ => None end) outputs.

(** The outputs of [n] rounds that nothing interrupts, from cursor [t]. *)
Fixpoint plain_rounds (events : list Event) (unit : Z) (speed : Q) (t : Z) (n : nat)
    : list Output :=
  match n with
  | O => []
  | S n' =>
    SendTick t (get_replay_delta events unit t) :: Sleep (1 / speed)
      :: plain_rounds events unit speed (t + minute) n'
  end.







End ReplayProperties.

(** ** Every reference resolves *)

Lemma od_get_is_Some {V : Type} k (d : odict V) : is_Some (od_get k d) <-> k ∈ map fst d.
Proof.
  induction d as [|[k' v] d IH]; simpl.
  - split; [by intros [? ?]|by intros ?%elem_of_nil].
  - destruct (Z.eqb_spec k k') as [->|Hne].
    + split; [left|eauto].
    + rewrite IH. split; [by right|]. intros [?|?]%elem_of_cons; [done|done].
Qed.

Lemma od_elem_of_key {V : Type} (d : odict V) k v : (k, v) ∈ d -> k ∈ map fst d.
Proof. intros H. apply od_get_is_Some. induction d as [|[k' v'] d IH]; simpl.
  - by apply elem_of_nil in H.
  - destruct (Z.eqb_spec k k'); [eauto|].
    apply elem_of_cons in H as [H|H]; [|auto]. injection H as H1 H2. contradiction.
Qed.

Lemma alter_is_Some {V : Type} (f : V -> V) (k j : Z) (m : gmap Z V) :
  is_Some (alter f k m !! j) <-> is_Some (m !! j).
Proof.
  rewrite lookup_alter. case_decide; subst; [apply fmap_is_Some|done].
Qed.

Section Refs.
Context {heapq : HeapQ} {np_random : Generator}.

(** What a queued event needs for its handler to succeed: an arrival its
    data, an event of a patient the patient, a cleaning event its bed. *)
Definition handleable (m : gmap Z SimPatient) (bs : list Z) (e : SimEvent) : Prop :=
  match event_type e with
  | ARRIVAL => exists a i c, data e = ArrivalData a i c
  | TRIAGE_END | IMAGING_REQUEST | IMAGING_END | DISCHARGE => is_Some (m !! entity_id e)
  | CLEANING_END => exists b, data e = BedData b /\ b ∈ bs
  | _ => True
  end.

Record refs_inv (st : SimulationEngine) : Prop := mkRefs {
  refs_events : Forall (handleable (patients st) (map fst (beds st))) (event_queue st);
  refs_bed_queue : Forall (fun k => is_Some (patients st !! k)) (bed_queue st);
  refs_imaging_queue : Forall (fun k => is_Some (patients st !! k)) (imaging_queue st);
  refs_bed_id : forall k p b,
    patients st !! k = Some p -> p_bed_id p = Some b -> b ∈ map fst (beds st);
  refs_nurse_id : forall k p n,
    patients st !! k = Some p -> p_nurse_id p = Some n -> n ∈ map fst (nurses st);
  refs_nurses : Forall (fun kn => n_id (snd kn) = fst kn) (nurses st)
}.

Lemma handleable_mono m m' bs e :
  (forall k, is_Some (m !! k) -> is_Some (m' !! k)) ->
  handleable m bs e -> handleable m' bs e.
Proof. unfold handleable. intros Hm. destruct (event_type e); auto. Qed.

Lemma least_loaded_elem_of ns kn : least_loaded ns = Some kn -> kn ∈ ns.
Proof.
  unfold least_loaded.
  assert (H : forall acc, fst (fold_left
         (fun (acc : option (Z * SimNurse) * option Z) (kn : Z * SimNurse) =>
            let load := len (n_assigned_patients (snd kn)) in
            if (load <? n_max_patients (snd kn))
               && match snd acc with None => true | Some m => load <? m end
            then (Some kn, Some load) else acc)
         ns acc) = Some kn -> kn ∈ ns \/ fst acc = Some kn).
  { induction ns as [|x ns IH]; intros acc; simpl; [auto|].
    intros [Hin|Hacc]%IH; [left; by right|].
    destruct (_ && _); simpl in Hacc; [|auto]. injection Hacc as ->. left. left. }
  intros [?|?]%H; [done|done].
Qed.

Lemma _assign_nurse_refs pref p t st : refs_inv st -> refs_inv (_assign_nurse pref p t st).
Proof.
  intros [E B I Bi Ni N]. unfold _assign_nurse.
  destruct (least_loaded (nurses st)) as [[nref best]|] eqn:Hl; [|by split].
  apply least_loaded_elem_of in Hl.
  assert (Hid : n_id best = nref).
  { rewrite Forall_forall in N. exact (N _ Hl). }
  split; simpl.
  - eapply Forall_impl; [exact E|]. intros e. apply handleable_mono.
    intros k. by rewrite alter_is_Some.
  - eapply Forall_impl; [exact B|]. intros k. by rewrite alter_is_Some.
  - eapply Forall_impl; [exact I|]. intros k. by rewrite alter_is_Some.
  - intros k q b. rewrite lookup_alter. case_decide; subst; [|eauto].
    destruct (patients st !! k) as [q0|] eqn:Hq; simpl; [|done].
    intros [= <-]. simpl. eauto.
  - intros k q n. rewrite od_update_keys, lookup_alter. case_decide; subst; [|eauto].
    destruct (patients st !! k) as [q0|] eqn:Hq; simpl; [|done].
    intros [= <-]. simpl. intros [= <-]. by apply od_elem_of_key in Hl.
  - apply od_update_Forall; [|done]. done.
Qed.

Lemma _assign_nurse_queue pref p t st :
  event_queue (_assign_nurse pref p t st) = event_queue st.
Proof. unfold _assign_nurse. repeat case_match; done. Qed.

Lemma _assign_nurse_rng pref p t st : rng (_assign_nurse pref p t st) = rng st.
Proof. unfold _assign_nurse. repeat case_match; done. Qed.

Lemma _assign_nurse_end_time pref p t st : end_time (_assign_nurse pref p t st) = end_time st.
Proof. unfold _assign_nurse. repeat case_match; done. Qed.

Lemma refs_inv_schedule e st :
  handleable (patients st) (map fst (beds st)) e -> refs_inv st ->
  refs_inv (_schedule_event e st).
Proof.
  intros He [E B I Bi Ni N]. split; simpl; try done.
  rewrite heappush_perm. by constructor.
Qed.

Lemma refs_inv_rng g st : refs_inv st -> refs_inv (set_rng g st).
Proof. intros []. by split. Qed.

Lemma _assign_bed_refs pref p bref b t st :
  refs_inv st -> is_Some (patients st !! pref) -> p_id p = pref ->
  b_id b ∈ map fst (beds st) ->
  refs_inv (_assign_bed pref p bref b t st).
Proof.
  intros Hr Hp Hid Hb. unfold _assign_bed.
  set (st1 := set_patients _ (set_beds _ st)).
  assert (H1 : refs_inv st1).
  { destruct Hr as [E B I Bi Ni N]. subst st1. split; simpl.
    - rewrite od_update_keys. eapply Forall_impl; [exact E|]. intros e.
      apply handleable_mono. intros k. by rewrite alter_is_Some.
    - eapply Forall_impl; [exact B|]. intros k. by rewrite alter_is_Some.
    - eapply Forall_impl; [exact I|]. intros k. by rewrite alter_is_Some.
    - intros k q b'. rewrite od_update_keys, lookup_alter. case_decide; subst; [|eauto].
      destruct (patients st !! p_id p) as [q0|] eqn:Hq; simpl; [|done].
      intros [= <-]. simpl. by intros [= <-].
    - intros k q n. rewrite lookup_alter. case_decide; subst; [|eauto].
      destruct (patients st !! p_id p) as [q0|] eqn:Hq; simpl; [|done].
      intros [= <-]. simpl. eauto.
    - done. }
  assert (Hp1 : is_Some (patients st1 !! pref)).
  { subst st1. simpl. by rewrite alter_is_Some. }
  set (st2 := _assign_nurse pref p t st1).
  assert (H2 : refs_inv st2) by by apply _assign_nurse_refs.
  assert (Hp2 : is_Some (patients st2 !! pref)).
  { subst st2. destruct (_assign_nurse_patients pref p t st1) as [->|[nid ->]]; [done|].
    by rewrite alter_is_Some. }
  clearbody st2. clear H1 Hp1 st1 Hr Hp Hb.
  repeat (case_match; simpl);
    repeat first [ apply refs_inv_schedule; [unfold handleable; simpl; by rewrite ?Hid|]
                 | apply refs_inv_rng ]; done.
Qed.


Lemma refs_inv_alter f k st :
  (forall p, p_bed_id (f p) = p_bed_id p /\ p_nurse_id (f p) = p_nurse_id p) ->
  refs_inv st -> refs_inv (set_patients (alter f k (patients st)) st).
Proof.
  intros Hf [E B I Bi Ni N]. split; simpl.
  - eapply Forall_impl; [exact E|]. intros e. apply handleable_mono.
    intros j. by rewrite alter_is_Some.
  - eapply Forall_impl; [exact B|]. intros j. by rewrite alter_is_Some.
  - eapply Forall_impl; [exact I|]. intros j. by rewrite alter_is_Some.
  - intros j q b. rewrite lookup_alter. case_decide; subst; [|eauto].
    destruct (patients st !! j) as [q0|] eqn:Hq; simpl; [|done].
    intros [= <-]. rewrite (proj1 (Hf q0)). eauto.
  - intros j q n. rewrite lookup_alter. case_decide; subst; [|eauto].
    destruct (patients st !! j) as [q0|] eqn:Hq; simpl; [|done].
    intros [= <-]. rewrite (proj2 (Hf q0)). eauto.
  - done.
Qed.

Lemma refs_inv_beds k f st :
  refs_inv st -> refs_inv (set_beds (od_update k f (beds st)) st).
Proof. intros [E B I Bi Ni N]. split; simpl; rewrite ?od_update_keys; done. Qed.

Lemma refs_inv_nurses k f st :
  (forall n, n_id (f n) = n_id n) ->
  refs_inv st -> refs_inv (set_nurses (od_update k f (nurses st)) st).
Proof.
  intros Hf [E B I Bi Ni N]. split; simpl; rewrite ?od_update_keys; try done.
  apply od_update_Forall; [|done]. simpl. intros n. by rewrite Hf.
Qed.

Lemma refs_inv_bed_queue q st :
  Forall (fun k => is_Some (patients st !! k)) q ->
  refs_inv st -> refs_inv (set_bed_queue q st).
Proof. intros Hq []. by split. Qed.

Lemma refs_inv_imaging_queue q st :
  Forall (fun k => is_Some (patients st !! k)) q ->
  refs_inv st -> refs_inv (set_imaging_queue q st).
Proof. intros Hq []. by split. Qed.

Lemma refs_inv_imaging_in_use n st : refs_inv st -> refs_inv (set_imaging_in_use n st).
Proof. intros []. by split. Qed.

Lemma refs_inv_bottleneck l st : refs_inv st -> refs_inv (set_bottleneck_events l st).
Proof. intros []. by split. Qed.

Lemma refs_inv_outcomes l st : refs_inv st -> refs_inv (set_patient_outcomes l st).
Proof. intros []. by split. Qed.

Lemma beds_by_id_elem_of d k b : beds_by_id d -> (k, b) ∈ d -> b_id b = k.
Proof. intros [_ H] Hin. rewrite Forall_forall in H. exact (H _ Hin). Qed.

Lemma _request_bed_refs patient_id t st st' :
  beds_by_id (beds st) -> (forall k p, patients st !! k = Some p -> p_id p = k) ->
  refs_inv st -> _request_bed patient_id t st = Ok st' -> refs_inv st'.
Proof.
  intros Hbeds Hkeys Hr H. unfold _request_bed in H.
  destruct (patients st !! patient_id) as [patient|] eqn:Hp; simpl in H; [|discriminate].
  destruct (find _ _) as [[bref bed]|] eqn:Hfind; injection H as <-.
  - apply find_first in Hfind as (l1 & l2 & Hfind & _ & _).
    assert (Hin : (bref, bed) ∈ beds st) by (rewrite Hfind; apply elem_of_app; right; left).
    apply _assign_bed_refs; eauto.
    rewrite (beds_by_id_elem_of _ _ _ Hbeds Hin). by apply od_elem_of_key in Hin.
  - apply refs_inv_bottleneck. apply refs_inv_bed_queue; [|done].
    apply Forall_app. split; [by destruct Hr|]. constructor; [eauto|constructor].
Qed.

Lemma _handle_arrival_refs event st st' :
  refs_inv st -> _handle_arrival event st = Ok st' -> refs_inv st'.
Proof.
  intros [E B I Bi Ni N] H. unfold _handle_arrival in H. res_inv; subst.
  apply refs_inv_schedule; [unfold handleable; simpl; by rewrite lookup_insert_eq|].
  apply refs_inv_rng.
  assert (Hm : forall k, is_Some (patients st !! k) ->
                 is_Some (<[entity_id event := mkPatient (entity_id event) acuity (time event)
                     requires_imaging requires_consult None None None None None None None]>
                   (patients st) !! k)).
  { intros k Hk. destruct (decide (k = entity_id event)) as [->|Hne].
    - by rewrite lookup_insert_eq.
    - by rewrite lookup_insert_ne. }
  split; simpl.
  - eapply Forall_impl; [exact E|]. intros e. by apply handleable_mono.
  - eapply Forall_impl; [exact B|]. done.
  - eapply Forall_impl; [exact I|]. done.
  - intros k q b. destruct (decide (k = entity_id event)) as [->|Hne].
    + rewrite lookup_insert_eq. by intros [= <-].
    + rewrite lookup_insert_ne by done. eauto.
  - intros k q n. destruct (decide (k = entity_id event)) as [->|Hne].
    + rewrite lookup_insert_eq. by intros [= <-].
    + rewrite lookup_insert_ne by done. eauto.
  - done.
Qed.

Lemma _handle_triage_end_refs event st st' :
  beds_by_id (beds st) -> (forall k p, patients st !! k = Some p -> p_id p = k) ->
  refs_inv st -> _handle_triage_end event st = Ok st' -> refs_inv st'.
Proof.
  intros Hbeds Hkeys Hr H. unfold _handle_triage_end in H. res_inv.
  eapply _request_bed_refs; [| | |exact H].
  - done.
  - simpl. intros k p. rewrite lookup_alter. case_decide; subst; [|eauto].
    destruct (patients st !! entity_id event) eqn:E; simpl; [|done].
    intros [= <-]. simpl. eauto.
  - by apply refs_inv_alter.
Qed.

Ltac refs :=
  lazymatch goal with
  | |- refs_inv (_schedule_event ?e ?s) => apply (refs_inv_schedule e s); [|refs]
  | |- refs_inv (set_patients (alter ?f ?k _) ?s) =>
    apply (refs_inv_alter f k s); [done|refs]
  | |- refs_inv (set_rng ?g ?s) => apply (refs_inv_rng g s); refs
  | |- refs_inv (set_imaging_in_use ?n ?s) => apply (refs_inv_imaging_in_use n s); refs
  | |- refs_inv (set_bottleneck_events ?l ?s) => apply (refs_inv_bottleneck l s); refs
  | |- refs_inv (set_patient_outcomes ?l ?s) => apply (refs_inv_outcomes l s); refs
  | |- refs_inv (set_bed_queue ?q ?s) => apply (refs_inv_bed_queue q s); [|refs]
  | |- refs_inv (set_imaging_queue ?q ?s) => apply (refs_inv_imaging_queue q s); [|refs]
  | |- refs_inv (set_beds (od_update ?k ?f _) ?s) => apply (refs_inv_beds k f s); refs
  | |- refs_inv (set_nurses (od_update ?k ?f _) ?s) =>
    apply (refs_inv_nurses k f s); [done|refs]
  | |- _ => try assumption
  end.

Lemma _handle_imaging_request_refs event st st' :
  handleable (patients st) (map fst (beds st)) event -> event_type event = IMAGING_REQUEST ->
  refs_inv st -> _handle_imaging_request event st = Ok st' -> refs_inv st'.
Proof.
  intros He Hty Hr H. unfold handleable in He. rewrite Hty in He.
  unfold _handle_imaging_request in H. res_inv; subst; refs.
  - done.
  - simpl. apply Forall_app. split; [by destruct Hr|]. by constructor.
Qed.

Lemma _handle_imaging_end_refs event st st' :
  refs_inv st -> _handle_imaging_end event st = Ok st' -> refs_inv st'.
Proof.
  intros Hr H. unfold _handle_imaging_end in H.
  destruct (patients st !! entity_id event) as [p|] eqn:Hp; simpl in H; [|discriminate].
  pose proof (refs_imaging_queue _ Hr) as Hq.
  destruct (imaging_queue st) as [|next_patient_id rest] eqn:Hi.
  - injection H as <-. refs.
  - apply Forall_cons in Hq as [Hz Hq].
    destruct (integers _ _ _) as [d g]. simpl in H.
    destruct (alter _ _ _ !! next_patient_id) eqn:Hn; simpl in H; [|discriminate].
    injection H as <-. refs.
    + unfold handleable. simpl. by rewrite alter_is_Some.
    + simpl. eapply Forall_impl; [exact Hq|]. intros k. by rewrite alter_is_Some.
Qed.

Lemma _handle_discharge_refs event st st' :
  refs_inv st -> _handle_discharge event st = Ok st' -> refs_inv st'.
Proof.
  intros Hr H. unfold _handle_discharge in H.
  destruct (patients st !! entity_id event) as [p|] eqn:Hp; simpl in H; [|discriminate].
  apply bind_Ok in H as (st1 & H1 & H). apply bind_Ok in H as (st2 & H2 & H).
  injection H as <-. refs.
  assert (R1 : refs_inv st1).
  { destruct (truthy_int _); [|injection H1 as <-; refs].
    destruct (od_get _ _) as [bed|] eqn:Hbed; simpl in H1; [|discriminate].
    destruct (integers _ _ _) as [d g]. injection H1 as <-. refs.
    unfold handleable. simpl. eexists. split; [done|].
    rewrite od_update_keys. apply od_get_is_Some. eauto. }
  clear H1. destruct (truthy_int _); [|by injection H2 as <-].
  destruct (od_get _ _) as [nurse|] eqn:Hn; simpl in H2; [|discriminate].
  destruct (list_in _ _); injection H2 as <-; refs.
Qed.

Lemma _handle_cleaning_end_refs event st st' :
  beds_by_id (beds st) -> (forall k p, patients st !! k = Some p -> p_id p = k) ->
  refs_inv st -> _handle_cleaning_end event st = Ok st' -> refs_inv st'.
Proof.
  intros Hbeds Hkeys Hr H. unfold _handle_cleaning_end in H.
  destruct (data event) as [| |bed_id]; try discriminate.
  destruct (od_get bed_id (beds st)) as [bed|] eqn:Hbed; simpl in H; [|discriminate].
  pose proof (refs_bed_queue _ Hr) as Hq.
  destruct (bed_queue st) as [|patient_id rest] eqn:Hbq.
  - injection H as <-. refs.
  - apply Forall_cons in Hq as [Hz Hq].
    destruct (patients st !! patient_id) as [patient|] eqn:Hp; simpl in H; [|discriminate].
    injection H as <-. apply _assign_bed_refs.
    + refs. exact Hq.
    + simpl. eauto.
    + eauto.
    + simpl. rewrite od_update_keys. apply od_get_elem_of in Hbed.
      rewrite (beds_by_id_elem_of _ _ _ Hbeds Hbed). by apply od_elem_of_key in Hbed.
Qed.

End Refs.

Section Safe.
Context {heapq : HeapQ} {np_random : Generator}.

Lemma _request_bed_ok patient_id t st :
  is_Some (patients st !! patient_id) -> exists st', _request_bed patient_id t st = Ok st'.
Proof.
  intros [p Hp]. unfold _request_bed. rewrite Hp. simpl.
  destruct (find _ _) as [[bref bed]|]; eauto.
Qed.

(** A handleable event is handled: no handler raises on it. *)
Lemma _process_event_ok st e :
  (forall k p, patients st !! k = Some p -> p_id p = k) ->
  refs_inv st -> handleable (patients st) (map fst (beds st)) e ->
  exists st', _process_event e st = Ok st'.
Proof.
  intros Hkeys Hr He. unfold handleable in He. unfold _process_event.
  destruct (event_type e) eqn:Hty; eauto.
  - destruct He as (a & i & c & Hd). unfold _handle_arrival. rewrite Hd.
    destruct (integers _ _ _). eauto.
  - destruct He as [p Hp]. unfold _handle_triage_end. rewrite Hp. simpl.
    apply _request_bed_ok. simpl. rewrite (Hkeys _ _ Hp), alter_is_Some. eauto.
  - destruct He as [p Hp]. unfold _handle_imaging_request.
    destruct (_ <? _); [|eauto].
    destruct (integers _ _ _). simpl. rewrite Hp. simpl. eauto.
  - destruct He as [p Hp]. unfold _handle_imaging_end. rewrite Hp. simpl.
    pose proof (refs_imaging_queue _ Hr) as Hq.
    destruct (imaging_queue st) as [|next rest]; [eauto|].
    apply Forall_cons in Hq as [[pn Hn] _].
    destruct (integers _ _ _). simpl.
    destruct (alter_is_Some (set_p_imaging_end_time (Some (time e))) (entity_id e) next
                (patients st)) as [_ Hs].
    destruct Hs as [pn' Hn']; [eauto|]. rewrite Hn'. simpl. eauto.
  - destruct He as [p Hp]. unfold _handle_discharge. rewrite Hp. simpl.
    assert (Hbed : forall b, p_bed_id p = Some b -> is_Some (od_get b (beds st))).
    { intros b Hb. apply od_get_is_Some. eapply refs_bed_id; eauto. }
    assert (Hnurse : forall n, p_nurse_id p = Some n -> is_Some (od_get n (nurses st))).
    { intros n Hn. apply od_get_is_Some. eapply refs_nurse_id; eauto. }
    destruct (p_bed_id p) as [b|]; simpl; [destruct (b =? 0); simpl|];
      try (destruct (Hbed b eq_refl) as [bed ->]; simpl; destruct (integers _ _ _); simpl);
      (destruct (p_nurse_id p) as [n|]; simpl; [destruct (n =? 0); simpl|];
       try (destruct (Hnurse n eq_refl) as [nurse ->]; simpl; destruct (list_in _ _));
       eauto).
  - destruct He as (b & Hd & Hb). unfold _handle_cleaning_end. rewrite Hd.
    apply od_get_is_Some in Hb as [bed Hbed]. rewrite Hbed. simpl.
    pose proof (refs_bed_queue _ Hr) as Hq.
    destruct (bed_queue st) as [|patient_id rest]; [eauto|].
    apply Forall_cons in Hq as [[p Hp] _]. rewrite Hp. simpl. eauto.
Qed.


Lemma pop_refs st event queue :
  refs_inv st -> heappop (event_queue st) = Some (event, queue) ->
  refs_inv (set_current_time (time event) (set_event_queue queue st)) /\
  handleable (patients st) (map fst (beds st)) event.
Proof.
  intros [E B I Bi Ni N] Hpop. apply heappop_perm in Hpop.
  rewrite Hpop in E. apply Forall_cons in E as [E0 E]. split; [split; simpl; done|done].
Qed.

Lemma _process_event_refs st event queue st' :
  engine_inv st -> refs_inv st -> heappop (event_queue st) = Some (event, queue) ->
  _process_event event (set_current_time (time event) (set_event_queue queue st)) = Ok st' ->
  refs_inv st'.
Proof.
  intros Hinv Hr Hpop H.
  destruct (pop_inv _ _ _ Hinv Hpop) as (Hinv' & _ & _).
  destruct (pop_refs _ _ _ Hr Hpop) as (Hr' & He).
  pose proof (inv_keys _ Hinv') as Hkeys. pose proof (inv_beds _ Hinv') as Hbeds.
  unfold _process_event in H.
  destruct (event_type event) eqn:Hty; try (injection H as <-; exact Hr').
  - by eapply _handle_arrival_refs.
  - by eapply _handle_triage_end_refs.
  - exact (_handle_imaging_request_refs event
             (set_current_time (time event) (set_event_queue queue st)) st' He Hty Hr' H).
  - by eapply _handle_imaging_end_refs.
  - by eapply _handle_discharge_refs.
  - by eapply _handle_cleaning_end_refs.
Qed.

Lemma _collect_metrics_refs st : refs_inv st -> refs_inv (_collect_metrics st).
Proof. intros []. by split. Qed.

Lemma loop_body_refs {W : Type} (cb : option (Z -> W -> W)) c c' :
  engine_inv (engine c) -> refs_inv (engine c) -> loop_body cb c = Ok c' ->
  refs_inv (engine c').
Proof.
  intros Hinv Hr H. unfold loop_body in H.
  destruct (heappop _) as [[event queue]|] eqn:Hpop; [|discriminate].
  apply bind_Ok in H as (st & Hp & H).
  apply (_process_event_refs _ _ _ _ Hinv Hr Hpop) in Hp.
  assert (refs_inv (if Qle_bool 15 (current_time st - last_metric_time c)
                    then _collect_metrics st else st)).
  { destruct (Qle_bool _ _); auto using _collect_metrics_refs. }
  destruct cb; [destruct (_ <? _)|]; injection H as <-; done.
Qed.

Lemma loop_reaches_refs {W : Type} (cb : option (Z -> W -> W)) c c' :
  loop_reaches cb c c' -> engine_inv (engine c) -> refs_inv (engine c) ->
  refs_inv (engine c').
Proof. induction 1; eauto using loop_body_inv, loop_body_refs. Qed.

(** A round of the loop on a queue that is not empty succeeds. *)
Lemma loop_body_ok {W : Type} (cb : option (Z -> W -> W)) c :
  engine_inv (engine c) -> refs_inv (engine c) -> event_queue (engine c) <> [] ->
  exists c', loop_body cb c = Ok c'.
Proof.
  intros Hinv Hr Hq. unfold loop_body.
  destruct (heappop_nonempty _ Hq) as [[event queue] Hpop]. rewrite Hpop.
  destruct (pop_inv _ _ _ Hinv Hpop) as (Hinv' & _ & _).
  destruct (pop_refs _ _ _ Hr Hpop) as (Hr' & He).
  destruct (_process_event_ok _ event (inv_keys _ Hinv') Hr' He) as [st' ->]. simpl.
  destruct cb; [destruct (_ <? _)|]; eauto.
Qed.

(** The engine before the loop. *)
Lemma __init___refs parameters seed : refs_inv (__init__ parameters seed).
Proof.
  unfold __init__, _initialize_resources. simpl.
  rewrite fold_set_beds by (simpl; apply seqZ_sorted).
  rewrite fold_set_nurses by (simpl; apply seqZ_sorted). simpl.
  split; simpl; try done.
  apply Forall_forall. intros [k n] Hin.
  apply list_elem_of_fmap in Hin as (i & [= -> ->] & _). done.
Qed.

Lemma _generate_arrivals_loop_refs fuel rate mix current st st' :
  refs_inv st -> _generate_arrivals_loop fuel rate mix current st = Ok st' -> refs_inv st'.
Proof.
  revert current st. induction fuel as [|fuel IH]; intros current st Hr H; simpl in H;
    [discriminate|].
  destruct (Qlt_bool current (end_time st)); [|by injection H as <-].
  destruct (Qeq_bool rate 0); [discriminate|].
  destruct (Qlt_bool _ 0); [discriminate|].
  destruct (exponential _ _) as [inter g1].
  destruct (Qle_bool _ _).
  { injection H as <-. by apply refs_inv_rng. }
  destruct (choice _ _ _) as [[acuity g2]|]; [|discriminate].
  destruct (random g2) as [u1 g3]. destruct (random g3) as [u2 g4].
  apply IH in H; [done|]. clear IH H.
  apply refs_inv_schedule; [unfold handleable; simpl; eauto|].
  destruct Hr. by split.
Qed.

Lemma _generate_arrivals_refs fuel parameters seed st :
  _generate_arrivals fuel (__init__ parameters seed) = Ok st -> refs_inv st.
Proof.
  intros H. eapply _generate_arrivals_loop_refs; [|exact H]. apply __init___refs.
Qed.

End Safe.

(** ** The loop ends *)

Section Termination.
Context {heapq : HeapQ} {np_random : Generator}.

(** The rounds an event can still cause, itself included: an arrival its
    triage, a triage a bed assignment, a bed assignment an imaging request
    and a discharge, an imaging request an imaging, a discharge a cleaning. *)
Definition weight (e : SimEvent) : nat :=
  match event_type e with
  | ARRIVAL => 6
  | TRIAGE_END => 5
  | IMAGING_REQUEST => 2
  | DISCHARGE => 2
  | _ => 1
  end.

(** A bound on the rounds the loop has left: the queued events by weight,
    4 for each patient waiting for a bed, 1 for each waiting for imaging. *)
Definition pending (st : SimulationEngine) : nat :=
  (sum_list_with weight (event_queue st) + 4 * length (bed_queue st)
   + length (imaging_queue st))%nat.

Ltac pend :=
  unfold pending in *; simpl in *; repeat (rewrite heappush_perm; simpl);
  rewrite ?length_app; unfold weight in *; simpl in *; try lia.

Lemma pending_schedule e st :
  pending (_schedule_event e st) = (weight e + pending st)%nat.
Proof. unfold pending. simpl. rewrite heappush_perm. simpl. lia. Qed.

Lemma _assign_nurse_pending pref p t st : pending (_assign_nurse pref p t st) = pending st.
Proof. unfold _assign_nurse. repeat case_match; done. Qed.

Lemma _assign_bed_pending pref p bref b t st :
  (pending (_assign_bed pref p bref b t st) <= pending st + 4)%nat.
Proof.
  unfold _assign_bed.
  set (st1 := set_patients _ (set_beds _ st)).
  assert (H1 : pending (_assign_nurse pref p t st1) = pending st).
  { by rewrite _assign_nurse_pending. }
  revert H1. generalize (_assign_nurse pref p t st1). intros st2 H2.
  repeat (case_match; simpl); pend.
Qed.

Lemma _process_event_pending st event queue st' :
  heappop (event_queue st) = Some (event, queue) ->
  _process_event event (set_current_time (time event) (set_event_queue queue st)) = Ok st' ->
  (pending st' < pending st)%nat.
Proof.
  intros Hpop H. apply heappop_perm in Hpop.
  assert (Hw : pending st
               = (weight event
                  + pending (set_current_time (time event) (set_event_queue queue st)))%nat).
  { unfold pending. simpl. rewrite Hpop. simpl. lia. }
  rewrite Hw. clear Hw Hpop.
  generalize dependent (set_current_time (time event) (set_event_queue queue st)).
  intros s H. unfold _process_event, weight in *.
  destruct (event_type event) eqn:Hty; try (injection H as <-; lia).
  - unfold _handle_arrival in H. res_inv; subst. rewrite pending_schedule.
    unfold pending, weight. simpl. lia.
  - unfold _handle_triage_end in H.
    destruct (patients s !! entity_id event) as [p|]; simpl in H; [|discriminate].
    unfold _request_bed in H.
    destruct (_ !! p_id p) as [patient|]; simpl in H; [|discriminate].
    destruct (find _ _) as [[bref bed]|]; injection H as <-.
    + match goal with |- (pending (_assign_bed ?a ?b ?c ?d ?e ?f) < _)%nat =>
        pose proof (_assign_bed_pending a b c d e f) as Hp end.
      unfold pending in *. simpl in *. lia.
    + unfold pending. simpl. rewrite length_app. simpl. lia.
  - unfold _handle_imaging_request in H. res_inv; subst.
    + unfold pending, weight. simpl. rewrite heappush_perm. simpl. lia.
    + unfold pending. simpl. rewrite length_app. simpl. lia.
  - unfold _handle_imaging_end in H.
    destruct (patients s !! entity_id event) as [p|]; simpl in H; [|discriminate].
    destruct (imaging_queue s) as [|next rest] eqn:Hq.
    + injection H as <-. unfold pending. simpl. rewrite Hq. simpl. lia.
    + destruct (integers _ _ _) as [d g]. simpl in H.
      destruct (_ !! next); simpl in H; [|discriminate]. injection H as <-.
      unfold pending, weight. simpl. rewrite heappush_perm, Hq. simpl. lia.
  - unfold _handle_discharge in H.
    destruct (patients s !! entity_id event) as [p|]; simpl in H; [|discriminate].
    apply bind_Ok in H as (st1 & H1 & H). apply bind_Ok in H as (st2 & H2 & H).
    injection H as <-.
    assert (P1 : (pending st1 <= pending s + 1)%nat).
    { destruct (truthy_int _); [|injection H1 as <-; unfold pending; simpl; lia].
      destruct (od_get _ _) as [bed|]; simpl in H1; [|discriminate].
      destruct (integers _ _ _) as [d g]. injection H1 as <-.
      rewrite pending_schedule. unfold pending, weight. simpl. lia. }
    assert (P2 : pending st2 = pending st1).
    { clear H1. destruct (truthy_int _); [|by injection H2 as <-].
      destruct (od_get _ _) as [nurse|]; simpl in H2; [|discriminate].
      destruct (list_in _ _); by injection H2 as <-. }
    unfold pending in *. simpl. lia.
  - unfold _handle_cleaning_end in H.
    destruct (data event) as [| |bed_id]; try discriminate.
    destruct (od_get bed_id (beds s)) as [bed|]; simpl in H; [|discriminate].
    destruct (bed_queue s) as [|patient_id rest] eqn:Hq.
    + injection H as <-. unfold pending. simpl. rewrite Hq. simpl. lia.
    + destruct (patients s !! patient_id) as [patient|]; simpl in H; [|discriminate].
      injection H as <-.
      match goal with |- (pending (_assign_bed ?a ?b ?c ?d ?e ?f) < _)%nat =>
        pose proof (_assign_bed_pending a b c d e f) as Hp end.
      unfold pending in *. simpl in *. rewrite Hq. simpl. lia.
Qed.

Lemma loop_body_pending {W : Type} (cb : option (Z -> W -> W)) c c' :
  loop_body cb c = Ok c' -> (pending (engine c') < pending (engine c))%nat.
Proof.
  intros H. unfold loop_body in H.
  destruct (heappop _) as [[event queue]|] eqn:Hpop; [|discriminate].
  apply bind_Ok in H as (st & Hp & H).
  apply (_process_event_pending _ _ _ _ Hpop) in Hp.
  assert (pending (if Qle_bool 15 (current_time st - last_metric_time c)
                   then _collect_metrics st else st) = pending st).
  { by destruct (Qle_bool _ _). }
  destruct cb; [destruct (_ <? _)|]; injection H as <-; simpl; lia.
Qed.

Lemma run_loop_returns {W : Type} fuel (cb : option (Z -> W -> W)) c :
  engine_inv (engine c) -> refs_inv (engine c) -> (pending (engine c) < fuel)%nat ->
  exists c', loop_reaches cb c c' /\ event_queue (engine c') = [] /\
    run_loop fuel cb c = (world c', Ok (engine c')).
Proof.
  revert c. induction fuel as [|fuel IH]; intros c Hinv Hr Hf; [lia|]. simpl.
  destruct (event_queue (engine c)) as [|e q] eqn:Hq.
  - exists c. split; [constructor|done].
  - destruct (loop_body_ok cb c Hinv Hr) as [c1 Hb]; [by rewrite Hq|].
    rewrite Hb. pose proof (loop_body_pending _ _ _ Hb).
    destruct (IH c1) as (c' & Hreach & He & Hrun);
      [by eapply loop_body_inv|by eapply loop_body_refs|lia|].
    exists c'. split; [|done]. eapply reaches_next; [by rewrite Hq|exact Hb|exact Hreach].
Qed.


Lemma _generate_arrivals_loop_queues fuel rate mix current st st' :
  _generate_arrivals_loop fuel rate mix current st = Ok st' ->
  bed_queue st' = bed_queue st /\ imaging_queue st' = imaging_queue st.
Proof.
  revert current st. induction fuel as [|fuel IH]; intros current st H; simpl in H;
    [discriminate|].
  destruct (Qlt_bool current (end_time st)); [|by injection H as <-].
  destruct (Qeq_bool rate 0); [discriminate|].
  destruct (Qlt_bool _ 0); [discriminate|].
  destruct (exponential _ _) as [inter g1].
  destruct (Qle_bool _ _); [by injection H as <-|].
  destruct (choice _ _ _) as [[acuity g2]|]; [|discriminate].
  destruct (random g2) as [u1 g3]. destruct (random g3) as [u2 g4].
  by apply IH in H.
Qed.

Lemma _generate_arrivals_pending fuel parameters seed st :
  _generate_arrivals fuel (__init__ parameters seed) = Ok st ->
  pending st = (6 * length (event_queue st))%nat.
Proof.
  intros H.
  pose proof (_generate_arrivals_loop_gen _ _ _ _ _ _ (__init___gen parameters seed) H) as Hg.
  apply _generate_arrivals_loop_queues in H as [Hb Hi].
  unfold pending. rewrite Hb, Hi.
  replace (bed_queue (__init__ parameters seed)) with (@nil Z).
  2: { unfold __init__, _initialize_resources. simpl.
       rewrite fold_set_beds by (simpl; apply seqZ_sorted).
       by rewrite fold_set_nurses by (simpl; apply seqZ_sorted). }
  replace (imaging_queue (__init__ parameters seed)) with (@nil Z).
  2: { unfold __init__, _initialize_resources. simpl.
       rewrite fold_set_beds by (simpl; apply seqZ_sorted).
       by rewrite fold_set_nurses by (simpl; apply seqZ_sorted). }
  simpl. pose proof (gen_queue _ Hg) as Hq.
  induction Hq as [|e q [He _] Hq IH]; simpl; [lia|].
  unfold weight at 1. unfold is_arrival in He. rewrite He. lia.
Qed.

(** No round of a run raises: whatever event the queue gives back, its
    handler finds the patient, the bed and the nurse it looks up. *)
Theorem round_never_raises {W : Type} (fuel : nat) (cb : option (Z -> W -> W))
    (parameters : Params) (seed : Z) (st0 : SimulationEngine) (w : W) (c : Loop W) :
  _generate_arrivals fuel (__init__ parameters seed) = Ok st0 ->
  loop_reaches cb (mkLoop 0%Q 0 st0 w) c ->
  event_queue (engine c) <> [] ->
  exists c', loop_body cb c = Ok c'.
Proof.
  intros Hgen Hr Hq.
  pose proof (_generate_arrivals_refs _ _ _ _ Hgen) as Hrefs.
  apply _generate_arrivals_inv in Hgen as [Hinv _].
  apply loop_body_ok; [by apply (loop_reaches_inv _ _ _ Hr)| |done].
  by apply (loop_reaches_refs _ _ _ Hr).
Qed.

(** Once the arrivals are generated, [run] returns its bundle: the loop ends
    with an empty queue within 6 rounds for each arrival. *)
Theorem run_returns {W : Type} (fuel : nat) (cb : option (Z -> W -> W))
    (parameters : Params) (seed : Z) (st0 : SimulationEngine) (w : W) :
  _generate_arrivals fuel (__init__ parameters seed) = Ok st0 ->
  (6 * length (event_queue st0) < fuel)%nat ->
  exists c, loop_reaches cb (mkLoop 0%Q 0 st0 w) c /\ event_queue (engine c) = [] /\
    run fuel cb (__init__ parameters seed) w = (world c, Ok (_calculate_results (engine c))).
Proof.
  intros Hgen Hf.
  pose proof (_generate_arrivals_refs _ _ _ _ Hgen) as Hrefs.
  pose proof (_generate_arrivals_pending _ _ _ _ Hgen) as Hp.
  pose proof (_generate_arrivals_inv _ _ _ _ Hgen) as [Hinv _].
  destruct (run_loop_returns fuel cb (mkLoop 0%Q 0 st0 w)) as (c & Hr & Hq & Hrun);
    [done|done|simpl; lia|].
  exists c. split; [done|]. split; [done|].
  unfold run. rewrite Hgen, Hrun. done.
Qed.

End Termination.

(** ** Invariants of the resources *)

Lemma od_get_nodup {V : Type} (d : odict V) k v :
  NoDup (map fst d) -> (k, v) ∈ d -> od_get k d = Some v.
Proof.
  induction d as [|[k' v'] d IH]; simpl; intros Hnd Hin.
  - by apply elem_of_nil in Hin.
  - apply NoDup_cons in Hnd as [Hk Hnd].
    apply elem_of_cons in Hin as [Hin|Hin].
    + injection Hin as -> ->. by rewrite Z.eqb_refl.
    + destruct (Z.eqb_spec k k') as [->|_]; [|auto].
      exfalso. apply Hk. apply od_get_is_Some. apply (od_elem_of_key _ _ _) in Hin.
      by apply od_get_is_Some.
Qed.

(** Updating the object under [k] keeps a property of the entries when the
    updated object has it. *)
Lemma od_update_Forall_get {V : Type} (P : Z * V -> Prop) k (f : V -> V) d v :
  od_get k d = Some v -> P (k, f v) -> Forall P d -> Forall P (od_update k f d).
Proof.
  intros Hget Hf. induction 1 as [|[k' v'] d Hx Hd IH]; simpl in *; [constructor|].
  destruct (Z.eqb_spec k k') as [->|Hne].
  - injection Hget as ->. by constructor.
  - constructor; auto.
Qed.

Lemma sorted_keys_nodup (l : list Z) : StronglySorted Z.lt l -> NoDup l.
Proof.
  induction 1 as [|x l Hs IH Hx]; constructor; [|done].
  intros Hin. rewrite Forall_forall in Hx. specialize (Hx _ Hin). lia.
Qed.

Section Lift.
Context {heapq : HeapQ} {np_random : Generator}.

(** A property of the engine that every handled event and every sample of
    the metrics keep holds in every state a run passes through. *)
Lemma loop_reaches_keeps {W : Type} (cb : option (Z -> W -> W))
    (P : SimulationEngine -> Prop) c c' :
  (forall st event queue st',
      engine_inv st -> refs_inv st -> P st ->
      heappop (event_queue st) = Some (event, queue) ->
      _process_event event (set_current_time (time event) (set_event_queue queue st))
        = Ok st' -> P st') ->
  (forall st, P st -> P (_collect_metrics st)) ->
  loop_reaches cb c c' ->
  engine_inv (engine c) -> refs_inv (engine c) -> P (engine c) -> P (engine c').
Proof.
  intros Hstep Hcoll. induction 1 as [|c1 c2 c3 Hq Hb Hr IH]; [done|].
  intros Hinv Hrefs HP. apply IH; [by eapply loop_body_inv|by eapply loop_body_refs|].
  clear IH Hr. unfold loop_body in Hb.
  destruct (heappop _) as [[event queue]|] eqn:Hpop; [|discriminate].
  apply bind_Ok in Hb as (st & Hp & Hb).
  apply (Hstep _ _ _ _ Hinv Hrefs HP Hpop) in Hp.
  assert (P (if Qle_bool 15 (current_time st - last_metric_time c1)
             then _collect_metrics st else st)).
  { destruct (Qle_bool _ _); auto. }
  destruct cb; [destruct (_ <? _)|]; injection Hb as <-; done.
Qed.

End Lift.

Section Nurses.
Context {heapq : HeapQ} {np_random : Generator}.

(** The nurses are stored under distinct ids, and none has more patients
    than [max_patients], which is 4. *)
Definition nurses_within_max (ns : odict SimNurse) : Prop :=
  NoDup (map fst ns) /\
  Forall (fun kn => len (n_assigned_patients (snd kn)) <= n_max_patients (snd kn) /\
                    n_max_patients (snd kn) = 4) ns.

Lemma least_loaded_below_max ns kn :
  least_loaded ns = Some kn ->
  len (n_assigned_patients (snd kn)) < n_max_patients (snd kn).
Proof.
  unfold least_loaded.
  assert (H : forall acc, fst (fold_left
         (fun (acc : option (Z * SimNurse) * option Z) (kn : Z * SimNurse) =>
            let load := len (n_assigned_patients (snd kn)) in
            if (load <? n_max_patients (snd kn))
               && match snd acc with None => true | Some m => load <? m end
            then (Some kn, Some load) else acc)
         ns acc) = Some kn ->
         len (n_assigned_patients (snd kn)) < n_max_patients (snd kn) \/ fst acc = Some kn).
  { induction ns as [|x ns IH]; intros acc; simpl; [auto|].
    intros [Hin|Hacc]%IH; [by left|].
    destruct (_ <? _) eqn:Hlt; simpl in Hacc; [|auto].
    destruct (match acc.2 with Some _ => _ | None => _ end); simpl in Hacc; [|auto].
    injection Hacc as ->. left. lia. }
  intros [?|?]%H; [done|done].
Qed.

Lemma list_remove_length x l : (length (list_remove x l) <= length l)%nat.
Proof.
  induction l as [|y l IH]; simpl; [done|]. destruct (x =? y); simpl; lia.
Qed.

Lemma _assign_nurse_within_max pref p t st :
  nurses_within_max (nurses st) -> nurses_within_max (nurses (_assign_nurse pref p t st)).
Proof.
  intros [Hnd Hmax]. unfold _assign_nurse.
  destruct (least_loaded (nurses st)) as [[nref best]|] eqn:Hl; [|done].
  pose proof (least_loaded_below_max _ _ Hl) as Hlt.
  apply least_loaded_elem_of in Hl. simpl. split.
  - by rewrite od_update_keys.
  - eapply od_update_Forall_get; [by apply od_get_nodup| |done].
    simpl in *. unfold len in *. rewrite length_app. simpl.
    rewrite Forall_forall in Hmax. destruct (Hmax _ Hl) as [_ H4]. simpl in H4. lia.
Qed.

Lemma _assign_bed_nurses pref p bref b t st :
  nurses (_assign_bed pref p bref b t st)
  = nurses (_assign_nurse pref p t
              (set_patients
                 (alter (fun p => set_p_bed_assigned_time (Some t)
                                    (set_p_bed_id (Some (b_id b)) p))
                    pref (patients st))
                 (set_beds
                    (od_update bref
                       (fun b' => set_b_patient_id (Some (p_id p)) (set_b_is_occupied true b'))
                       (beds st)) st))).
Proof. unfold _assign_bed. repeat (case_match; simpl); done. Qed.

Lemma _process_event_within_max st event st' :
  nurses_within_max (nurses st) -> _process_event event st = Ok st' ->
  nurses_within_max (nurses st').
Proof.
  intros Hn H. unfold _process_event in H.
  destruct (event_type event); try (by injection H as <-).
  - unfold _handle_arrival in H. res_inv; by subst.
  - unfold _handle_triage_end in H.
    destruct (patients st !! entity_id event) as [p|]; simpl in H; [|discriminate].
    unfold _request_bed in H.
    destruct (_ !! p_id p) as [patient|]; simpl in H; [|discriminate].
    destruct (find _ _) as [[bref bed]|]; injection H as <-; [|done].
    rewrite _assign_bed_nurses. by apply _assign_nurse_within_max.
  - unfold _handle_imaging_request in H. res_inv; by subst.
  - unfold _handle_imaging_end in H. res_inv; by subst.
  - unfold _handle_discharge in H.
    destruct (patients st !! entity_id event) as [p|]; simpl in H; [|discriminate].
    apply bind_Ok in H as (st1 & H1 & H). apply bind_Ok in H as (st2 & H2 & H).
    injection H as <-. simpl.
    assert (N1 : nurses st1 = nurses st).
    { destruct (truthy_int _); [|by injection H1 as <-].
      destruct (od_get _ _) as [bed|]; simpl in H1; [|discriminate].
      destruct (integers _ _ _) as [d g]. by injection H1 as <-. }
    clear H1. destruct (truthy_int _); [|injection H2 as <-; by rewrite N1].
    destruct (od_get _ _) as [nurse|]; simpl in H2; [|discriminate].
    destruct (list_in _ _); injection H2 as <-; [|by rewrite N1].
    simpl. rewrite N1. destruct Hn as [Hnd Hmax]. split; [by rewrite od_update_keys|].
    apply od_update_Forall; [|done]. simpl. intros n [Hle H4].
    pose proof (list_remove_length (p_id p) (n_assigned_patients n)).
    unfold len in *. lia.
  - unfold _handle_cleaning_end in H.
    destruct (data event) as [| |bed_id]; try discriminate.
    destruct (od_get bed_id (beds st)) as [bed|]; simpl in H; [|discriminate].
    destruct (bed_queue st) as [|patient_id rest]; [by injection H as <-|].
    destruct (patients st !! patient_id) as [patient|]; simpl in H; [|discriminate].
    injection H as <-. rewrite _assign_bed_nurses. by apply _assign_nurse_within_max.
Qed.

Lemma __init___nurses parameters seed :
  nurses (__init__ parameters seed)
  = map (fun i => (i, mkNurse i 4 [] 0%Q 480%Q))
      (seqZ 1 (default 6 (assoc_get "day" (default [] (nurse_count parameters))))).
Proof.
  unfold __init__, _initialize_resources. simpl.
  rewrite fold_set_beds by (simpl; apply seqZ_sorted).
  by rewrite fold_set_nurses by (simpl; apply seqZ_sorted).
Qed.

Lemma _generate_arrivals_loop_nurses fuel rate mix current st st' :
  _generate_arrivals_loop fuel rate mix current st = Ok st' ->
  nurses st' = nurses st /\ beds st' = beds st /\
  imaging_in_use st' = imaging_in_use st /\ imaging_capacity st' = imaging_capacity st.
Proof.
  revert current st. induction fuel as [|fuel IH]; intros current st H; simpl in H;
    [discriminate|].
  destruct (Qlt_bool current (end_time st)); [|by injection H as <-].
  destruct (Qeq_bool rate 0); [discriminate|].
  destruct (Qlt_bool _ 0); [discriminate|].
  destruct (exponential _ _) as [inter g1].
  destruct (Qle_bool _ _); [by injection H as <-|].
  destruct (choice _ _ _) as [[acuity g2]|]; [|discriminate].
  destruct (random g2) as [u1 g3]. destruct (random g3) as [u2 g4].
  by apply IH in H.
Qed.

(** In every state a run passes through no nurse has more patients than
    [max_patients], which is 4 for every nurse. *)
Theorem nurse_load_within_max {W : Type} (fuel : nat) (cb : option (Z -> W -> W))
    (parameters : Params) (seed : Z) (st0 : SimulationEngine) (w : W) (c : Loop W) :
  _generate_arrivals fuel (__init__ parameters seed) = Ok st0 ->
  loop_reaches cb (mkLoop 0%Q 0 st0 w) c ->
  Forall (fun kn => len (n_assigned_patients (snd kn)) <= n_max_patients (snd kn) /\
                    n_max_patients (snd kn) = 4) (nurses (engine c)).
Proof.
  intros Hgen Hr.
  pose proof (_generate_arrivals_refs _ _ _ _ Hgen) as Hrefs.
  pose proof (_generate_arrivals_inv _ _ _ _ Hgen) as [Hinv _].
  apply _generate_arrivals_loop_nurses in Hgen as (Hn & _).
  apply (loop_reaches_keeps cb (fun st => nurses_within_max (nurses st)) _ _) in Hr;
    try done.
  - by destruct Hr.
  - intros st event queue st' _ _ Hw _ H.
    by apply (_process_event_within_max
                (set_current_time (time event) (set_event_queue queue st)) _ _ Hw) in H.
  - simpl. rewrite Hn, __init___nurses. split.
    + rewrite map_map. simpl. rewrite map_id. apply sorted_keys_nodup, seqZ_sorted.
    + apply Forall_forall. intros [k n] Hin.
      apply list_elem_of_fmap in Hin as (i & [= -> ->] & _). simpl. done.
Qed.

End Nurses.

Section NurseChoice.
Context {heapq : HeapQ} {np_random : Generator}.

Definition load (n : SimNurse) : Z := len (n_assigned_patients n).

(** A nurse who can take one more patient. *)
Definition has_room (n : SimNurse) : Prop := load n < n_max_patients n.

(** What the scan of [_assign_nurse] has found after a prefix of the nurses. *)
Definition scanned (ns : odict SimNurse) (acc : option (Z * SimNurse) * option Z) : Prop :=
  match acc with
  | (Some kn, Some m) =>
    m = load (snd kn) /\
    exists l1 l2, ns = l1 ++ kn :: l2 /\ has_room (snd kn) /\
      Forall (fun x => has_room (snd x) -> load (snd kn) < load (snd x)) l1 /\
      Forall (fun x => has_room (snd x) -> load (snd kn) <= load (snd x)) l2
  | (None, None) => Forall (fun x => ~ has_room (snd x)) ns
  | _ => False
  end.

Lemma least_loaded_scanned ns :
  scanned ns (fold_left
         (fun (acc : option (Z * SimNurse) * option Z) (kn : Z * SimNurse) =>
            let load := len (n_assigned_patients (snd kn)) in
            if (load <? n_max_patients (snd kn))
               && match snd acc with None => true | Some m => load <? m end
            then (Some kn, Some load) else acc)
         ns (None, None)).
Proof.
  induction ns as [|x ns IH] using rev_ind; [constructor|].
  rewrite fold_left_app. simpl.
  destruct (fold_left _ ns (None, None)) as [[kn|] [m|]]; simpl in *; try done.
  - destruct IH as (-> & l1 & l2 & -> & Hroom & H1 & H2).
    destruct (Z.ltb_spec (len (n_assigned_patients (snd x))) (n_max_patients (snd x)));
      simpl.
    + destruct (Z.ltb_spec (len (n_assigned_patients (snd x))) (load (snd kn))); simpl.
      * split; [done|]. exists (l1 ++ kn :: l2), []. split; [done|].
        split; [done|]. split; [|constructor].
        apply Forall_app. split.
        -- eapply Forall_impl; [exact H1|]. unfold load in *. simpl. intros y Hy ?.
           specialize (Hy ltac:(done)). lia.
        -- constructor; [unfold load in *; lia|].
           eapply Forall_impl; [exact H2|]. unfold load in *. simpl. intros y Hy ?.
           specialize (Hy ltac:(done)). lia.
      * split; [done|]. exists l1, (l2 ++ [x]). split; [by rewrite <- (assoc app)|].
        split; [done|]. split; [done|]. apply Forall_app. split; [done|].
        constructor; [|constructor]. unfold load in *. intros _. lia.
    + split; [done|]. exists l1, (l2 ++ [x]). split; [by rewrite <- (assoc app)|].
      split; [done|]. split; [done|]. apply Forall_app. split; [done|].
      constructor; [|constructor]. unfold has_room, load. lia.
  - destruct (Z.ltb_spec (len (n_assigned_patients (snd x))) (n_max_patients (snd x)));
      simpl.
    + split; [done|]. exists ns, []. split; [done|]. split; [done|].
      split; [|constructor]. eapply Forall_impl; [exact IH|]. simpl. by intros y Hy ?.
    + apply Forall_app. split; [done|]. constructor; [|constructor].
      unfold has_room, load. lia.
Qed.

(** [_assign_nurse] takes the first nurse of least load among those with
    room: of the nurses before her those with room have a larger load, of the
    nurses after her none with room has a smaller one.  She gets the patient
    and the patient her id.  When no nurse has room the patient stays without
    one and a [nurse_staffing] record is logged. *)
Theorem assign_nurse_least_loaded (pref : Z) (p : SimPatient) (t : Q)
    (st : SimulationEngine) :
  (exists nref best l1 l2,
      nurses st = l1 ++ (nref, best) :: l2 /\ has_room best /\
      Forall (fun x => has_room (snd x) -> load best < load (snd x)) l1 /\
      Forall (fun x => has_room (snd x) -> load best <= load (snd x)) l2 /\
      _assign_nurse pref p t st
      = set_patients (alter (set_p_nurse_id (Some (n_id best))) pref (patients st))
          (set_nurses
             (od_update nref
                (fun n => set_n_assigned_patients (n_assigned_patients n ++ [p_id p]) n)
                (nurses st)) st)) \/
  (Forall (fun x => ~ has_room (snd x)) (nurses st) /\
   _assign_nurse pref p t st
   = set_bottleneck_events
       (bottleneck_events st ++
          [mkBottleneck t "nurse_staffing" (p_id p) None
             (Some "All nurses at max capacity")]) st).
Proof.
  pose proof (least_loaded_scanned (nurses st)) as H.
  unfold _assign_nurse, least_loaded.
  destruct (fold_left _ (nurses st) (None, None)) as [[[nref best]|] [m|]];
    simpl in *; try done.
  - destruct H as (_ & l1 & l2 & Hns & Hroom & H1 & H2).
    left. exists nref, best, l1, l2. done.
  - by right.
Qed.

End NurseChoice.

Section BedFlags.
Context {heapq : HeapQ} {np_random : Generator}.

(** A bed in use is not being cleaned, and a bed is in use exactly when it
    names its patient. *)
Definition bed_consistent (b : SimBed) : Prop :=
  (b_is_occupied b = true -> b_is_cleaning b = false) /\
  (b_is_occupied b = true <-> is_Some (b_patient_id b)).

Definition beds_consistent (d : odict SimBed) : Prop :=
  Forall (fun kb => bed_consistent (snd kb)) d.

Lemma _assign_bed_consistent pref p bref b t st bed0 :
  od_get bref (beds st) = Some bed0 -> b_is_cleaning bed0 = false ->
  beds_consistent (beds st) -> beds_consistent (beds (_assign_bed pref p bref b t st)).
Proof.
  intros Hget Hc Hb. rewrite _assign_bed_beds.
  eapply od_update_Forall_get; [exact Hget| |exact Hb].
  unfold bed_consistent. simpl. split; [done|]. split; eauto.
Qed.

Lemma _process_event_consistent st event st' :
  beds_by_id (beds st) -> beds_consistent (beds st) -> _process_event event st = Ok st' ->
  beds_consistent (beds st').
Proof.
  intros [Hs _] Hb H. apply sorted_keys_nodup in Hs. unfold _process_event in H.
  destruct (event_type event); try (by injection H as <-).
  - unfold _handle_arrival in H. res_inv; by subst.
  - unfold _handle_triage_end in H.
    destruct (patients st !! entity_id event) as [p|]; simpl in H; [|discriminate].
    unfold _request_bed in H.
    destruct (_ !! p_id p) as [patient|]; simpl in H; [|discriminate].
    destruct (find _ _) as [[bref bed]|] eqn:Hfind; injection H as <-; [|done].
    apply find_first in Hfind as (l1 & l2 & Hfind & Hav & _). simpl in *.
    eapply _assign_bed_consistent; [| |done].
    + apply od_get_nodup; [done|]. simpl. rewrite Hfind. apply elem_of_app. right. left.
    + unfold bed_available in Hav. by destruct (b_is_occupied bed), (b_is_cleaning bed).
  - unfold _handle_imaging_request in H. res_inv; by subst.
  - unfold _handle_imaging_end in H. res_inv; by subst.
  - unfold _handle_discharge in H.
    destruct (patients st !! entity_id event) as [p|]; simpl in H; [|discriminate].
    apply bind_Ok in H as (st1 & H1 & H). apply bind_Ok in H as (st2 & H2 & H).
    injection H as <-. simpl.
    assert (B1 : beds_consistent (beds st1)).
    { destruct (truthy_int _); [|by injection H1 as <-].
      destruct (od_get _ _) as [bed|]; simpl in H1; [|discriminate].
      destruct (integers _ _ _) as [d g]. injection H1 as <-. simpl.
      apply od_update_Forall; [|done]. intros v _. unfold bed_consistent. simpl.
      split; [done|]. split; [done|]. by intros [? ?]. }
    clear H1. destruct (truthy_int _); [|by injection H2 as <-].
    destruct (od_get _ _) as [nurse|]; simpl in H2; [|discriminate].
    destruct (list_in _ _); by injection H2 as <-.
  - unfold _handle_cleaning_end in H.
    destruct (data event) as [| |bed_id]; try discriminate.
    destruct (od_get bed_id (beds st)) as [bed|] eqn:Hbed; simpl in H; [|discriminate].
    assert (B1 : beds_consistent
                   (od_update bed_id
                      (fun b => set_b_available_at (time event) (set_b_is_cleaning false b))
                      (beds st))).
    { apply od_update_Forall; [|done]. intros v [H1 H2]. unfold bed_consistent. simpl.
      split; [done|]. done. }
    destruct (bed_queue st) as [|patient_id rest]; [by injection H as <-|].
    destruct (patients st !! patient_id) as [patient|]; simpl in H; [|discriminate].
    injection H as <-.
    eapply _assign_bed_consistent; simpl; [by apply od_get_update| |done]. done.
Qed.

Lemma __init___beds_list parameters seed :
  beds (__init__ parameters seed)
  = map (fun i => (i, mkBed i
                        (if (i =? 1) || (i =? default 24 (beds_available parameters))
                         then "isolation" else "standard")
                        false false None 0%Q))
      (seqZ 1 (default 24 (beds_available parameters))).
Proof.
  unfold __init__, _initialize_resources. simpl.
  rewrite fold_set_beds by (simpl; apply seqZ_sorted).
  by rewrite fold_set_nurses by (simpl; apply seqZ_sorted).
Qed.

(** In every state a run passes through, no bed is both in use and being
    cleaned, and a bed is in use exactly when it names a patient. *)
Theorem beds_never_occupied_and_cleaning {W : Type} (fuel : nat)
    (cb : option (Z -> W -> W)) (parameters : Params) (seed : Z)
    (st0 : SimulationEngine) (w : W) (c : Loop W) :
  _generate_arrivals fuel (__init__ parameters seed) = Ok st0 ->
  loop_reaches cb (mkLoop 0%Q 0 st0 w) c ->
  Forall (fun kb => bed_consistent (snd kb)) (beds (engine c)).
Proof.
  intros Hgen Hr.
  pose proof (_generate_arrivals_refs _ _ _ _ Hgen) as Hrefs.
  pose proof (_generate_arrivals_inv _ _ _ _ Hgen) as [Hinv _].
  apply _generate_arrivals_loop_nurses in Hgen as (_ & Hb & _).
  apply (loop_reaches_keeps cb (fun st => beds_consistent (beds st)) _ _) in Hr; try done.
  - intros st event queue st' Hi _ Hc _ H.
    apply (_process_event_consistent
             (set_current_time (time event) (set_event_queue queue st)) _ _) in H;
      [done| |done]. simpl. by destruct Hi.
  - simpl. rewrite Hb, __init___beds_list.
    apply Forall_forall. intros [k b] Hin.
    apply list_elem_of_fmap in Hin as (i & [= -> ->] & _). unfold bed_consistent. simpl.
    split; [done|]. split; [done|]. by intros [? ?].
Qed.

End BedFlags.

Section ImagingSlots.
Context {heapq : HeapQ} {np_random : Generator}.

(** The imaging sessions under way: the queued [IMAGING_END] events. *)
Definition imaging_sessions (q : list SimEvent) : nat :=
  sum_list_with (fun e => if decide (event_type e = IMAGING_END) then 1%nat else 0%nat) q.

(** The slots in use are the sessions under way, they do not exceed the
    capacity, and nobody waits while a slot is free. *)
Definition imaging_inv (st : SimulationEngine) : Prop :=
  imaging_in_use st = Z.of_nat (imaging_sessions (event_queue st)) /\
  imaging_in_use st <= Z.max 0 (imaging_capacity st) /\
  (imaging_queue st <> [] -> imaging_capacity st <= imaging_in_use st).

(** The same while the popped event [event] is being handled. *)
Definition imaging_inv_at (event : SimEvent) (st : SimulationEngine) : Prop :=
  imaging_in_use st
  = Z.of_nat (imaging_sessions (event_queue st)
              + if decide (event_type event = IMAGING_END) then 1 else 0) /\
  imaging_in_use st <= Z.max 0 (imaging_capacity st) /\
  (imaging_queue st <> [] -> imaging_capacity st <= imaging_in_use st).

Lemma imaging_sessions_push q e :
  imaging_sessions (heappush q e)
  = ((if decide (event_type e = IMAGING_END) then 1 else 0) + imaging_sessions q)%nat.
Proof. unfold imaging_sessions. by rewrite heappush_perm. Qed.

Ltac img :=
  unfold imaging_inv, imaging_inv_at in *; simpl in *;
  rewrite ?imaging_sessions_push; simpl;
  repeat first [rewrite decide_True by done | rewrite decide_False by done].

Lemma _assign_nurse_imaging pref p t st :
  imaging_inv (_assign_nurse pref p t st) <-> imaging_inv st.
Proof. unfold _assign_nurse. repeat case_match; done. Qed.

Lemma _assign_bed_imaging pref p bref b t st :
  imaging_inv st -> imaging_inv (_assign_bed pref p bref b t st).
Proof.
  intros H. unfold _assign_bed.
  set (st1 := set_patients _ (set_beds _ st)).
  assert (H1 : imaging_inv (_assign_nurse pref p t st1)) by by apply _assign_nurse_imaging.
  revert H1. generalize (_assign_nurse pref p t st1). intros st2 H2.
  repeat (case_match; simpl); img; done.
Qed.

Lemma _process_event_imaging st event st' :
  imaging_inv_at event st -> _process_event event st = Ok st' -> imaging_inv st'.
Proof.
  intros Hi H. unfold _process_event in H. unfold imaging_inv_at in Hi.
  destruct (event_type event) eqn:Hty;
    first [rewrite decide_True in Hi by done | rewrite decide_False in Hi by done];
    rewrite ?Nat.add_0_r in Hi; fold (imaging_inv st) in Hi;
    try (by injection H as <-).
  - unfold _handle_arrival in H. res_inv; subst. img. done.
  - unfold _handle_triage_end in H.
    destruct (patients st !! entity_id event) as [p|]; simpl in H; [|discriminate].
    unfold _request_bed in H.
    destruct (_ !! p_id p) as [patient|]; simpl in H; [|discriminate].
    destruct (find _ _) as [[bref bed]|]; injection H as <-.
    + by apply _assign_bed_imaging.
    + done.
  - unfold _handle_imaging_request in H.
    destruct (Z.ltb_spec (imaging_in_use st) (imaging_capacity st)).
    + destruct (integers _ _ _) as [d g]. simpl in H.
      destruct (_ !! entity_id event); simpl in H; [|discriminate]. injection H as <-.
      img. destruct Hi as (Hc & Hm & Hq). split; [lia|]. split; [lia|].
      intros Hne. specialize (Hq Hne). lia.
    + injection H as <-. img. destruct Hi as (Hc & Hm & Hq).
      split; [lia|]. split; [lia|]. intros _. lia.
  - unfold _handle_imaging_end in H.
    destruct (patients st !! entity_id event) as [p|]; simpl in H; [|discriminate].
    destruct (imaging_queue st) as [|next rest] eqn:Hq.
    + injection H as <-. img. rewrite Hq. destruct Hi as (Hc & Hm & _).
      split; [lia|]. split; [lia|]. done.
    + destruct (integers _ _ _) as [d g]. simpl in H.
      destruct (_ !! next); simpl in H; [|discriminate]. injection H as <-.
      img. destruct Hi as (Hc & Hm & Hw).
      split; [lia|]. split; [lia|]. intros _. specialize (Hw ltac:(done)). lia.
  - unfold _handle_discharge in H.
    destruct (patients st !! entity_id event) as [p|]; simpl in H; [|discriminate].
    apply bind_Ok in H as (st1 & H1 & H). apply bind_Ok in H as (st2 & H2 & H).
    injection H as <-.
    assert (I1 : imaging_inv st1).
    { destruct (truthy_int _); [|by injection H1 as <-].
      destruct (od_get _ _) as [bed|]; simpl in H1; [|discriminate].
      destruct (integers _ _ _) as [d g]. injection H1 as <-. img. done. }
    assert (I2 : imaging_inv st2).
    { clear H1. destruct (truthy_int _); [|by injection H2 as <-].
      destruct (od_get _ _) as [nurse|]; simpl in H2; [|discriminate].
      destruct (list_in _ _); by injection H2 as <-. }
    exact I2.
  - unfold _handle_cleaning_end in H.
    destruct (data event) as [| |bed_id]; try discriminate.
    destruct (od_get bed_id (beds st)) as [bed|]; simpl in H; [|discriminate].
    destruct (bed_queue st) as [|patient_id rest].
    + by injection H as <-.
    + destruct (patients st !! patient_id) as [patient|]; simpl in H; [|discriminate].
      injection H as <-. by apply _assign_bed_imaging.
Qed.

Lemma _assign_nurse_imaging_capacity pref p t st :
  imaging_capacity (_assign_nurse pref p t st) = imaging_capacity st.
Proof. unfold _assign_nurse. repeat case_match; done. Qed.

Lemma _assign_bed_imaging_capacity pref p bref b t st :
  imaging_capacity (_assign_bed pref p bref b t st) = imaging_capacity st.
Proof.
  unfold _assign_bed. repeat (case_match; simpl); by rewrite _assign_nurse_imaging_capacity.
Qed.

Lemma _process_event_imaging_capacity st event st' :
  _process_event event st = Ok st' -> imaging_capacity st' = imaging_capacity st.
Proof.
  intros H. unfold _process_event in H.
  destruct (event_type event); try (by injection H as <-).
  - unfold _handle_arrival in H. res_inv; by subst.
  - unfold _handle_triage_end in H.
    destruct (patients st !! entity_id event) as [p|]; simpl in H; [|discriminate].
    unfold _request_bed in H.
    destruct (_ !! p_id p) as [patient|]; simpl in H; [|discriminate].
    destruct (find _ _) as [[bref bed]|]; injection H as <-; [|done].
    by rewrite _assign_bed_imaging_capacity.
  - unfold _handle_imaging_request in H. res_inv; by subst.
  - unfold _handle_imaging_end in H. res_inv; by subst.
  - unfold _handle_discharge in H.
    destruct (patients st !! entity_id event) as [p|]; simpl in H; [|discriminate].
    apply bind_Ok in H as (st1 & H1 & H). apply bind_Ok in H as (st2 & H2 & H).
    injection H as <-. simpl.
    assert (I1 : imaging_capacity st1 = imaging_capacity st).
    { destruct (truthy_int _); [|by injection H1 as <-].
      destruct (od_get _ _) as [bed|]; simpl in H1; [|discriminate].
      destruct (integers _ _ _) as [d g]. by injection H1 as <-. }
    clear H1. destruct (truthy_int _); [|by injection H2 as <-].
    destruct (od_get _ _) as [nurse|]; simpl in H2; [|discriminate].
    destruct (list_in _ _); by injection H2 as <-.
  - unfold _handle_cleaning_end in H.
    destruct (data event) as [| |bed_id]; try discriminate.
    destruct (od_get bed_id (beds st)) as [bed|]; simpl in H; [|discriminate].
    destruct (bed_queue st) as [|patient_id rest]; [by injection H as <-|].
    destruct (patients st !! patient_id) as [patient|]; simpl in H; [|discriminate].
    injection H as <-. by rewrite _assign_bed_imaging_capacity.
Qed.

(** In every state a run passes through, the imaging slots in use are as
    many as the imaging sessions under way (the queued [IMAGING_END] events),
    so never negative; they do not exceed the capacity; and while a patient
    waits for imaging every slot is in use. *)
Theorem imaging_slots_conserved {W : Type} (fuel : nat) (cb : option (Z -> W -> W))
    (parameters : Params) (seed : Z) (st0 : SimulationEngine) (w : W) (c : Loop W) :
  _generate_arrivals fuel (__init__ parameters seed) = Ok st0 ->
  loop_reaches cb (mkLoop 0%Q 0 st0 w) c ->
  imaging_in_use (engine c) = Z.of_nat (imaging_sessions (event_queue (engine c))) /\
  imaging_in_use (engine c) <= Z.max 0 (imaging_capacity (engine c)) /\
  (imaging_queue (engine c) <> [] -> imaging_capacity (engine c) <= imaging_in_use (engine c)) /\
  imaging_capacity (engine c)
  = int_of_float (default 1%Q (param_imaging_capacity parameters) * 2).
Proof.
  intros Hgen Hr.
  pose proof (_generate_arrivals_refs _ _ _ _ Hgen) as Hrefs.
  pose proof (_generate_arrivals_inv _ _ _ _ Hgen) as [Hinv _].
  pose proof (_generate_arrivals_loop_gen _ _ _ _ _ _ (__init___gen parameters seed) Hgen)
    as Hg.
  pose proof (_generate_arrivals_loop_queues _ _ _ _ _ _ Hgen) as [_ Hiq].
  apply _generate_arrivals_loop_nurses in Hgen as (_ & _ & Hu & Hcap).
  assert (Hinit : imaging_in_use (__init__ parameters seed) = 0 /\
                  imaging_queue (__init__ parameters seed) = [] /\
                  imaging_capacity (__init__ parameters seed)
                  = int_of_float (default 1%Q (param_imaging_capacity parameters) * 2)).
  { unfold __init__, _initialize_resources. simpl.
    rewrite fold_set_beds by (simpl; apply seqZ_sorted).
    by rewrite fold_set_nurses by (simpl; apply seqZ_sorted). }
  destruct Hinit as (Hu0 & Hq0 & Hc0).
  apply (loop_reaches_keeps cb
           (fun st => imaging_inv st /\
                      imaging_capacity st
                      = int_of_float (default 1%Q (param_imaging_capacity parameters) * 2))
           _ _) in Hr; try done.
  - destruct Hr as ((? & ? & ?) & ?). done.
  - intros st event queue st' _ _ [Hi Hc] Hpop H. split.
    + eapply _process_event_imaging; [|exact H].
      apply heappop_perm in Hpop. destruct Hi as (Hs & Hm & Hw).
      unfold imaging_inv_at. simpl. split; [|done]. rewrite Hs.
      unfold imaging_sessions. rewrite Hpop. simpl. f_equal. lia.
    + apply _process_event_imaging_capacity in H. by rewrite H.
  - simpl. split; [|congruence]. unfold imaging_inv. rewrite Hu, Hu0, Hiq, Hq0, Hcap.
    split; [|split; [lia|done]].
    pose proof (gen_queue _ Hg) as Hq. unfold imaging_sessions.
    induction Hq as [|e q [He _] Hq IH]; simpl; [done|].
    unfold is_arrival in He. rewrite decide_False by congruence. simpl. exact IH.
Qed.

End ImagingSlots.

(** ** The sampled series *)

Lemma ts_read_append k k' v ts :
  ts_read k (ts_append k' v ts) = if decide (k = k') then ts_read k ts ++ [v] else ts_read k ts.
Proof.
  unfold ts_read, ts_append. case_decide as Hk; subst.
  - by rewrite lookup_insert_eq.
  - by rewrite lookup_insert_ne.
Qed.

Lemma ts_read_touch k k' ts : ts_read k (ts_touch k' ts) = ts_read k ts.
Proof.
  unfold ts_read, ts_touch. destruct (decide (k = k')) as [->|Hk].
  - rewrite lookup_insert_eq. simpl. done.
  - by rewrite lookup_insert_ne.
Qed.

Definition within (a b x : Q) : Prop := (a <= x)%Q /\ (x <= b)%Q.

Lemma percentage_within (part total : Z) :
  0 <= part <= total ->
  within 0 100 (if 0 <? total then (inject_Z part / inject_Z total * 100)%Q else 0%Q).
Proof.
  intros Hp. unfold within. destruct (Z.ltb_spec 0 total); [|split; lra].
  assert (Ht : (0 < inject_Z total)%Q) by (rewrite <- (Zlt_Qlt 0); lia).
  assert (H0 : (0 <= inject_Z part / inject_Z total)%Q).
  { apply Qle_shift_div_l; [done|]. rewrite Qmult_0_l. rewrite <- (Zle_Qle 0). lia. }
  assert (H1 : (inject_Z part / inject_Z total <= 1)%Q).
  { apply Qle_shift_div_r; [done|]. rewrite Qmult_1_l. rewrite <- Zle_Qle. lia. }
  split; lra.
Qed.

Lemma py_max_within a b l d :
  Forall (within a b) l -> within a b d -> within a b (py_max l d).
Proof.
  intros Hl Hd. unfold py_max. destruct Hl as [|x l Hx Hl]; [done|].
  revert x Hx. induction Hl as [|y l Hy Hl IH]; intros x Hx; simpl; [done|].
  apply IH. by destruct (Qlt_bool x y).
Qed.

Lemma Qsum_within a b l :
  Forall (within a b) l ->
  (a * inject_Z (len l) <= Qsum l)%Q /\ (Qsum l <= b * inject_Z (len l))%Q.
Proof.
  unfold len, Qsum. induction 1 as [|x l [Hx1 Hx2] Hl [IH1 IH2]]; simpl length; simpl fold_right.
  - change (inject_Z (Z.of_nat 0)) with 0%Q. split; lra.
  - rewrite Nat2Z.inj_succ. unfold Z.succ. rewrite inject_Z_plus.
    change (inject_Z 1) with 1%Q. split; lra.
Qed.

Lemma np_mean_within a b l : l <> [] -> Forall (within a b) l -> within a b (np_mean l).
Proof.
  intros Hne Hl. apply Qsum_within in Hl as [H1 H2]. unfold np_mean, within.
  assert (Hn : (0 < inject_Z (len l))%Q).
  { rewrite <- (Zlt_Qlt 0). unfold len. destruct l; [done|]. simpl. lia. }
  split.
  - apply Qle_shift_div_l; [done|]. done.
  - apply Qle_shift_div_r; [done|]. done.
Qed.

Section Series.
Context {heapq : HeapQ} {np_random : Generator}.

(** The five series have one entry for each sample, and the occupancy is a
    percentage. *)
Definition series_inv (ts : gmap string (list Q)) : Prop :=
  length (ts_read "occupancy" ts) = length (ts_read "time" ts) /\
  length (ts_read "bed_queue" ts) = length (ts_read "time" ts) /\
  length (ts_read "imaging_queue" ts) = length (ts_read "time" ts) /\
  length (ts_read "nurse_load" ts) = length (ts_read "time" ts) /\
  Forall (within 0 100) (ts_read "occupancy" ts).

Lemma _collect_metrics_series st :
  series_inv (timeseries st) -> series_inv (timeseries (_collect_metrics st)).
Proof.
  intros (H1 & H2 & H3 & H4 & Ho). unfold _collect_metrics, series_inv. simpl.
  rewrite !ts_read_append. simpl. rewrite !length_app. simpl.
  split; [lia|]. split; [lia|]. split; [lia|]. split; [lia|].
  apply Forall_app. split; [done|]. constructor; [|constructor].
  apply percentage_within. unfold len, od_values. split; [lia|].
  pose proof (length_filter (fun b : SimBed => b_is_occupied b = true) (map snd (beds st))).
  rewrite length_map in H. lia.
Qed.

(** In every bundle computed from a state of a run the five series have the
    same length, every occupancy sample lies between 0 and 100, and so do the
    peak and the average occupancy of the metrics. *)
Theorem series_aligned_and_occupancy_bounded {W : Type} (fuel : nat)
    (cb : option (Z -> W -> W)) (parameters : Params) (seed : Z)
    (st0 : SimulationEngine) (w : W) (c : Loop W) :
  _generate_arrivals fuel (__init__ parameters seed) = Ok st0 ->
  loop_reaches cb (mkLoop 0%Q 0 st0 w) c ->
  let r := _calculate_results (engine c) in
  length (ts_read "occupancy" (res_timeseries r)) = length (ts_read "time" (res_timeseries r)) /\
  length (ts_read "bed_queue" (res_timeseries r)) = length (ts_read "time" (res_timeseries r)) /\
  length (ts_read "imaging_queue" (res_timeseries r))
  = length (ts_read "time" (res_timeseries r)) /\
  length (ts_read "nurse_load" (res_timeseries r)) = length (ts_read "time" (res_timeseries r)) /\
  Forall (within 0 100) (ts_read "occupancy" (res_timeseries r)) /\
  within 0 100 (peak_occupancy (metrics r)) /\
  within 0 100 (avg_occupancy (metrics r)).
Proof.
  intros Hgen Hr.
  pose proof (_generate_arrivals_refs _ _ _ _ Hgen) as Hrefs.
  pose proof (_generate_arrivals_inv _ _ _ _ Hgen) as [Hinv Hts].
  apply (loop_reaches_keeps cb (fun st => series_inv (timeseries st)) _ _) in Hr; try done.
  - destruct Hr as (H1 & H2 & H3 & H4 & Ho). simpl.
    rewrite !ts_read_touch.
    assert (H0 : within 0 100 0) by (unfold within; split; lra).
    split; [done|]. split; [done|]. split; [done|]. split; [done|]. split; [done|].
    split; [by apply py_max_within|].
    destruct (ts_read "occupancy" (timeseries (engine c))) eqn:E; [done|].
    by apply np_mean_within.
  - intros st event queue st' Hi _ Hs Hpop H.
    by rewrite (_process_event_timeseries _ _ _ _ Hi Hpop H).
  - apply _collect_metrics_series.
  - simpl. rewrite Hts. unfold series_inv, ts_read. rewrite !lookup_empty. simpl.
    split; [done|]. split; [done|]. split; [done|]. split; [done|]. constructor.
Qed.

End Series.

(** ** The ranked bottlenecks *)

(** The records of the log that name the constraint [c], and the sum of
    their queue lengths. *)
Definition occurrences (c : string) (events : list Bottleneck) : Z :=
  len (filter (fun b => bn_constraint b = c) events).

Definition queue_total (c : string) (events : list Bottleneck) : Z :=
  foldr (fun b t => default 0 (bn_queue_length b) + t) 0
    (filter (fun b => bn_constraint b = c) events).

Lemma assoc_get_summary_add c' c q s :
  assoc_get c' (summary_add c q s)
  = if String.eqb c' c
    then Some (match assoc_get c s with
               | Some (n, t) => (n + 1, t + default 0 q)
               | None => (1, default 0 q)
               end)
    else assoc_get c' s.
Proof.
  induction s as [|[k [n t]] s IH]; simpl.
  - by destruct (String.eqb c' c).
  - destruct (String.eqb_spec c k) as [->|Hck]; simpl.
    + by destruct (String.eqb_spec c' k).
    + destruct (String.eqb_spec c' k) as [->|Hc'k].
      * destruct (String.eqb_spec k c); [congruence|done].
      * exact IH.
Qed.

Lemma summary_add_keys_nodup c q s :
  NoDup (map fst s) -> NoDup (map fst (summary_add c q s)).
Proof.
  induction s as [|[k [n t]] s IH]; simpl; intros Hnd.
  - repeat constructor. by intros ?%elem_of_nil.
  - apply NoDup_cons in Hnd as [Hk Hnd].
    destruct (String.eqb_spec c k) as [->|Hck]; simpl.
    + by constructor.
    + constructor; [|auto]. intros Hin. apply Hk.
      clear IH Hnd Hk. induction s as [|[k' [n' t']] s IH]; simpl in *.
      * apply elem_of_cons in Hin as [->|Hin]; [done|by apply elem_of_nil in Hin].
      * destruct (String.eqb_spec c k'); simpl in *; [done|].
        apply elem_of_cons in Hin as [->|Hin]; [left|right; auto].
Qed.

Lemma assoc_get_nodup {V : Type} (s : list (string * V)) k v :
  NoDup (map fst s) -> (k, v) ∈ s -> assoc_get k s = Some v.
Proof.
  induction s as [|[k' v'] s IH]; simpl; intros Hnd Hin.
  - by apply elem_of_nil in Hin.
  - apply NoDup_cons in Hnd as [Hk Hnd].
    apply elem_of_cons in Hin as [Hin|Hin].
    + injection Hin as -> ->. by rewrite String.eqb_refl.
    + destruct (String.eqb_spec k k') as [->|_]; [|auto].
      exfalso. apply Hk. clear -Hin.
      induction s as [|[k'' v''] s IH]; [by apply elem_of_nil in Hin|].
      apply elem_of_cons in Hin as [[= -> ->]|Hin]; [left|right; auto].
Qed.

Lemma assoc_get_elem_of {V : Type} (s : list (string * V)) k v :
  assoc_get k s = Some v -> (k, v) ∈ s.
Proof.
  induction s as [|[k' v'] s IH]; simpl; [done|].
  destruct (String.eqb_spec k k') as [->|_].
  - intros [= ->]. left.
  - intros. right. auto.
Qed.

(** The summary of the log: every constraint once, with the number of its
    records and the sum of their queue lengths. *)
Lemma bottleneck_summary_spec events :
  NoDup (map fst (bottleneck_summary events)) /\
  forall c, assoc_get c (bottleneck_summary events)
            = if occurrences c events =? 0 then None
              else Some (occurrences c events, queue_total c events).
Proof.
  unfold bottleneck_summary.
  induction events as [|b events [IHn IH]] using rev_ind; simpl.
  - split; [constructor|]. done.
  - rewrite fold_left_app. simpl. split; [by apply summary_add_keys_nodup|].
    intros c. rewrite assoc_get_summary_add.
    unfold occurrences, queue_total, len in *. rewrite !filter_app, !filter_cons, !filter_nil.
    destruct (String.eqb_spec c (bn_constraint b)) as [->|Hc].
    + rewrite decide_True by done. rewrite length_app, foldr_app. simpl.
      rewrite IH.
      set (l := filter (fun b0 : Bottleneck => bn_constraint b0 = bn_constraint b) events).
      assert (Hf : forall z : Z,
                foldr (fun (b : Bottleneck) t => default 0 (bn_queue_length b) + t) z l
                = foldr (fun (b : Bottleneck) t => default 0 (bn_queue_length b) + t) 0 l + z).
      { intros z. induction l as [|x l' IHl]; simpl; [lia|]. rewrite IHl. lia. }
      destruct (Z.eqb_spec (Z.of_nat (length l)) 0) as [Hz|Hz];
        destruct (Z.eqb_spec (Z.of_nat (length l + 1)) 0); try lia.
      * destruct l; [|simpl in Hz; lia]. simpl. f_equal. f_equal. lia.
      * f_equal. f_equal; [lia|].
        rewrite (Hf (default 0 (bn_queue_length b) + 0)). lia.
    + rewrite decide_False by done. rewrite !app_nil_r. apply IH.
Qed.

Definition ranks_above (x y : RankedBottleneck) : Prop :=
  (rb_impact_score y <= rb_impact_score x)%Q.

Lemma insert_ranked_perm x l : insert_ranked x l ≡ₚ x :: l.
Proof.
  induction l as [|y l IH]; simpl; [done|].
  destruct (Qlt_bool _ _); [|done]. rewrite IH. apply perm_swap.
Qed.

Lemma sort_ranked_perm l : sort_ranked l ≡ₚ l.
Proof.
  induction l as [|x l IH]; simpl; [done|]. by rewrite insert_ranked_perm, IH.
Qed.

Lemma Qlt_bool_spec (a b : Q) : if Qlt_bool a b then (a < b)%Q else (b <= a)%Q.
Proof.
  unfold Qlt_bool. destruct (Qle_bool b a) eqn:E; simpl.
  - by apply Qle_bool_iff.
  - apply Qnot_le_lt. intros H. apply Qle_bool_iff in H. congruence.
Qed.

Lemma insert_ranked_sorted x l :
  StronglySorted ranks_above l -> StronglySorted ranks_above (insert_ranked x l).
Proof.
  induction 1 as [|y l Hs IH Hy]; simpl; [repeat constructor|].
  pose proof (Qlt_bool_spec (rb_impact_score x) (rb_impact_score y)) as Hxy.
  destruct (Qlt_bool _ _).
  - constructor; [done|]. rewrite insert_ranked_perm. constructor; [|done].
    unfold ranks_above. lra.
  - constructor; [by constructor|]. constructor; [done|].
    eapply Forall_impl; [exact Hy|]. unfold ranks_above. intros z Hz. lra.
Qed.

Lemma sort_ranked_sorted l : StronglySorted ranks_above (sort_ranked l).
Proof. induction l; simpl; [constructor|by apply insert_ranked_sorted]. Qed.

Lemma StronglySorted_take_prefix {A : Type} (R : A -> A -> Prop) n l :
  StronglySorted R l -> StronglySorted R (take n l).
Proof.
  intros H. rewrite <- (take_drop n l) in H. by apply StronglySorted_app_1_l in H.
Qed.

Section Ranking.
Context {heapq : HeapQ} {np_random : Generator}.

(** The ranked bottlenecks of a bundle: at most five, by impact score from
    the largest down, no constraint twice; each with the number of the
    records of the log that name its constraint, that number over the number
    of outcome records (or over 1) as its score, the mean queue length of
    those records, and the description of its constraint. *)
Theorem bottlenecks_ranked (st : SimulationEngine) :
  let ranked := bottlenecks (_calculate_results st) in
  (length ranked <= 5)%nat /\
  StronglySorted ranks_above ranked /\
  NoDup (map rb_constraint ranked) /\
  Forall (fun r =>
     rb_occurrences r = occurrences (rb_constraint r) (bottleneck_events st) /\
     0 < rb_occurrences r /\
     rb_impact_score r
     = (inject_Z (rb_occurrences r) / inject_Z (Z.max (len (patient_outcomes st)) 1))%Q /\
     rb_avg_queue r
     = (inject_Z (queue_total (rb_constraint r) (bottleneck_events st))
        / inject_Z (rb_occurrences r))%Q /\
     rb_description r = _describe_bottleneck (rb_constraint r)) ranked.
Proof.
  simpl. destruct (bottleneck_summary_spec (bottleneck_events st)) as [Hnd Hget].
  set (f := fun cd : string * (Z * Z) =>
              let '(constraint, (count, total_queue)) := cd in
              mkRanked constraint
                (inject_Z count / inject_Z (Z.max (len (patient_outcomes st)) 1))%Q
                count
                (if 0 <? count then (inject_Z total_queue / inject_Z count)%Q else 0%Q)
                (_describe_bottleneck constraint)).
  assert (Hkeys : map rb_constraint (map f (bottleneck_summary (bottleneck_events st)))
                  = map fst (bottleneck_summary (bottleneck_events st))).
  { rewrite map_map. apply map_ext. by intros [c [n t]]. }
  split; [|split; [|split]].
  - rewrite length_take. lia.
  - apply StronglySorted_take_prefix, sort_ranked_sorted.
  - assert (NoDup (map rb_constraint (sort_ranked (map f (bottleneck_summary
              (bottleneck_events st)))))) as Hs.
    { rewrite sort_ranked_perm, Hkeys. exact Hnd. }
    rewrite <- (take_drop 5 (sort_ranked _)), map_app in Hs.
    by apply NoDup_app in Hs as [Hs _].
  - apply Forall_take. rewrite sort_ranked_perm. apply Forall_forall.
    intros r Hr. apply list_elem_of_fmap in Hr as ([c [n t]] & -> & Hin). simpl.
    apply (assoc_get_nodup _ _ _ Hnd) in Hin. rewrite Hget in Hin.
    destruct (Z.eqb_spec (occurrences c (bottleneck_events st)) 0); [done|].
    injection Hin as <- <-.
    assert (0 < occurrences c (bottleneck_events st)) by (unfold occurrences, len in *; lia).
    rewrite (proj2 (Z.ltb_lt _ _)) by done. done.
Qed.

End Ranking.

(** ** The arrivals *)

Section Arrivals.
Context {heapq : HeapQ} {np_random : Generator}.

(** What [_generate_arrivals] has queued when [counter] patients are
    numbered. *)
Record arrivals_inv (st : SimulationEngine) : Prop := mkArrivals {
  arr_events : Forall (fun e => event_type e = ARRIVAL /\ (time e < end_time st)%Q /\
                                exists a i c, data e = ArrivalData a i c)
                 (event_queue st);
  arr_ids : map entity_id (event_queue st) ≡ₚ seqZ 1 (patient_counter st);
  arr_counter : 0 <= patient_counter st
}.

Lemma _generate_arrivals_loop_arrivals fuel rate mix current st st' :
  arrivals_inv st -> _generate_arrivals_loop fuel rate mix current st = Ok st' ->
  arrivals_inv st' /\ end_time st' = end_time st /\ patients st' = patients st.
Proof.
  revert current st. induction fuel as [|fuel IH]; intros current st Hinv H; simpl in H;
    [discriminate|].
  destruct (Qlt_bool current (end_time st)); [|by injection H as <-].
  destruct (Qeq_bool rate 0); [discriminate|].
  destruct (Qlt_bool _ 0); [discriminate|].
  destruct (exponential _ _) as [inter g1].
  destruct (Qle_bool (end_time st) (current + inter)) eqn:Hle.
  { injection H as <-. split; [|done]. by destruct Hinv. }
  destruct (choice _ _ _) as [[acuity g2]|]; [|discriminate].
  destruct (random g2) as [u1 g3]. destruct (random g3) as [u2 g4].
  apply IH in H; [done|]. clear IH H.
  destruct Hinv as [E I C]. split; simpl.
  - rewrite heappush_perm. constructor; [|done]. simpl. split; [done|]. split; [|eauto].
    apply Qnot_le_lt. intros Hc. apply Qle_bool_iff in Hc. congruence.
  - rewrite heappush_perm. simpl. rewrite I.
    rewrite (seqZ_app 1 (patient_counter st) 1) by lia. simpl.
    rewrite Permutation_app_comm. simpl. by rewrite Z.add_comm.
  - lia.
Qed.

(** When [_generate_arrivals] returns, the queue holds one arrival for each
    of the patients numbered [1] to [patient_counter], each before minute
    1440 and with its three data keys; nobody is registered yet. *)
Theorem arrivals_generated (fuel : nat) (parameters : Params) (seed : Z)
    (st : SimulationEngine) :
  _generate_arrivals fuel (__init__ parameters seed) = Ok st ->
  Forall (fun e => event_type e = ARRIVAL /\ (time e < 1440)%Q /\
                   exists a i c, data e = ArrivalData a i c) (event_queue st) /\
  map entity_id (event_queue st) ≡ₚ seqZ 1 (patient_counter st) /\
  patients st = ∅.
Proof.
  intros H. unfold _generate_arrivals in H.
  assert (Hinit : event_queue (__init__ parameters seed) = [] /\
                  patient_counter (__init__ parameters seed) = 0 /\
                  end_time (__init__ parameters seed) = 1440%Q /\
                  patients (__init__ parameters seed) = ∅).
  { unfold __init__, _initialize_resources. simpl.
    rewrite fold_set_beds by (simpl; apply seqZ_sorted).
    by rewrite fold_set_nurses by (simpl; apply seqZ_sorted). }
  destruct Hinit as (Hq & Hc & He & Hp).
  apply _generate_arrivals_loop_arrivals in H as ([E I C] & He' & Hp').
  - rewrite He', He in E. rewrite Hp', Hp. done.
  - split; rewrite ?Hq, ?Hc; simpl; [constructor|done|done].
Qed.

Lemma Qdiv_neg (r : Q) : (r < 0)%Q -> (60 / r < 0)%Q.
Proof.
  destruct r as [[|n|n] d]; unfold Qlt, Qdiv, Qinv, Qmult; simpl; lia.
Qed.

Lemma _generate_arrivals_raises (fuel : nat) (parameters : Params) (seed : Z) (m : Q) :
  arrival_multiplier parameters = Some m -> (m <= 0)%Q ->
  exists e, _generate_arrivals (S fuel) (__init__ parameters seed) = Raise e.
Proof.
  intros Hm Hle. unfold _generate_arrivals.
  assert (Hinit : end_time (__init__ parameters seed) = 1440%Q /\
                  params (__init__ parameters seed) = parameters).
  { unfold __init__, _initialize_resources. simpl.
    rewrite fold_set_beds by (simpl; apply seqZ_sorted).
    by rewrite fold_set_nurses by (simpl; apply seqZ_sorted). }
  destruct Hinit as (He & Hp). simpl. rewrite He, Hp, Hm. simpl.
  destruct (Qeq_bool ((125 # 10) * m) 0) eqn:Hz; [eauto|].
  assert (Hneg : ((125 # 10) * m < 0)%Q).
  { apply Qnot_le_lt. intros Hc. assert (((125 # 10) * m == 0)%Q) as Hq by lra.
    apply Qeq_bool_iff in Hq. congruence. }
  apply Qdiv_neg in Hneg.
  assert (Hlt : Qlt_bool (60 / ((125 # 10) * m)) 0 = true).
  { pose proof (Qlt_bool_spec (60 / ((125 # 10) * m)) 0) as Hs.
    destruct (Qlt_bool _ _); [done|]. lra. }
  rewrite Hlt. eauto.
Qed.

(** A scenario whose arrival multiplier is zero or negative makes [run]
    raise before any event is handled, and the callback is never called:
    the division [60 / arrival_rate] fails for zero, and [exponential]
    refuses a negative scale. *)
Theorem nonpositive_arrival_multiplier_raises {W : Type} (fuel : nat)
    (cb : option (Z -> W -> W)) (parameters : Params) (seed : Z) (w : W) (m : Q) :
  arrival_multiplier parameters = Some m -> (m <= 0)%Q ->
  exists e, run (S fuel) cb (__init__ parameters seed) w = (w, Raise e).
Proof.
  intros Hm Hle. destruct (_generate_arrivals_raises fuel parameters seed m Hm Hle) as [e He].
  exists e. unfold run. by rewrite He.
Qed.

(** The resources [__init__] creates: beds [1..beds_available] in that
    order, the first and the last of them isolation beds, all idle; the day
    shift's nurses [1..n], each for at most 4 patients; twice the configured
    imaging and transport capacities.  No beds when [beds_available] is not
    positive. *)
Theorem resources_initialized (parameters : Params) (seed : Z) :
  let st := __init__ parameters seed in
  let num_beds := default 24 (beds_available parameters) in
  beds st = map (fun i => (i, mkBed i (if (i =? 1) || (i =? num_beds)
                                       then "isolation" else "standard")
                                false false None 0%Q)) (seqZ 1 num_beds) /\
  nurses st = map (fun i => (i, mkNurse i 4 [] 0%Q 480%Q))
                (seqZ 1 (default 6 (assoc_get "day" (default [] (nurse_count parameters))))) /\
  imaging_capacity st = int_of_float (default 1%Q (param_imaging_capacity parameters) * 2) /\
  transport_capacity st = int_of_float (default 1%Q (param_transport_capacity parameters) * 2) /\
  (num_beds <= 0 -> beds st = []).
Proof.
  simpl. rewrite __init___beds_list, __init___nurses.
  split; [done|]. split; [done|].
  assert (Hinit : imaging_capacity (__init__ parameters seed)
                  = int_of_float (default 1%Q (param_imaging_capacity parameters) * 2) /\
                  transport_capacity (__init__ parameters seed)
                  = int_of_float (default 1%Q (param_transport_capacity parameters) * 2)).
  { unfold __init__, _initialize_resources. simpl.
    rewrite fold_set_beds by (simpl; apply seqZ_sorted).
    by rewrite fold_set_nurses by (simpl; apply seqZ_sorted). }
  destruct Hinit as [-> ->]. split; [done|]. split; [done|].
  intros Hn. by rewrite seqZ_nil by lia.
Qed.

End Arrivals.

(** ** The handlers, one by one *)

Section HandlerSpecs.
Context {heapq : HeapQ} {np_random : Generator}.

Lemma _assign_bed_get pref p bref b t st bed0 :
  od_get bref (beds st) = Some bed0 ->
  od_get bref (beds (_assign_bed pref p bref b t st))
  = Some (set_b_patient_id (Some (p_id p)) (set_b_is_occupied true bed0)).
Proof.
  intros H. rewrite _assign_bed_beds.
  apply (od_get_update bref
           (fun b' => set_b_patient_id (Some (p_id p)) (set_b_is_occupied true b')) _ _ H).
Qed.

(** [_handle_cleaning_end]: the bed is no longer being cleaned and is
    available from now.  When nobody waits it stays idle; otherwise the
    patient at the head of the bed queue leaves the queue and gets this bed,
    assigned now. *)
Theorem cleaning_end_serves_queue_head (st : SimulationEngine) (event : SimEvent)
    (bed_id : Z) (bed : SimBed) :
  data event = BedData bed_id -> od_get bed_id (beds st) = Some bed ->
  (bed_queue st = [] ->
   _handle_cleaning_end event st
   = Ok (set_beds
           (od_update bed_id
              (fun b => set_b_available_at (time event) (set_b_is_cleaning false b))
              (beds st)) st)) /\
  (forall patient_id rest patient,
     bed_queue st = patient_id :: rest -> patients st !! patient_id = Some patient ->
     exists st', _handle_cleaning_end event st = Ok st' /\
       bed_queue st' = rest /\
       od_get bed_id (beds st')
       = Some (set_b_patient_id (Some (p_id patient))
                 (set_b_is_occupied true
                    (set_b_available_at (time event) (set_b_is_cleaning false bed)))) /\
       exists p', patients st' !! patient_id = Some p' /\
         p_bed_id p' = Some (b_id bed) /\ p_bed_assigned_time p' = Some (time event)).
Proof.
  intros Hd Hb. unfold _handle_cleaning_end. rewrite Hd, Hb. simpl. split.
  - by intros ->.
  - intros patient_id rest patient -> Hp. rewrite Hp. simpl. eexists. split; [done|].
    split; [by rewrite _assign_bed_bed_queue|]. split.
    + rewrite (_assign_bed_get _ _ _ _ _ _
                 (set_b_available_at (time event) (set_b_is_cleaning false bed))); [done|].
      simpl.
      apply (od_get_update bed_id
               (fun b => set_b_available_at (time event) (set_b_is_cleaning false b)) _ _ Hb).
    + by eapply _assign_bed_patient.
Qed.

(** [_handle_imaging_request]: with a free slot the imaging starts now, the
    slot is taken and the end is scheduled [d] minutes on, [d] the integer
    drawn from [20..59]; without one the patient goes to the tail of the
    imaging queue and an [imaging_capacity] record with the new queue length
    is logged, and nothing is scheduled. *)
Theorem imaging_request_takes_slot_or_queues (st : SimulationEngine) (event : SimEvent)
    (p : SimPatient) :
  patients st !! entity_id event = Some p ->
  exists st', _handle_imaging_request event st = Ok st' /\
    ((imaging_in_use st < imaging_capacity st /\
      exists d, d = fst (integers 20 60 (rng st)) /\ 20 <= d <= 59 /\
        imaging_in_use st' = imaging_in_use st + 1 /\
        event_queue st'
        = heappush (event_queue st)
            (mkEvent (time event + inject_Z d)%Q IMAGING_END (entity_id event) NoData) /\
        patients st' !! entity_id event
        = Some (set_p_imaging_start_time (Some (time event)) p) /\
        imaging_queue st' = imaging_queue st /\
        bottleneck_events st' = bottleneck_events st) \/
     (imaging_capacity st <= imaging_in_use st /\
      imaging_queue st' = imaging_queue st ++ [entity_id event] /\
      bottleneck_events st'
      = bottleneck_events st ++
          [mkBottleneck (time event) "imaging_capacity" (entity_id event)
             (Some (len (imaging_queue st ++ [entity_id event]))) None] /\
      imaging_in_use st' = imaging_in_use st /\ event_queue st' = event_queue st /\
      patients st' = patients st)).
Proof.
  intros Hp. unfold _handle_imaging_request.
  destruct (Z.ltb_spec (imaging_in_use st) (imaging_capacity st)) as [Hlt|Hge].
  - pose proof (integers_range 20 60 (rng st) ltac:(lia)) as Hr. simpl.
    destruct (integers 20 60 (rng st)) as [d g] eqn:Hi. simpl in *. rewrite Hp. simpl.
    eexists. split; [done|]. left. split; [done|]. exists d. simpl.
    rewrite lookup_alter_eq, Hp. split_and!; try done; lia.
  - eexists. split; [done|]. right. simpl. split_and!; done.
Qed.

(** [_handle_discharge] of a patient in bed [b] with nurse [n]: the patient
    is stamped, the bed is free of the patient and being cleaned, the end of
    the cleaning is scheduled [d] minutes on, [d] the integer drawn from
    [15..29], the nurse no longer has the patient, and the outcome of the
    patient is appended to the outcomes. *)
Theorem discharge_frees_bed_and_nurse (st : SimulationEngine) (event : SimEvent)
    (p : SimPatient) (b n : Z) (bed : SimBed) (nurse : SimNurse) :
  patients st !! entity_id event = Some p ->
  p_bed_id p = Some b -> b <> 0 -> od_get b (beds st) = Some bed ->
  p_nurse_id p = Some n -> n <> 0 -> od_get n (nurses st) = Some nurse ->
  exists st' d, _handle_discharge event st = Ok st' /\
    d = fst (integers 15 30 (rng st)) /\ 15 <= d <= 29 /\
    patients st' !! entity_id event = Some (set_p_discharge_time (Some (time event)) p) /\
    od_get b (beds st')
    = Some (set_b_patient_id None (set_b_is_cleaning true (set_b_is_occupied false bed))) /\
    event_queue st'
    = heappush (event_queue st)
        (mkEvent (time event + inject_Z d)%Q CLEANING_END b (BedData b)) /\
    od_get n (nurses st')
    = Some (set_n_assigned_patients (list_remove (p_id p) (n_assigned_patients nurse)) nurse) /\
    patient_outcomes st'
    = patient_outcomes st ++ [outcome_of (set_p_discharge_time (Some (time event)) p)].
Proof.
  intros Hp Hb Hb0 Hbed Hn Hn0 Hnurse. unfold _handle_discharge. rewrite Hp. simpl.
  rewrite Hb, Hn. simpl.
  rewrite (proj2 (Z.eqb_neq b 0) Hb0), (proj2 (Z.eqb_neq n 0) Hn0). simpl.
  rewrite Hbed. simpl.
  pose proof (integers_range 15 30 (rng st) ltac:(lia)) as Hr.
  destruct (integers 15 30 (rng st)) as [d g] eqn:Hi. simpl in *. rewrite Hnurse. simpl.
  destruct (list_in (p_id p) (n_assigned_patients nurse)) eqn:Hin; simpl.
  - eexists _, d. split; [done|]. simpl. rewrite lookup_alter_eq, Hp.
    rewrite (od_get_update _ _ _ _ Hbed), (od_get_update _ _ _ _ Hnurse).
    split_and!; try done; lia.
  - eexists _, d. split; [done|]. simpl. rewrite lookup_alter_eq, Hp.
    rewrite (od_get_update _ _ _ _ Hbed), Hnurse.
    assert (Hrm : list_remove (p_id p) (n_assigned_patients nurse) = n_assigned_patients nurse).
    { revert Hin. unfold list_in. generalize (n_assigned_patients nurse). intros l.
      induction l as [|x l IH]; simpl; [done|].
      destruct (p_id p =? x); simpl; [done|]. intros H. by rewrite IH. }
    rewrite Hrm. destruct nurse. split_and!; try done; lia.
Qed.

End HandlerSpecs.

(** ** The way of a patient through the department *)

Section LifeCycle.
Context {heapq : HeapQ} {np_random : Generator}.

(** The queued events of kind [ty] for patient [k]. *)
Definition events_of (ty : SimEventType) (k : Z) (q : list SimEvent) : nat :=
  sum_list_with
    (fun e => if decide (event_type e = ty /\ entity_id e = k) then 1%nat else 0%nat) q.

Definition times_in (k : Z) (l : list Z) : nat :=
  sum_list_with (fun j => if decide (j = k) then 1%nat else 0%nat) l.

Definition registered (k : Z) (m : gmap Z SimPatient) : nat :=
  match m !! k with Some _ => 1%nat | None => 0%nat end.

(** Patient [k] was given a bed at some time. *)
Definition placed (k : Z) (m : gmap Z SimPatient) : nat :=
  match m !! k with
  | Some p => match p_bed_assigned_time p with Some _ => 1%nat | None => 0%nat end
  | None => 0%nat
  end.

(** A registered patient is at exactly one of three stages: in triage,
    waiting for a bed, or placed in a bed; only a placed patient is
    discharged, and once. *)
Definition life_cycle (st : SimulationEngine) : Prop :=
  forall k,
    (events_of TRIAGE_END k (event_queue st) + times_in k (bed_queue st)
     + placed k (patients st) = registered k (patients st))%nat /\
    (events_of DISCHARGE k (event_queue st)
     + times_in k (map o_patient_id (patient_outcomes st)) <= placed k (patients st))%nat.

#[local] Arguments events_of : simpl never.
#[local] Arguments times_in : simpl never.
#[local] Arguments registered : simpl never.
#[local] Arguments placed : simpl never.

Lemma events_of_push ty k q e :
  events_of ty k (heappush q e)
  = ((if decide (event_type e = ty /\ entity_id e = k) then 1 else 0) + events_of ty k q)%nat.
Proof. unfold events_of. by rewrite heappush_perm. Qed.

Lemma events_of_pop ty k q e q' :
  heappop q = Some (e, q') ->
  events_of ty k q
  = ((if decide (event_type e = ty /\ entity_id e = k) then 1 else 0) + events_of ty k q')%nat.
Proof. intros H. unfold events_of. by rewrite (heappop_perm _ _ _ H). Qed.

Lemma times_in_app k l1 l2 : times_in k (l1 ++ l2) = (times_in k l1 + times_in k l2)%nat.
Proof. unfold times_in. apply sum_list_with_app. Qed.

Lemma times_in_nil k : times_in k [] = 0%nat.
Proof. done. Qed.

Lemma times_in_cons k x l :
  times_in k (x :: l) = ((if decide (x = k) then 1 else 0) + times_in k l)%nat.
Proof. done. Qed.

Lemma times_in_zero k l : times_in k l = 0%nat -> k ∉ l.
Proof.
  induction l as [|x l IH]; [intros _; apply not_elem_of_nil|].
  rewrite times_in_cons. case_decide; [lia|]. intros H0.
  apply not_elem_of_cons. split; [congruence|auto].
Qed.

Lemma times_in_pos k l : k ∈ l -> (1 <= times_in k l)%nat.
Proof.
  induction 1 as [x l|x y l _ IH]; rewrite times_in_cons;
    [rewrite decide_True by done|]; lia.
Qed.

Lemma times_in_NoDup l : (forall k, (times_in k l <= 1)%nat) -> NoDup l.
Proof.
  induction l as [|x l IH]; intros H; constructor.
  - apply times_in_zero. specialize (H x). rewrite times_in_cons in H.
    rewrite decide_True in H by done. lia.
  - apply IH. intros k. specialize (H k). rewrite times_in_cons in H. lia.
Qed.

Lemma registered_alter f k0 k (m : gmap Z SimPatient) :
  registered k (alter f k0 m) = registered k m.
Proof.
  unfold registered. rewrite lookup_alter. case_decide; [subst|done].
  by destruct (m !! k).
Qed.

Lemma placed_alter f k0 k (m : gmap Z SimPatient) :
  (forall p, p_bed_assigned_time (f p) = p_bed_assigned_time p) ->
  placed k (alter f k0 m) = placed k m.
Proof.
  intros Hf. unfold placed. rewrite lookup_alter. case_decide; [subst|done].
  destruct (m !! k); simpl; [by rewrite Hf|done].
Qed.

Lemma placed_alter_assigned t v k0 k (m : gmap Z SimPatient) :
  placed k (alter (fun p => set_p_bed_assigned_time (Some t) (set_p_bed_id v p)) k0 m)
  = if decide (k = k0) then registered k m else placed k m.
Proof.
  unfold placed, registered. rewrite lookup_alter.
  case_decide; [subst; rewrite decide_True by done|rewrite decide_False by done; done].
  by destruct (m !! k).
Qed.

Lemma _assign_nurse_outcomes pref p t st :
  patient_outcomes (_assign_nurse pref p t st) = patient_outcomes st.
Proof. unfold _assign_nurse. repeat case_match; done. Qed.

Lemma _assign_nurse_placed pref p t st k :
  placed k (patients (_assign_nurse pref p t st)) = placed k (patients st) /\
  registered k (patients (_assign_nurse pref p t st)) = registered k (patients st).
Proof.
  destruct (_assign_nurse_patients pref p t st) as [->|[nid ->]]; [done|].
  by rewrite placed_alter, registered_alter.
Qed.

Lemma _assign_bed_life pref p bref b t st k :
  p_id p = pref ->
  events_of TRIAGE_END k (event_queue (_assign_bed pref p bref b t st))
  = events_of TRIAGE_END k (event_queue st) /\
  (events_of DISCHARGE k (event_queue (_assign_bed pref p bref b t st))
   <= events_of DISCHARGE k (event_queue st) + if decide (k = pref) then 1 else 0)%nat /\
  placed k (patients (_assign_bed pref p bref b t st))
  = (if decide (k = pref) then registered k (patients st) else placed k (patients st)) /\
  registered k (patients (_assign_bed pref p bref b t st)) = registered k (patients st) /\
  patient_outcomes (_assign_bed pref p bref b t st) = patient_outcomes st.
Proof.
  intros Hid. unfold _assign_bed.
  set (st1 := set_patients _ (set_beds _ st)).
  assert (Hp : placed k (patients (_assign_nurse pref p t st1))
               = if decide (k = pref) then registered k (patients st)
                 else placed k (patients st)).
  { rewrite (proj1 (_assign_nurse_placed pref p t st1 k)). subst st1. simpl.
    by rewrite placed_alter_assigned. }
  assert (Hr : registered k (patients (_assign_nurse pref p t st1))
               = registered k (patients st)).
  { rewrite (proj2 (_assign_nurse_placed pref p t st1 k)). subst st1. simpl.
    by rewrite registered_alter. }
  assert (Hq : event_queue (_assign_nurse pref p t st1) = event_queue st).
  { by rewrite _assign_nurse_queue. }
  assert (Ho : patient_outcomes (_assign_nurse pref p t st1) = patient_outcomes st).
  { by rewrite _assign_nurse_outcomes. }
  revert Hp Hr Hq Ho. generalize (_assign_nurse pref p t st1).
  intros st2 Hp Hr Hq Ho.
  repeat (case_match; simpl); rewrite ?events_of_push; simpl;
    rewrite Hp, Hr, Hq, Ho;
    repeat case_decide; destruct_and?; try discriminate; try congruence;
    split_and!; try done; lia.
Qed.

Lemma registered_le_1 k (m : gmap Z SimPatient) : (registered k m <= 1)%nat.
Proof. unfold registered. destruct (m !! k); lia. Qed.

Lemma registered_insert k0 p k (m : gmap Z SimPatient) :
  registered k (<[k0:=p]> m) = if decide (k = k0) then 1%nat else registered k m.
Proof.
  unfold registered. case_decide; [subst; by rewrite lookup_insert_eq|].
  by rewrite lookup_insert_ne.
Qed.

Lemma placed_insert k0 p k (m : gmap Z SimPatient) :
  placed k (<[k0:=p]> m)
  = if decide (k = k0)
    then match p_bed_assigned_time p with Some _ => 1%nat | None => 0%nat end
    else placed k m.
Proof.
  unfold placed. case_decide; [subst; by rewrite lookup_insert_eq|].
  by rewrite lookup_insert_ne.
Qed.

Ltac count :=
  simpl; rewrite ?events_of_push, ?map_app, ?times_in_app, ?times_in_cons, ?times_in_nil,
    ?registered_alter, ?registered_insert,
    ?placed_insert; rewrite ?placed_alter by done; simpl;
  repeat case_decide; destruct_and?; simplify_eq; try done; try lia;
  try congruence; try solve [exfalso; auto].

Lemma _process_event_life st event queue st' :
  engine_inv st -> life_cycle st ->
  heappop (event_queue st) = Some (event, queue) ->
  _process_event event (set_current_time (time event) (set_event_queue queue st)) = Ok st' ->
  life_cycle st'.
Proof.
  intros Hinv Hl Hpop H k.
  pose proof (Hl k) as [Hk1 Hk2].
  rewrite (events_of_pop TRIAGE_END _ _ _ _ Hpop) in Hk1.
  rewrite (events_of_pop DISCHARGE _ _ _ _ Hpop) in Hk2.
  pose proof (Hl (entity_id event)) as [He1 He2].
  rewrite (events_of_pop TRIAGE_END _ _ _ _ Hpop) in He1.
  rewrite (events_of_pop DISCHARGE _ _ _ _ Hpop) in He2.
  assert (Hin : event ∈ event_queue st).
  { rewrite (heappop_perm _ _ _ Hpop). apply list_elem_of_here. }
  pose proof (inv_keys _ Hinv) as Hkeys.
  pose proof (registered_le_1 k (patients st)) as Hb1.
  pose proof (registered_le_1 (entity_id event) (patients st)) as Hb2.
  unfold _process_event in H.
  destruct (event_type event) eqn:Hty;
    try solve [injection H as <-; split; count].
  - (* ARRIVAL *)
    pose proof (inv_arrivals _ Hinv) as Ha. rewrite Forall_forall in Ha.
    specialize (Ha _ Hin Hty).
    assert (Hreg : registered (entity_id event) (patients st) = 0%nat).
    { unfold registered. by rewrite Ha. }
    unfold _handle_arrival in H. destruct (data event); try discriminate.
    simpl in H. destruct (integers _ _ _) as [d g]. injection H as <-.
    split; count.
  - (* TRIAGE_END *)
    unfold _handle_triage_end in H. simpl in H.
    destruct (patients st !! entity_id event) as [p|] eqn:Hp; simpl in H; [|discriminate].
    pose proof (Hkeys _ _ Hp) as Hid. unfold _request_bed in H. simpl in H.
    rewrite Hid, lookup_alter_eq, Hp in H. simpl in H.
    destruct (find _ _) as [[bref bed]|]; injection H as <-.
    + match goal with |- context [_assign_bed ?a ?b ?c ?d ?e ?f] =>
        pose proof (_assign_bed_life a b c d e f k Hid) as (A1 & A2 & A3 & A4 & A5);
        pose proof (_assign_bed_bed_queue a b c d e f) as A6 end.
      simpl in A1, A2, A3, A4, A5, A6.
      rewrite registered_alter in A3, A4. rewrite placed_alter in A3 by done.
      rewrite A1, A3, A4, A5, A6. split; count.
    + split; count.
  - (* IMAGING_REQUEST *)
    unfold _handle_imaging_request in H. res_inv; subst; split; count.
  - (* IMAGING_END *)
    unfold _handle_imaging_end in H. res_inv; subst; split; count.
  - (* DISCHARGE *)
    unfold _handle_discharge in H. simpl in H.
    destruct (patients st !! entity_id event) as [p|] eqn:Hp; simpl in H; [|discriminate].
    pose proof (Hkeys _ _ Hp) as Hid.
    apply bind_Ok in H as (st1 & H1 & H). apply bind_Ok in H as (st2 & H2 & H).
    injection H as <-. simpl.
    assert (I1 : patients st1
                 = alter (set_p_discharge_time (Some (time event))) (entity_id event)
                     (patients st) /\
                 bed_queue st1 = bed_queue st /\
                 patient_outcomes st1 = patient_outcomes st /\
                 events_of TRIAGE_END k (event_queue st1) = events_of TRIAGE_END k queue /\
                 events_of DISCHARGE k (event_queue st1) = events_of DISCHARGE k queue).
    { destruct (truthy_int _); [|by injection H1 as <-].
      destruct (od_get _ _) as [bed|]; simpl in H1; [|discriminate].
      destruct (integers _ _ _) as [d g]. injection H1 as <-. simpl.
      rewrite !events_of_push. simpl.
      rewrite ?decide_False by (intros [? ?]; done). done. }
    destruct I1 as (P1 & B1 & O1 & T1 & D1). clear H1.
    assert (I2 : patients st2 = patients st1 /\ bed_queue st2 = bed_queue st1 /\
                 patient_outcomes st2 = patient_outcomes st1 /\
                 event_queue st2 = event_queue st1).
    { destruct (truthy_int _); [|by injection H2 as <-].
      destruct (od_get _ _) as [nurse|]; simpl in H2; [|discriminate].
      destruct (list_in _ _); by injection H2 as <-. }
    destruct I2 as (P2 & B2 & O2 & E2).
    rewrite P2, B2, O2, E2, P1, B1, O1, T1, D1.
    rewrite map_app, times_in_app. simpl. rewrite Hid. split; count.
  - (* CLEANING_END *)
    unfold _handle_cleaning_end in H. simpl in H.
    destruct (data event) as [| |bed_id]; try discriminate.
    destruct (od_get bed_id (beds st)) as [bed|]; simpl in H; [|discriminate].
    destruct (bed_queue st) as [|patient_id rest] eqn:Hbq;
      [injection H as <-; simpl; rewrite Hbq; split; count|].
    destruct (patients st !! patient_id) as [patient|] eqn:Hp; simpl in H; [|discriminate].
    injection H as <-.
    pose proof (Hl patient_id) as [Hj1 Hj2].
    rewrite (events_of_pop TRIAGE_END _ _ _ _ Hpop) in Hj1.
    rewrite (events_of_pop DISCHARGE _ _ _ _ Hpop) in Hj2.
    rewrite times_in_cons in Hk1, He1. rewrite Hbq, times_in_cons in Hj1.
    pose proof (registered_le_1 patient_id (patients st)) as Hb3.
    match goal with |- context [_assign_bed ?a ?b ?c ?d ?e ?f] =>
      pose proof (_assign_bed_life a b c d e f k (Hkeys _ _ Hp)) as (A1 & A2 & A3 & A4 & A5);
      pose proof (_assign_bed_bed_queue a b c d e f) as A6 end.
    simpl in A1, A2, A3, A4, A5, A6.
    rewrite A1, A3, A4, A5, A6. split; count.
Qed.

Lemma events_of_arrivals ty k q :
  Forall (fun e => event_type e = ARRIVAL) q -> ty <> ARRIVAL -> events_of ty k q = 0%nat.
Proof.
  intros Hq Hty. unfold events_of. induction Hq as [|e q He _ IH]; simpl; [done|].
  rewrite decide_False by (intros [? ?]; congruence). done.
Qed.

Lemma placed_le_1 k (m : gmap Z SimPatient) : (placed k m <= 1)%nat.
Proof. unfold placed. repeat case_match; lia. Qed.

Lemma _generate_arrivals_life fuel parameters seed st :
  _generate_arrivals fuel (__init__ parameters seed) = Ok st -> life_cycle st.
Proof.
  intros H.
  pose proof (_generate_arrivals_loop_gen _ _ _ _ _ _ (__init___gen parameters seed) H)
    as [Hp Hq _ Ho _ _ _ _ _].
  apply _generate_arrivals_loop_queues in H as [Hb _].
  assert (Hb0 : bed_queue (__init__ parameters seed) = []).
  { unfold __init__, _initialize_resources. simpl.
    rewrite fold_set_beds by (simpl; apply seqZ_sorted).
    by rewrite fold_set_nurses by (simpl; apply seqZ_sorted). }
  assert (Hq' : Forall (fun e => event_type e = ARRIVAL) (event_queue st)).
  { eapply Forall_impl; [exact Hq|]. by intros e [? _]. }
  intros k. rewrite !events_of_arrivals by done. rewrite Hb, Hb0, Ho, Hp. done.
Qed.

(** In every state a run passes through, no patient has two outcome records
    and no patient waits twice for a bed; whoever waits for a bed is
    registered and was not yet given one; and every outcome record is of a
    registered patient who was given a bed. *)
Theorem patients_discharged_at_most_once {W : Type} (fuel : nat) (cb : option (Z -> W -> W))
    (parameters : Params) (seed : Z) (st0 : SimulationEngine) (w : W) (c : Loop W) :
  _generate_arrivals fuel (__init__ parameters seed) = Ok st0 ->
  loop_reaches cb (mkLoop 0%Q 0 st0 w) c ->
  NoDup (map o_patient_id (patient_outcomes (engine c))) /\
  NoDup (bed_queue (engine c)) /\
  Forall (fun k => exists p, patients (engine c) !! k = Some p /\
                             p_bed_assigned_time p = None) (bed_queue (engine c)) /\
  Forall (fun o => exists p, patients (engine c) !! o_patient_id o = Some p /\
                             is_Some (p_bed_assigned_time p)) (patient_outcomes (engine c)).
Proof.
  intros Hgen Hr.
  pose proof (_generate_arrivals_refs _ _ _ _ Hgen) as Hrefs.
  pose proof (_generate_arrivals_inv _ _ _ _ Hgen) as [Hinv _].
  apply _generate_arrivals_life in Hgen.
  apply (loop_reaches_keeps cb life_cycle _ _) in Hr; try done.
  2: { intros st event queue st' Hi _ Hl Hpop Hp. by eapply _process_event_life. }
  split_and!.
  - apply times_in_NoDup. intros k. destruct (Hr k) as [_ H2].
    pose proof (placed_le_1 k (patients (engine c))). lia.
  - apply times_in_NoDup. intros k. destruct (Hr k) as [H1 _].
    pose proof (registered_le_1 k (patients (engine c))). lia.
  - apply Forall_forall. intros k Hk. apply times_in_pos in Hk.
    destruct (Hr k) as [H1 _]. revert H1. unfold registered, placed.
    destruct (patients (engine c) !! k) as [p|]; [|lia].
    destruct (p_bed_assigned_time p) eqn:Hb; [lia|]. eauto.
  - apply Forall_forall. intros o Ho.
    assert (Hk : o_patient_id o ∈ map o_patient_id (patient_outcomes (engine c))).
    { apply list_elem_of_fmap. eauto. }
    apply times_in_pos in Hk. destruct (Hr (o_patient_id o)) as [_ H2]. revert H2.
    unfold placed. destruct (patients (engine c) !! o_patient_id o) as [p|]; [|lia].
    destruct (p_bed_assigned_time p) eqn:Hb; [|lia]. eauto.
Qed.

End LifeCycle.

(** ** The job runner *)

Section WorkerProperties.
Context {heapq : HeapQ} {np_random : Generator}.

(** What the callback keeps of its world, the loop keeps. *)
Lemma run_loop_world {W : Type} (P : W -> Prop) fuel (cb : Z -> W -> W) c :
  (forall p w, P w -> P (cb p w)) -> P (world c) -> P (fst (run_loop fuel (Some cb) c)).
Proof.
  intros Hcb. revert c. induction fuel as [|fuel IH]; intros c Hw; simpl; [done|].
  destruct (event_queue (engine c)); [done|].
  destruct (loop_body (Some cb) c) as [c'| |] eqn:Hb; try done.
  apply IH. apply loop_body_progress in Hb.
  destruct Hb as [(_ & -> & _)|(_ & -> & _)]; auto.
Qed.

Lemma run_world {W : Type} (P : W -> Prop) fuel (cb : Z -> W -> W) st w :
  (forall p w, P w -> P (cb p w)) -> P w -> P (fst (run fuel (Some cb) st w)).
Proof.
  intros Hcb Hw. unfold run. destruct (_generate_arrivals fuel st); try done.
  pose proof (run_loop_world P fuel cb (mkLoop 0%Q 0 a w) Hcb Hw) as H.
  by destruct (run_loop _ _ _).
Qed.

(** The session of a task on run [run_id] while the engine runs: the row is
    that of the run, running since [started]; it is the row the database
    holds and the last one committed; nothing else has changed since [d]. *)
Definition task_session (d : Database) (run_id started : Z) (r0 : SimulationRun)
    (s : Session) : Prop :=
  r_id (row s) = run_id /\ r_scenario_id (row s) = r_scenario_id r0 /\
  r_status (row s) = RUNNING /\ r_started_at (row s) = Some started /\
  r_completed_at (row s) = r_completed_at r0 /\
  r_error_message (row s) = r_error_message r0 /\
  simulation_runs (db s) !! run_id = Some (row s) /\
  last (committed (db s)) = Some (row s) /\
  scenarios (db s) = scenarios d /\
  (forall k, k <> run_id -> simulation_runs (db s) !! k = simulation_runs d !! k).

Lemma progress_callback_session d run_id started r0 p s :
  task_session d run_id started r0 s ->
  task_session d run_id started r0 (progress_callback p s).
Proof.
  intros (Hid & Hsc & Hst & Hsa & Hca & Hem & Hrow & Hlast & Hscen & Hother).
  unfold task_session, progress_callback, commit. simpl.
  rewrite Hid, lookup_insert_eq, last_snoc.
  repeat (split; [done|]).
  intros k Hk. rewrite lookup_insert_ne by congruence. auto.
Qed.

(** The task up to the return of the engine. *)
Lemma run_simulation_task_session (fuel : nat) (run_id scenario_id started completed : Z)
    (d : Database) (r0 : SimulationRun) (sc : Scenario) :
  simulation_runs d !! run_id = Some r0 -> r_id r0 = run_id ->
  scenarios d !! scenario_id = Some sc ->
  exists s results,
    task_session d run_id started r0 s /\
    run_simulation_task fuel run_id scenario_id started completed d
    = match results with
      | Ok results =>
        (db (commit (mkSession
                       (mkRun (r_id (row s)) (r_scenario_id (row s)) COMPLETED
                          (r_started_at (row s)) (Some completed) 100
                          (Some (metrics results)) (Some (res_timeseries results))
                          (Some (bottlenecks results)) (r_error_message (row s)))
                       (db s) (task_states s))),
         Ok (TaskCompleted run_id scenario_id (metrics results)))
      | Raise e =>
        (db (commit (mkSession
                       (mkRun (r_id (row s)) (r_scenario_id (row s)) FAILED
                          (r_started_at (row s)) (Some completed) (r_progress (row s))
                          (r_metrics (row s)) (r_timeseries (row s))
                          (r_bottlenecks (row s)) (Some e))
                       (db s) (task_states s))),
         Ok (TaskError e))
      | OutOfFuel => (db s, OutOfFuel)
      end.
Proof.
  intros Hr Hid Hs. unfold run_simulation_task. rewrite Hr, Hs.
  set (r1 := mkRun (r_id r0) (r_scenario_id r0) RUNNING (Some started)
               (r_completed_at r0) (r_progress r0) (r_metrics r0) (r_timeseries r0)
               (r_bottlenecks r0) (r_error_message r0)).
  assert (Hs0 : task_session d run_id started r0 (commit (mkSession r1 d []))).
  { unfold task_session, commit. simpl. rewrite Hid, lookup_insert_eq, last_snoc.
    repeat (split; [done|]). intros k Hk. rewrite lookup_insert_ne by congruence. done. }
  pose proof (run_world (task_session d run_id started r0) fuel progress_callback
                (__init__ (s_parameters sc) 42) _
                (progress_callback_session d run_id started r0) Hs0) as Hw.
  destruct (run fuel (Some progress_callback) (__init__ (s_parameters sc) 42)
              (commit (mkSession r1 d []))) as [s results].
  exists s, results. split; [exact Hw|]. by destruct results.
Qed.

(** A task that finds its run and its scenario and comes to an end leaves
    the run finished: completed, at 100 percent and with the bundle, when the
    engine returned; failed, with the exception as its message, when the
    engine raised.  The other runs and the scenarios are as they were. *)
Theorem task_leaves_run_finished (fuel : nat) (run_id scenario_id started completed : Z)
    (d d' : Database) (r0 : SimulationRun) (sc : Scenario) (res : TaskResult) :
  simulation_runs d !! run_id = Some r0 -> r_id r0 = run_id ->
  scenarios d !! scenario_id = Some sc ->
  run_simulation_task fuel run_id scenario_id started completed d = (d', Ok res) ->
  scenarios d' = scenarios d /\
  (forall k, k <> run_id -> simulation_runs d' !! k = simulation_runs d !! k) /\
  exists r, simulation_runs d' !! run_id = Some r /\ last (committed d') = Some r /\
    r_id r = run_id /\ r_scenario_id r = r_scenario_id r0 /\
    r_started_at r = Some started /\ r_completed_at r = Some completed /\
    match res with
    | TaskCompleted i j m =>
      i = run_id /\ j = scenario_id /\ r_status r = COMPLETED /\ r_progress r = 100 /\
      r_metrics r = Some m /\ is_Some (r_timeseries r) /\ is_Some (r_bottlenecks r) /\
      r_error_message r = r_error_message r0
    | TaskError e => r_status r = FAILED /\ r_error_message r = Some e
    end.
Proof.
  intros Hr Hid Hs H.
  destruct (run_simulation_task_session fuel run_id scenario_id started completed d r0 sc
              Hr Hid Hs) as (s & results & Hw & Ht).
  rewrite Ht in H. clear Ht.
  destruct Hw as (Hi & Hsc & Hst & Hsa & Hca & Hem & Hrow & Hlast & Hscen & Hother).
  destruct results as [results|e|]; [| |discriminate].
  - injection H as <- <-. simpl. split; [done|]. split.
    { intros k Hk. rewrite Hi, lookup_insert_ne by congruence. auto. }
    eexists. rewrite Hi, lookup_insert_eq, last_snoc. split; [done|]. split; [done|]. simpl.
    split_and!; eauto.
  - injection H as <- <-. simpl. split; [done|]. split.
    { intros k Hk. rewrite Hi, lookup_insert_ne by congruence. auto. }
    eexists. rewrite Hi, lookup_insert_eq, last_snoc. split; [done|]. split; [done|]. simpl.
    split_and!; eauto.
Qed.

End WorkerProperties.

Section WorkerProgress.
Context {heapq : HeapQ} {np_random : Generator}.

(** The loop does with any callback what it does with the recording one:
    it calls it on the recorded values, in their order. *)
Lemma run_loop_replays {W : Type} fuel (cb : Z -> W -> W) lm lp st w log :
  exists new,
    run_loop fuel (Some record_progress) (mkLoop lm lp st log)
    = (log ++ new, snd (run_loop fuel (Some cb) (mkLoop lm lp st w))) /\
    fst (run_loop fuel (Some cb) (mkLoop lm lp st w)) = fold_left (fun w p => cb p w) new w.
Proof.
  revert lm lp st w log. induction fuel as [|fuel IH]; intros lm lp st w log; simpl.
  { exists []. by rewrite app_nil_r. }
  destruct (event_queue st) as [|e q].
  { exists []. by rewrite app_nil_r. }
  unfold loop_body. simpl.
  destruct (heappop _) as [[event queue]|].
  2: { exists []. by rewrite app_nil_r. }
  destruct (_process_event event _) as [st'| |]; simpl.
  2, 3: exists []; by rewrite app_nil_r.
  destruct (_ <? _).
  - match goal with |- context [run_loop fuel (Some cb) (mkLoop ?a ?b ?c ?d)] =>
      destruct (IH a b c d (log ++ [b])) as (new & H1 & H2); exists (b :: new) end.
    rewrite <- (assoc app) in H1. split; [exact H1|exact H2].
  - match goal with |- context [run_loop fuel (Some cb) (mkLoop ?a ?b ?c ?d)] =>
      destruct (IH a b c d log) as (new & H1 & H2) end.
    exists new. split; [exact H1|exact H2].
Qed.

Lemma fold_progress_callback reports s :
  map r_progress (committed (db (fold_left (fun s p => progress_callback p s) reports s)))
  = map r_progress (committed (db s)) ++ reports /\
  map r_status (committed (db (fold_left (fun s p => progress_callback p s) reports s)))
  = map r_status (committed (db s)) ++ replicate (length reports) (r_status (row s)) /\
  r_status (row (fold_left (fun s p => progress_callback p s) reports s)) = r_status (row s).
Proof.
  revert s. induction reports as [|p reports IH]; intros s; simpl.
  - by rewrite !app_nil_r.
  - destruct (IH (progress_callback p s)) as (-> & -> & ->).
    unfold progress_callback, commit. simpl. rewrite !map_app. simpl.
    by rewrite <- !(assoc app).
Qed.

(** The progress a completed task has committed: the progress the row had
    when the task started, with the first commit; then what the engine
    reported, positive and strictly increasing, one commit each, the run
    running; then 100 with the last commit, the run completed. *)
Theorem task_commits_progress (fuel : nat) (run_id scenario_id started completed : Z)
    (d d' : Database) (r0 : SimulationRun) (sc : Scenario) (i j : Z) (m : Metrics) :
  simulation_runs d !! run_id = Some r0 ->
  scenarios d !! scenario_id = Some sc ->
  run_simulation_task fuel run_id scenario_id started completed d
  = (d', Ok (TaskCompleted i j m)) ->
  exists reports,
    StronglySorted Z.lt reports /\ Forall (fun p => 0 < p) reports /\
    map r_progress (committed d')
    = map r_progress (committed d) ++ [r_progress r0] ++ reports ++ [100] /\
    map r_status (committed d')
    = map r_status (committed d) ++ [RUNNING] ++ replicate (length reports) RUNNING
      ++ [COMPLETED].
Proof.
  intros Hr Hs H. unfold run_simulation_task in H. rewrite Hr, Hs in H.
  set (r1 := mkRun (r_id r0) (r_scenario_id r0) RUNNING (Some started)
               (r_completed_at r0) (r_progress r0) (r_metrics r0) (r_timeseries r0)
               (r_bottlenecks r0) (r_error_message r0)) in H.
  set (s0 := commit (mkSession r1 d [])) in H.
  unfold run in H.
  destruct (_generate_arrivals fuel (__init__ (s_parameters sc) 42)) as [st0| |] eqn:Hgen;
    try (simpl in H; discriminate).
  destruct (run_loop_replays fuel progress_callback 0%Q 0 st0 s0 []) as (reports & H1 & H2).
  destruct (run_loop fuel (Some progress_callback) (mkLoop 0%Q 0 st0 s0)) as [s results].
  simpl in H1, H2.
  destruct results as [st| |]; simpl in H; try discriminate.
  injection H as <- _ _ _. simpl.
  apply run_loop_reaches in H1 as (c & Hreach & _ & Hw & _).
  apply loop_reaches_reports in Hreach as (_ & Hsorted & Hpos).
  2: { repeat split; simpl; [lia|constructor|constructor]. }
  rewrite Hw in Hsorted, Hpos.
  exists reports. split; [done|]. split.
  { eapply Forall_impl; [exact Hpos|]. simpl. intros p ?. lia. }
  destruct (fold_progress_callback reports s0) as (Hp & Hst & _).
  rewrite <- H2 in Hp, Hst. rewrite !map_app. simpl. rewrite Hp, Hst.
  subst s0. unfold commit. simpl. rewrite !map_app. simpl.
  by rewrite <- !(assoc app).
Qed.

End WorkerProgress.

Section WorkerOutcomes.
Context {heapq : HeapQ} {np_random : Generator}.

(** A task that finds its run and its scenario completes the run once the
    engine has generated its arrivals: the engine returns, so the task
    returns [completed] with the metrics and the row is completed. *)
Theorem task_completes (fuel : nat) (run_id scenario_id started completed : Z)
    (d : Database) (r0 : SimulationRun) (sc : Scenario) (st0 : SimulationEngine) :
  simulation_runs d !! run_id = Some r0 ->
  scenarios d !! scenario_id = Some sc ->
  _generate_arrivals fuel (__init__ (s_parameters sc) 42) = Ok st0 ->
  (6 * length (event_queue st0) < fuel)%nat ->
  exists d' m r,
    run_simulation_task fuel run_id scenario_id started completed d
    = (d', Ok (TaskCompleted run_id scenario_id m)) /\
    last (committed d') = Some r /\ r_status r = COMPLETED /\ r_progress r = 100 /\
    r_metrics r = Some m.
Proof.
  intros Hr Hs Hgen Hf. unfold run_simulation_task. rewrite Hr, Hs.
  unfold run. rewrite Hgen.
  pose proof (_generate_arrivals_refs _ _ _ _ Hgen) as Hrefs.
  pose proof (_generate_arrivals_pending _ _ _ _ Hgen) as Hp.
  pose proof (_generate_arrivals_inv _ _ _ _ Hgen) as [Hinv _].
  match goal with |- context [run_loop fuel (Some progress_callback) ?c] =>
    destruct (run_loop_returns fuel (Some progress_callback) c) as (c' & _ & _ & ->);
      [done|done|simpl; lia|] end.
  simpl. eexists _, _, _. split; [done|]. simpl. rewrite last_snoc. done.
Qed.

(** A task whose scenario has a zero or negative arrival multiplier fails
    the run: the engine raises before it handles an event, the run is
    committed as running and then as failed with the exception as its message,
    and no progress is committed in between. *)
Theorem task_fails_on_nonpositive_multiplier (fuel : nat)
    (run_id scenario_id started completed : Z)
    (d : Database) (r0 : SimulationRun) (sc : Scenario) (m : Q) :
  simulation_runs d !! run_id = Some r0 ->
  scenarios d !! scenario_id = Some sc ->
  arrival_multiplier (s_parameters sc) = Some m -> (m <= 0)%Q ->
  exists d' e r1 r2,
    run_simulation_task (S fuel) run_id scenario_id started completed d
    = (d', Ok (TaskError e)) /\
    committed d' = committed d ++ [r1; r2] /\
    r_status r1 = RUNNING /\ r_status r2 = FAILED /\ r_error_message r2 = Some e /\
    r_progress r2 = r_progress r0.
Proof.
  intros Hr Hs Hm Hle.
  destruct (_generate_arrivals_raises fuel (s_parameters sc) 42 m Hm Hle) as [e He].
  unfold run_simulation_task. rewrite Hr, Hs. unfold run. rewrite He. simpl.
  eexists _, e, _, _. split; [done|]. simpl. rewrite <- (assoc app). simpl. done.
Qed.

End WorkerOutcomes.

Section WorkerGuard.
Context {heapq : HeapQ} {np_random : Generator}.


End WorkerGuard.

Section ReplayControl.
Import Replay.

(** ** The control messages of a replay *)






Lemma ticks_app o1 o2 : ticks (o1 ++ o2) = ticks o1 ++ ticks o2.
Proof. unfold ticks. apply omap_app. Qed.

Definition is_seek (m : option Message) : Prop := exists t, m = Some (Seek t).

Lemma apply_message_cursor message s :
  ~ is_seek message ->
  match apply_message message s with
  | Ok (Some s1) => current_time s1 = current_time s
  | _ => True
  end.
Proof.
  intros Hm. destruct message as [[| |t|v| |]|]; simpl; try done.
  - destruct t; [|done]. exfalso. apply Hm. by eexists.
  - by destruct v.
Qed.

Lemma replay_loop_ticks events unit end_time fuel :
  forall inbox s outputs s',
    Forall (fun m => ~ is_seek m) inbox ->
    replay_loop fuel events unit end_time inbox s = Ok (outputs, s') ->
    exists n : nat,
      map fst (ticks outputs)
      = map (fun k => current_time s + Z.of_nat k * minute) (seq 0 n) /\
      (n = 0%nat \/ current_time s + Z.of_nat (n - 1) * minute < end_time).
Proof.
  induction fuel as [|fuel IH]; intros inbox s outputs s' Hin H; [discriminate|].
  cbn [replay_loop] in H.
  destruct (Z.ltb_spec (current_time s) end_time) as [Hlt|Hge].
  2: { injection H as <- <-. exists 0%nat. split; [done|by left]. }
  assert (Hm : ~ is_seek (default None (head inbox))).
  { destruct Hin as [|m inbox Hm _]; simpl; [|done]. by intros [t Ht]. }
  assert (Htl : Forall (fun m => ~ is_seek m) (tail inbox)).
  { destruct Hin; simpl; [constructor|done]. }
  set (message := default None (head inbox)) in *. clearbody message.
  assert (Hcases :
    (exists s1, round events unit message s = ([Sleep (1 # 10)], Some s1) /\
                current_time s1 = current_time s) \/
    (exists s1 d, round events unit message s
                  = ([SendTick (current_time s) (get_replay_delta events unit (current_time s));
                      Sleep d], Some s1) /\
                  current_time s1 = current_time s + minute) \/
    (exists o, round events unit message s = (o, None) /\
               (ticks o = [] \/ exists d, ticks o = [(current_time s, d)]))).
  { pose proof (apply_message_cursor message s Hm) as Hc. unfold round.
    destruct (apply_message message s) as [[s1|]|e|].
    - destruct s1 as [c1 p1 v1]. simpl in Hc. subst c1. simpl.
      destruct p1; simpl.
      + destruct (Qeq_bool v1 0).
        * right. right. eexists. split; [done|]. right. eauto.
        * right. left. eexists _, _. split; [done|]. done.
      + left. eexists. done.
    - right. right. eexists. split; [done|by left].
    - right. right. eexists. split; [done|by left].
    - right. right. eexists. split; [done|by left]. }
  destruct Hcases as [(s1 & Hr & Hc)|[(s1 & d & Hr & Hc)|(o & Hr & Ho)]]; rewrite Hr in H.
  - destruct (replay_loop fuel events unit end_time (tail inbox) s1)
      as [[rest s2]| |] eqn:Hl; simpl in H; try discriminate.
    injection H as <- <-. destruct (IH _ _ _ _ Htl Hl) as (n & Hn & Hb).
    exists n. rewrite Hc in Hn, Hb. done.
  - destruct (replay_loop fuel events unit end_time (tail inbox) s1)
      as [[rest s2]| |] eqn:Hl; simpl in H; try discriminate.
    injection H as <- <-. destruct (IH _ _ _ _ Htl Hl) as (n & Hn & Hb).
    exists (S n). rewrite Hc in Hn, Hb. split.
    + cbn [app ticks omap]. fold (ticks rest). simpl. rewrite Hn, <- seq_shift, map_map.
      rewrite Z.add_0_r. f_equal. apply map_ext. intros k. lia.
    + right. destruct n as [|n]; [simpl; lia|]. destruct Hb as [?|Hb]; [done|].
      replace (S (S n) - 1)%nat with (S n) by lia.
      replace (S n - 1)%nat with n in Hb by lia. lia.
  - injection H as <- <-. destruct Ho as [->|[d ->]].
    + exists 0%nat. split; [done|by left].
    + exists 1%nat. split; [simpl; f_equal; lia|]. right. simpl. lia.
Qed.

(** Without a [seek], a stream that ends has sent at most 1440 ticks, the
    first at its start and each one minute after the one before, whatever
    else it was told. *)
Theorem ticks_bounded_without_seek (events : list Event) (unit : Z)
    (start_time : option Z) (speed : Q) (inbox : list (option Message))
    (fuel : nat) (outputs : list Output) :
  Forall (fun m => ~ is_seek m) inbox ->
  replay_websocket fuel events unit start_time speed inbox = Ok outputs ->
  exists n : nat, (n <= 1440)%nat /\
    map fst (ticks outputs)
    = map (fun k => default default_start start_time + Z.of_nat k * minute) (seq 0 n).
Proof.
  intros Hin H. unfold replay_websocket in H.
  destruct (replay_loop _ _ _ _ _ _) as [[outs s']| |] eqn:Hl; simpl in H; try discriminate.
  injection H as <-. apply replay_loop_ticks in Hl as (n & Hn & Hb); [|done].
  simpl in Hn, Hb. exists n. split.
  - destruct Hb as [->|Hb]; [lia|]. unfold hour, minute, second in Hb. lia.
  - rewrite ticks_app. simpl. by rewrite app_nil_r.
Qed.






End ReplayControl.

(** ** The simulation endpoints *)

Section Endpoints.
Context {heapq : HeapQ} {np_random : Generator}.

(** A run started through [start_simulation] under a fresh key is pending
    and is what [get_simulation_status] answers; the task it queues finds
    it: when that task comes to an end the run is completed or failed, and
    no longer pending. *)
Theorem started_run_gets_finished (fuel : nat) (new_id scenario_id started completed : Z)
    (d d1 d2 : Database) (task : QueuedTask) (run : SimulationRun) (res : TaskResult) :
  simulation_runs d !! new_id = None ->
  start_simulation new_id scenario_id d = (d1, [task], Respond run) ->
  run_simulation_task fuel (task_run_id task) (task_scenario_id task) started completed d1
  = (d2, Ok res) ->
  r_status run = PENDING /\ get_simulation_status (r_id run) d1 = Respond run /\
  exists r, get_simulation_status (r_id run) d2 = Respond r /\
    r_started_at r = Some started /\
    match res with
    | TaskCompleted _ _ _ => r_status r = COMPLETED
    | TaskError _ => r_status r = FAILED
    end.
Proof.
  unfold start_simulation. intros _ Hstart Htask.
  destruct (scenarios d !! scenario_id) as [sc|] eqn:Hsc; [|discriminate].
  injection Hstart as <- <- <-. simpl in *.
  unfold get_simulation_status. simpl. rewrite lookup_insert_eq.
  split; [done|]. split; [done|].
  match type of Htask with run_simulation_task _ _ _ _ _ ?db = _ =>
    destruct (run_simulation_task_session fuel new_id scenario_id started completed db _ sc
                (lookup_insert_eq _ _ _) eq_refl Hsc) as (s & results & Hw & Ht) end.
  rewrite Ht in Htask. clear Ht.
  destruct Hw as (Hi & _ & _ & Hsa & _).
  destruct results as [results|e|]; [| |discriminate]; injection Htask as <- <-; simpl;
    rewrite Hi, lookup_insert_eq; eauto.
Qed.

(** [cancel_simulation] marks a run that is neither completed nor failed as
    failed, with the message [Cancelled by user], and answers with success; a
    run that is completed or failed it leaves as it is, so a second cancel
    changes nothing and answers without success. *)
Theorem cancel_marks_failed_once (job_id : Z) (d : Database) (run : SimulationRun) :
  simulation_runs d !! job_id = Some run -> r_id run = job_id ->
  let d1 := fst (cancel_simulation job_id d) in
  (r_status run = COMPLETED \/ r_status run = FAILED ->
   cancel_simulation job_id d
   = (d, Respond (mkAPIResponse false "Simulation already finished"))) /\
  (r_status run = PENDING \/ r_status run = RUNNING ->
   snd (cancel_simulation job_id d) = Respond (mkAPIResponse true "Simulation cancelled") /\
   (exists r, simulation_runs d1 !! job_id = Some r /\ r_status r = FAILED /\
      r_error_message r = Some "Cancelled by user" /\ r_progress r = r_progress run) /\
   (forall k, k <> job_id -> simulation_runs d1 !! k = simulation_runs d !! k)) /\
  cancel_simulation job_id d1
  = (d1, Respond (mkAPIResponse false "Simulation already finished")).
Proof.
  intros Hr Hid. unfold cancel_simulation. rewrite Hr. simpl.
  split; [|split].
  - by intros [-> | ->].
  - intros [Hs|Hs]; rewrite Hs; simpl; rewrite Hid, lookup_insert_eq;
      (split; [done|]); (split; [eauto|]);
      intros k Hk; by rewrite lookup_insert_ne.
  - destruct (r_status run) eqn:Hs; simpl; rewrite ?Hr, ?Hs, ?Hid, ?lookup_insert_eq; done.
Qed.

(** The task does not look at the status of its run: a run cancelled before
    its task starts is run all the same, and when the engine returns it ends
    completed, with the message of the cancellation still on it. *)
Theorem cancelled_run_is_still_run (fuel : nat) (job_id scenario_id started completed : Z)
    (d d2 : Database) (run : SimulationRun) (sc : Scenario) (i j : Z) (m : Metrics) :
  simulation_runs d !! job_id = Some run -> r_id run = job_id ->
  r_status run = PENDING ->
  scenarios d !! scenario_id = Some sc ->
  run_simulation_task fuel job_id scenario_id started completed
    (fst (cancel_simulation job_id d)) = (d2, Ok (TaskCompleted i j m)) ->
  exists r, simulation_runs d2 !! job_id = Some r /\ r_status r = COMPLETED /\
    r_progress r = 100 /\ r_error_message r = Some "Cancelled by user".
Proof.
  intros Hr Hid Hst Hsc Htask. unfold cancel_simulation in Htask.
  rewrite Hr, Hst in Htask. simpl in Htask.
  rewrite Hid in Htask.
  match type of Htask with run_simulation_task _ _ _ _ _ ?db = _ =>
    destruct (run_simulation_task_session fuel job_id scenario_id started completed db _ sc
                (lookup_insert_eq _ _ _) eq_refl Hsc) as (s & results & Hw & Ht) end.
  rewrite Ht in Htask. clear Ht.
  destruct Hw as (Hi & _ & _ & _ & _ & Hem & _).
  destruct results as [results|e|]; try discriminate. injection Htask as <- _ _ _. simpl.
  rewrite Hi, lookup_insert_eq. eexists. split; [done|]. simpl. by rewrite Hem.
Qed.

End Endpoints.

(** * The libraries meet their laws *)

(** Swapping two entries of a list permutes it. *)
Lemma insert_head_perm {A : Type} (l : list A) j x y :
  l !! j = Some y -> y :: <[j := x]> l ≡ₚ x :: l.
Proof.
  revert j. induction l as [|b l IH]; intros j Hj; [done|].
  destruct j as [|j]; simpl in *.
  - injection Hj as ->. apply perm_swap.
  - rewrite (perm_swap b y), (IH _ Hj). apply perm_swap.
Qed.

Lemma insert_swap_id {A : Type} (l : list A) i j x y :
  l !! i = Some x -> l !! j = Some y -> <[j := x]> (<[i := y]> l) ≡ₚ l.
Proof.
  revert i j. induction l as [|a l IH]; intros i j Hi Hj; [done|].
  destruct i as [|i], j as [|j]; simpl in *.
  - by injection Hi as ->.
  - injection Hi as ->. by apply insert_head_perm.
  - injection Hj as ->. by apply insert_head_perm.
  - f_equiv. by apply IH.
Qed.

Lemma insert_swap_perm {A : Type} (l : list A) i j x y :
  i <> j -> (i < length l)%nat -> l !! j = Some y ->
  <[j := x]> (<[i := y]> l) ≡ₚ <[i := x]> l.
Proof.
  intros Hne Hi Hj.
  rewrite <- (list_insert_insert_eq l i y x).
  apply insert_swap_id.
  - by apply list_lookup_insert_eq.
  - by rewrite list_lookup_insert_ne.
Qed.

Lemma _siftdown_loop_perm fuel heap startpos pos newitem :
  (pos < length heap)%nat ->
  _siftdown_loop fuel heap startpos pos newitem ≡ₚ <[pos := newitem]> heap.
Proof.
  revert heap pos. induction fuel as [|fuel IH]; intros heap pos Hpos;
    cbn [_siftdown_loop]; [done|].
  case_decide; [|done].
  destruct (heap !! _) as [parent|] eqn:Hp; [|done].
  destruct (event_lt newitem parent); [|done].
  rewrite IH.
  - apply insert_swap_perm; [|done|done].
    assert ((pos - 1) / 2 <= pos - 1)%nat by (apply Nat.Div0.div_le_upper_bound; lia).
    lia.
  - rewrite length_insert. by apply lookup_lt_Some in Hp.
Qed.

Lemma _siftdown_perm heap startpos pos : _siftdown heap startpos pos ≡ₚ heap.
Proof.
  unfold _siftdown. destruct (heap !! pos) as [newitem|] eqn:Hp; [|done].
  rewrite _siftdown_loop_perm by by apply lookup_lt_Some in Hp.
  by rewrite list_insert_id.
Qed.

Lemma _siftup_loop_perm fuel heap pos newitem heap' pos' :
  (pos < length heap)%nat ->
  _siftup_loop fuel heap pos = (heap', pos') ->
  <[pos' := newitem]> heap' ≡ₚ <[pos := newitem]> heap /\ length heap' = length heap.
Proof.
  revert heap pos. induction fuel as [|fuel IH]; intros heap pos Hpos H;
    cbn [_siftup_loop] in H.
  { by injection H as <- <-. }
  destruct (heap !! (2 * pos + 1)%nat) as [lchild|] eqn:Hl; [|by injection H as <- <-].
  match type of H with
  | match heap !! ?c with _ => _ end = _ => set (childpos := c) in H
  end.
  assert (Hc : (pos < childpos)%nat).
  { subst childpos. repeat case_match; lia. }
  destruct (heap !! childpos) as [child|] eqn:Hch; [|by injection H as <- <-].
  apply IH in H as [H Hlen].
  - rewrite length_insert in Hlen. split; [|done].
    rewrite H. apply insert_swap_perm; [lia|done|done].
  - rewrite length_insert. by apply lookup_lt_Some in Hch.
Qed.

Lemma _siftup_perm heap pos : _siftup heap pos ≡ₚ heap.
Proof.
  unfold _siftup. destruct (heap !! pos) as [newitem|] eqn:Hp; [|done].
  destruct (_siftup_loop _ _ _) as [heap' pos'] eqn:Hloop.
  apply lookup_lt_Some in Hp as Hlt.
  apply (_siftup_loop_perm _ _ _ newitem) in Hloop as [H _]; [|done].
  by rewrite _siftdown_perm, H, list_insert_id.
Qed.

Lemma list_pop_app {A : Type} (l r : list A) x : list_pop l = Some (r, x) -> l = r ++ [x].
Proof.
  revert r. induction l as [|a l IH]; intros r H; simpl in H; [done|].
  destruct l as [|b l].
  - by injection H as <- <-.
  - destruct (list_pop (b :: l)) as [[r' y]|]; simpl in H; [|done].
    injection H as <- <-. simpl. f_equal. by apply IH.
Qed.

Lemma list_pop_is_Some {A : Type} (l : list A) : l <> [] -> is_Some (list_pop l).
Proof.
  induction l as [|a l IH]; [done|]. intros _. simpl.
  destruct l as [|b l]; [done|].
  destruct IH as [[r y] ->]; [done|]. done.
Qed.

#[global, refine] Instance python_heapq : HeapQ :=
  {| heappush := py_heappush; heappop := py_heappop |}.
Proof.
  - intros h e. unfold py_heappush. rewrite _siftdown_perm.
    by rewrite Permutation_app_comm.
  - intros h e h' H. unfold py_heappop in H.
    destruct (list_pop h) as [[rest lastelt]|] eqn:Hpop; simpl in H; [|done].
    apply list_pop_app in Hpop as ->.
    destruct rest as [|returnitem rest]; injection H as <- <-; [done|].
    rewrite _siftup_perm. simpl.
    rewrite Permutation_app_comm. simpl. by rewrite perm_swap.
  - intros h Hne. unfold py_heappop.
    destruct (list_pop_is_Some h Hne) as [[rest lastelt] ->]. simpl.
    by destruct rest.
Defined.

#[global, refine] Instance replayed (recorded : Z -> list Q) : Generator :=
  {| G := list Q;
     default_rng := recorded;
     exponential scale g := ((scale * fst (next_draw g))%Q, snd (next_draw g));
     choice := replay_choice;
     random := next_draw;
     integers low high g :=
       (low + Qfloor (fst (next_draw g)) mod (high - low), snd (next_draw g)) |}.
Proof.
  intros low high g Hlt. simpl.
  pose proof (Z.mod_pos_bound (Qfloor (fst (next_draw g))) (high - low)). lia.
Defined.

(** * The properties at concrete runs *)

Section TwoPatients.
#[local] Existing Instance python_heapq.
#[local] Instance two_patients_generator : Generator := replayed two_patients.

(** The run of [two_patients] on one bed: the engine when the arrivals are
    queued, and the loop when the queue has run empty. *)
Definition two_patients_queued : SimulationEngine :=
  arrivals_queued 100 (__init__ one_bed 42).

Definition two_patients_done : Loop unit :=
  run_rounds 100 None (mkLoop 0%Q 0 two_patients_queued tt).

Lemma two_patients_generated :
  _generate_arrivals 100 (__init__ one_bed 42) = Ok two_patients_queued.
Proof. vm_compute. reflexivity. Qed.

Lemma two_patients_reached :
  loop_reaches None (mkLoop 0%Q 0 two_patients_queued tt) two_patients_done.
Proof. apply run_rounds_reaches. Qed.

Lemma two_patients_returned :
  run 100 None (__init__ one_bed 42) tt
  = (tt, Ok (_calculate_results (engine two_patients_done))).
Proof. vm_compute. reflexivity. Qed.

(** The run, traced: samples at 480, 605, 620, 740 and 755; both patients
    discharged, the second after waiting 135.2 minutes; one
    [bed_availability] record. *)
Example two_patients_trace :
  ts_read "time" (timeseries (engine two_patients_done))
    = [60000 # 125; 75625 # 125; 77500 # 125; 92500 # 125; 94375 # 125]%Q /\
  map o_patient_id (patient_outcomes (engine two_patients_done)) = [1; 2] /\
  map bn_constraint (bottleneck_events (engine two_patients_done)) = ["bed_availability"] /\
  total_patients (metrics (_calculate_results (engine two_patients_done))) = 2 /\
  sla_breaches (metrics (_calculate_results (engine two_patients_done))) = 1.
Proof. vm_compute. repeat split. Qed.

(** C1 at the two patients: 50 rounds of fuel without a callback and 80 with
    one end alike. *)
Lemma run_deterministic_witness :
  snd (run 50 None (__init__ one_bed 42) tt)
  = snd (run 80 (Some (fun (p : Z) (log : list Z) => log ++ [p])) (__init__ one_bed 42) []).
Proof.
  apply (run_deterministic one_bed 42 50 80 None
           (Some (fun (p : Z) (log : list Z) => log ++ [p])) tt []).
  - vm_compute. discriminate.
  - vm_compute. discriminate.
Defined.

(** C9 at the two patients. *)
Lemma transport_pool_never_acquired_witness :
  transport_in_use (engine two_patients_done) = 0 /\
  transport_queue (engine two_patients_done) = [] /\
  Forall (fun b => bn_constraint b <> "transport_capacity")
    (bottleneck_events (engine two_patients_done)) /\
  Forall (fun r => rb_constraint r <> "transport_capacity")
    (bottlenecks (_calculate_results (engine two_patients_done))).
Proof.
  apply (transport_pool_never_acquired 100 None one_bed 42 two_patients_queued tt).
  - vm_compute. reflexivity.
  - apply run_rounds_reaches.
Defined.




(** C6 at the fresh engine: the first patient's request finds bed 1. *)
Definition first_patient : SimPatient :=
  mkPatient 1 "low" 480 false false (Some 485%Q) None None None None None None.

Definition first_request : SimulationEngine :=
  set_patients {[ 1 := first_patient ]} (__init__ one_bed 42).


(** C5 at an engine with patient 1 in imaging and patient 2 waiting. *)
Definition second_patient : SimPatient :=
  mkPatient 2 "low" 490 true false (Some 495%Q) (Some 495%Q) None None None (Some 2) None.

Definition imaging_busy : SimulationEngine :=
  set_imaging_in_use 2
    (set_imaging_queue [2]
       (set_patients {[ 1 := first_patient; 2 := second_patient ]} (__init__ baseline 42))).

Lemma imaging_end_serves_head_witness :
  exists st' d,
    _handle_imaging_end (mkEvent 530 IMAGING_END 1 NoData) imaging_busy = Ok st' /\
    20 <= d <= 59 /\ imaging_queue st' = [] /\
    (exists pn', patients st' !! 2 = Some pn' /\ p_imaging_start_time pn' = Some 530%Q).
Proof.
  destruct (imaging_end_serves_head imaging_busy (mkEvent 530 IMAGING_END 1 NoData)
              2 [] first_patient second_patient)
    as (st' & d & H & _ & Hd & Hq & Hp & _).
  - reflexivity.
  - reflexivity.
  - reflexivity.
  - exists st', d. repeat split; try assumption; lia.
Defined.

(** The beds at the two patients. *)
Lemma beds_stay_in_id_order_witness : beds_by_id (beds (engine two_patients_done)).
Proof.
  apply (beds_stay_in_id_order 100 None one_bed 42 two_patients_queued tt).
  - vm_compute. reflexivity.
  - apply run_rounds_reaches.
Defined.

End TwoPatients.

Section LateArrival.
#[local] Existing Instance python_heapq.
#[local] Instance late_arrival_generator : Generator := replayed late_arrival.

Definition pending_run (run_id scenario_id : Z) : SimulationRun :=
  mkRun run_id scenario_id PENDING None None 0 None None None None.

(** A database with the baseline scenario 1 and its pending run 1. *)
Definition one_pending_run : Database :=
  mkDatabase {[ 1 := pending_run 1 1 ]} {[ 1 := mkScenario 1 baseline ]} [].

(** C2 fails on the late arrival.  The events at 1435.2, 1449.2, 1464.2 and
    1484.2 report 99, 100, 101 and 103; the task completes and writes 100
    over the 103. *)
Lemma progress_passes_100_and_drops :
  let d := fst (run_simulation_task 100 1 1 1000 2000 one_pending_run) in
  map r_progress (committed d) = [0; 99; 100; 101; 103; 100] /\
  map r_status (committed d) = [RUNNING; RUNNING; RUNNING; RUNNING; RUNNING; COMPLETED] /\
  int_of_float ((14842 # 10) / 1440 * 100)%Q = 103.
Proof. vm_compute. repeat split. Qed.




(** The late arrival with a callback that records: the engine when the
    arrival is queued, the loop after two and after three rounds, and the loop
    when the queue has run empty. *)
Definition late_arrival_queued : SimulationEngine :=
  arrivals_queued 100 (__init__ baseline 42).

Definition late_arrival_second : Loop (list Z) :=
  run_rounds 2 (Some record_progress) (mkLoop 0%Q 0 late_arrival_queued []).

Definition late_arrival_third : Loop (list Z) :=
  run_rounds 3 (Some record_progress) (mkLoop 0%Q 0 late_arrival_queued []).

Definition late_arrival_done : Loop (list Z) :=
  run_rounds 100 (Some record_progress) (mkLoop 0%Q 0 late_arrival_queued []).

Example late_arrival_reports : world late_arrival_done = [99; 100; 101; 103].
Proof. vm_compute. reflexivity. Qed.

(** The third round of the late arrival, at 1464.2, reports 101. *)
Lemma progress_report_is_floor_witness :
  last_progress late_arrival_second
    < int_of_float (current_time (engine late_arrival_third) / 1440 * 100) /\
  world late_arrival_third
    = record_progress
        (int_of_float (current_time (engine late_arrival_third) / 1440 * 100))
        (world late_arrival_second) /\
  int_of_float (current_time (engine late_arrival_third) / 1440 * 100) = 101.
Proof.
  destruct (progress_report_is_floor 100 record_progress baseline 42 late_arrival_queued []
              late_arrival_second late_arrival_third)
    as [(H1 & H2 & _)|(H1 & _)].
  - vm_compute. reflexivity.
  - apply run_rounds_reaches.
  - vm_compute. reflexivity.
  - split; [exact H1|]. split; [exact H2|]. vm_compute. reflexivity.
  - exfalso. revert H1. vm_compute. intros H1. apply H1. reflexivity.
Defined.

(** The reports of the late arrival increase. *)
Lemma reported_progress_increases_witness :
  StronglySorted Z.lt (world late_arrival_done) /\
  Forall (fun p => 0 < p) (world late_arrival_done).
Proof. apply (reported_progress_increases late_arrival_queued). apply run_rounds_reaches. Defined.

End LateArrival.

Section ReplayRuns.
Import Replay.

(** One event of unit 1, one minute after the default start. *)
Definition on_the_minute : Event :=
  Replay.mkEvent 1 (Some 7) ARRIVAL (default_start + minute) (Some 1) None "{}".



(** C8 fails at a [speed] message of value 0: the speed becomes 0, the tick
    is sent, the sleep of [1 / speed] raises, and the stream ends with an
    error frame. *)
Lemma speed_message_zero_raises :
  apply_message (Some (Speed (Number 0))) (mkStream default_start true 1)
    = Ok (Some (mkStream default_start true 0)) /\
  replay_websocket 10 [] 1 None 1 [Some (Speed (Number 0))]
    = Ok [SendTick default_start (mkDelta [] []);
          SendError "float division by zero"; SendComplete].
Proof. split; reflexivity. Qed.

End ReplayRuns.

(** ** The invariants at the two patients *)

Section TwoPatientsInvariants.
#[local] Existing Instance python_heapq.
#[local] Existing Instance two_patients_generator.

(** The first round of the two patients does not raise. *)
Lemma round_never_raises_witness :
  exists c', loop_body None (mkLoop 0%Q 0 two_patients_queued tt) = Ok c'.
Proof.
  apply (round_never_raises 100 None one_bed 42 two_patients_queued tt).
  - vm_compute. reflexivity.
  - apply reaches_here.
  - vm_compute. discriminate.
Defined.

(** The two patients with 100 rounds of fuel: two arrivals are queued, and
    the run returns. *)
Lemma run_returns_witness :
  exists c, loop_reaches None (mkLoop 0%Q 0 two_patients_queued tt) c /\
    event_queue (engine c) = [] /\
    run 100 None (__init__ one_bed 42) tt = (world c, Ok (_calculate_results (engine c))).
Proof.
  apply (run_returns 100 None one_bed 42 two_patients_queued tt).
  - vm_compute. reflexivity.
  - vm_compute. lia.
Defined.

Lemma nurse_load_within_max_witness :
  Forall (fun kn => len (n_assigned_patients (snd kn)) <= n_max_patients (snd kn) /\
                    n_max_patients (snd kn) = 4) (nurses (engine two_patients_done)).
Proof.
  apply (nurse_load_within_max 100 None one_bed 42 two_patients_queued tt).
  - vm_compute. reflexivity.
  - apply run_rounds_reaches.
Defined.

Lemma beds_never_occupied_and_cleaning_witness :
  Forall (fun kb => bed_consistent (snd kb)) (beds (engine two_patients_done)).
Proof.
  apply (beds_never_occupied_and_cleaning 100 None one_bed 42 two_patients_queued tt).
  - vm_compute. reflexivity.
  - apply run_rounds_reaches.
Defined.

Lemma series_aligned_and_occupancy_bounded_witness :
  length (ts_read "occupancy" (res_timeseries (_calculate_results (engine two_patients_done))))
  = length (ts_read "time" (res_timeseries (_calculate_results (engine two_patients_done)))) /\
  Forall (within 0 100)
    (ts_read "occupancy" (res_timeseries (_calculate_results (engine two_patients_done)))).
Proof.
  destruct (series_aligned_and_occupancy_bounded 100 None one_bed 42 two_patients_queued tt
              two_patients_done) as (H1 & _ & _ & _ & H5 & _).
  - vm_compute. reflexivity.
  - apply run_rounds_reaches.
  - split; [exact H1|exact H5].
Defined.

Lemma arrivals_generated_witness :
  Forall (fun e => event_type e = ARRIVAL /\ (time e < 1440)%Q /\
                   exists a i c, data e = ArrivalData a i c) (event_queue two_patients_queued) /\
  map entity_id (event_queue two_patients_queued)
    ≡ₚ seqZ 1 (patient_counter two_patients_queued) /\
  patients two_patients_queued = ∅.
Proof.
  apply (arrivals_generated 100 one_bed 42 two_patients_queued).
  vm_compute. reflexivity.
Defined.

Lemma patients_discharged_at_most_once_witness :
  NoDup (map o_patient_id (patient_outcomes (engine two_patients_done))) /\
  NoDup (bed_queue (engine two_patients_done)).
Proof.
  destruct (patients_discharged_at_most_once 100 None one_bed 42 two_patients_queued tt
              two_patients_done) as (H1 & H2 & _).
  - vm_compute. reflexivity.
  - apply run_rounds_reaches.
  - split; [exact H1|exact H2].
Defined.

(** A scenario whose arrival multiplier is 0. *)
Definition no_arrivals : Params :=
  mkParams (Some 0%Q)
    (Some [("low", 3 # 10); ("medium", 1 # 2); ("high", 15 # 100); ("critical", 5 # 100)]%Q)
    (Some 24) (Some [("day", 6)]) (Some 1%Q) (Some 1%Q).

Lemma nonpositive_arrival_multiplier_raises_witness :
  exists e, run 1 None (__init__ no_arrivals 42) tt = (tt, Raise e).
Proof.
  apply (nonpositive_arrival_multiplier_raises 0 None no_arrivals 42 tt 0%Q).
  - reflexivity.
  - vm_compute. discriminate.
Defined.

(** Bed 1 is cleaned at 620 while patient 1 waits for it. *)
Definition first_waiting : SimulationEngine := set_bed_queue [1] first_request.

Lemma cleaning_end_serves_queue_head_witness :
  exists st', _handle_cleaning_end (mkEvent 620 CLEANING_END 1 (BedData 1)) first_waiting
              = Ok st' /\
    bed_queue st' = [] /\
    exists p', patients st' !! 1 = Some p' /\ p_bed_id p' = Some 1 /\
      p_bed_assigned_time p' = Some 620%Q.
Proof.
  destruct (cleaning_end_serves_queue_head first_waiting
              (mkEvent 620 CLEANING_END 1 (BedData 1)) 1
              (mkBed 1 "isolation" false false None 0%Q)) as [_ H].
  - reflexivity.
  - vm_compute. reflexivity.
  - destruct (H 1 [] first_patient) as (st' & H1 & H2 & _ & H4).
    + reflexivity.
    + vm_compute. reflexivity.
    + exists st'. split; [exact H1|]. split; [exact H2|exact H4].
Defined.

(** Patient 1 asks for imaging at 500 while both slots are taken. *)
Lemma imaging_request_takes_slot_or_queues_witness :
  exists st', _handle_imaging_request (mkEvent 500 IMAGING_REQUEST 1 NoData) imaging_busy
              = Ok st' /\
    imaging_queue st' = [2; 1] /\ imaging_in_use st' = 2.
Proof.
  destruct (imaging_request_takes_slot_or_queues imaging_busy
              (mkEvent 500 IMAGING_REQUEST 1 NoData) first_patient)
    as (st' & H & [(Hlt & _)|(_ & Hq & _ & Hu & _)]).
  - vm_compute. reflexivity.
  - exfalso. revert Hlt. vm_compute. discriminate.
  - exists st'. split; [exact H|]. split; [exact Hq|exact Hu].
Defined.

(** Patient 1 in bed 1 with nurse 1 is discharged at 605. *)
Definition first_in_bed : SimPatient :=
  mkPatient 1 "low" 480 false false (Some 485%Q) (Some 485%Q) None None None (Some 1) (Some 1).

Definition first_placed : SimulationEngine :=
  set_nurses
    (od_update 1 (set_n_assigned_patients [1]) (nurses (__init__ one_bed 42)))
    (set_beds
       (od_update 1 (fun b => set_b_patient_id (Some 1) (set_b_is_occupied true b))
          (beds (__init__ one_bed 42)))
       (set_patients {[ 1 := first_in_bed ]} (__init__ one_bed 42))).

Lemma discharge_frees_bed_and_nurse_witness :
  exists st' d, _handle_discharge (mkEvent 605 DISCHARGE 1 NoData) first_placed = Ok st' /\
    15 <= d <= 29 /\
    od_get 1 (beds st') = Some (mkBed 1 "isolation" false true None 0%Q) /\
    od_get 1 (nurses st') = Some (mkNurse 1 4 [] 0%Q 480%Q).
Proof.
  destruct (discharge_frees_bed_and_nurse first_placed (mkEvent 605 DISCHARGE 1 NoData)
              first_in_bed 1 1 (mkBed 1 "isolation" true false (Some 1) 0%Q)
              (mkNurse 1 4 [1] 0%Q 480%Q))
    as (st' & d & H & _ & Hd & _ & Hb & _ & Hn & _).
  - vm_compute. reflexivity.
  - reflexivity.
  - discriminate.
  - vm_compute. reflexivity.
  - reflexivity.
  - discriminate.
  - vm_compute. reflexivity.
  - exists st', d. split; [exact H|]. split; [exact Hd|]. split; [exact Hb|exact Hn].
Defined.

End TwoPatientsInvariants.

(** ** The late arrival, its task and the endpoints *)

Section LateArrivalTask.
#[local] Existing Instance python_heapq.
#[local] Existing Instance late_arrival_generator.

(** The third round of the late arrival, while the imaging is under way. *)
Lemma imaging_slots_conserved_witness :
  imaging_in_use (engine late_arrival_third)
  = Z.of_nat (imaging_sessions (event_queue (engine late_arrival_third))) /\
  imaging_in_use (engine late_arrival_third)
  <= Z.max 0 (imaging_capacity (engine late_arrival_third)) /\
  imaging_capacity (engine late_arrival_third) = 2.
Proof.
  destruct (imaging_slots_conserved 100 (Some record_progress) baseline 42
              late_arrival_queued [] late_arrival_third) as (H1 & H2 & _ & H4).
  - vm_compute. reflexivity.
  - apply run_rounds_reaches.
  - split; [exact H1|]. split; [exact H2|exact H4].
Defined.

(** The task of run 1 on the late arrival, and the database it leaves. *)
Definition late_arrival_metrics : Metrics :=
  metrics (_calculate_results
             (engine (run_rounds 100 None (mkLoop 0%Q 0 late_arrival_queued tt)))).

Definition late_arrival_task : Database :=
  fst (run_simulation_task 100 1 1 1000 2000 one_pending_run).

Lemma late_arrival_task_returns :
  run_simulation_task 100 1 1 1000 2000 one_pending_run
  = (late_arrival_task, Ok (TaskCompleted 1 1 late_arrival_metrics)).
Proof. vm_compute. reflexivity. Qed.

Lemma task_leaves_run_finished_witness :
  scenarios late_arrival_task = scenarios one_pending_run /\
  exists r, simulation_runs late_arrival_task !! 1 = Some r /\
    last (committed late_arrival_task) = Some r /\
    r_started_at r = Some 1000 /\ r_completed_at r = Some 2000 /\
    r_status r = COMPLETED /\ r_progress r = 100.
Proof.
  destruct (task_leaves_run_finished 100 1 1 1000 2000 one_pending_run late_arrival_task
              (pending_run 1 1) (mkScenario 1 baseline)
              (TaskCompleted 1 1 late_arrival_metrics))
    as (H1 & _ & r & H2 & H3 & _ & _ & H4 & H5 & _ & _ & H6 & H7 & _).
  - reflexivity.
  - reflexivity.
  - reflexivity.
  - exact late_arrival_task_returns.
  - split; [exact H1|]. exists r. repeat (split; [assumption|]). assumption.
Defined.

Lemma task_commits_progress_witness :
  exists reports,
    StronglySorted Z.lt reports /\ Forall (fun p => 0 < p) reports /\
    map r_progress (committed late_arrival_task) = [0] ++ reports ++ [100] /\
    map r_status (committed late_arrival_task)
    = [RUNNING] ++ replicate (length reports) RUNNING ++ [COMPLETED].
Proof.
  apply (task_commits_progress 100 1 1 1000 2000 one_pending_run late_arrival_task
           (pending_run 1 1) (mkScenario 1 baseline) 1 1 late_arrival_metrics).
  - reflexivity.
  - reflexivity.
  - exact late_arrival_task_returns.
Defined.

Lemma task_completes_witness :
  exists d' m r,
    run_simulation_task 100 1 1 1000 2000 one_pending_run
    = (d', Ok (TaskCompleted 1 1 m)) /\
    last (committed d') = Some r /\ r_status r = COMPLETED /\ r_progress r = 100 /\
    r_metrics r = Some m.
Proof.
  apply (task_completes 100 1 1 1000 2000 one_pending_run (pending_run 1 1)
           (mkScenario 1 baseline) late_arrival_queued).
  - reflexivity.
  - reflexivity.
  - vm_compute. reflexivity.
  - vm_compute. lia.
Defined.

(** A database whose scenario 1 has the arrival multiplier 0. *)
Definition no_arrivals_run : Database :=
  mkDatabase {[ 1 := pending_run 1 1 ]} {[ 1 := mkScenario 1 no_arrivals ]} [].

Lemma task_fails_on_nonpositive_multiplier_witness :
  exists d' e r1 r2,
    run_simulation_task 1 1 1 1000 2000 no_arrivals_run = (d', Ok (TaskError e)) /\
    committed d' = committed no_arrivals_run ++ [r1; r2] /\
    r_status r1 = RUNNING /\ r_status r2 = FAILED /\ r_error_message r2 = Some e /\
    r_progress r2 = r_progress (pending_run 1 1).
Proof.
  apply (task_fails_on_nonpositive_multiplier 0 1 1 1000 2000 no_arrivals_run
           (pending_run 1 1) (mkScenario 1 no_arrivals) 0%Q).
  - reflexivity.
  - reflexivity.
  - reflexivity.
  - vm_compute. discriminate.
Defined.

(** The baseline scenario 1 and no run yet. *)
Definition no_run_yet : Database := mkDatabase ∅ {[ 1 := mkScenario 1 baseline ]} [].

Definition started_task : Database :=
  fst (run_simulation_task 100 1 1 1000 2000 (fst (fst (start_simulation 1 1 no_run_yet)))).

Lemma started_run_gets_finished_witness :
  r_status (pending_run 1 1) = PENDING /\
  exists r, get_simulation_status 1 started_task = Respond r /\
    r_started_at r = Some 1000 /\ r_status r = COMPLETED.
Proof.
  destruct (started_run_gets_finished 100 1 1 1000 2000 no_run_yet
              (fst (fst (start_simulation 1 1 no_run_yet))) started_task (mkTask 1 1)
              (pending_run 1 1) (TaskCompleted 1 1 late_arrival_metrics))
    as (H1 & _ & r & H2 & H3 & H4).
  - reflexivity.
  - vm_compute. reflexivity.
  - vm_compute. reflexivity.
  - split; [exact H1|]. exists r. split; [exact H2|]. split; [exact H3|exact H4].
Defined.

Lemma cancel_marks_failed_once_witness :
  cancel_simulation 1 (fst (cancel_simulation 1 one_pending_run))
  = (fst (cancel_simulation 1 one_pending_run),
     Respond (mkAPIResponse false "Simulation already finished")).
Proof.
  destruct (cancel_marks_failed_once 1 one_pending_run (pending_run 1 1)) as (_ & _ & H).
  - reflexivity.
  - reflexivity.
  - exact H.
Defined.

Definition cancelled_task : Database :=
  fst (run_simulation_task 100 1 1 1000 2000 (fst (cancel_simulation 1 one_pending_run))).

Lemma cancelled_run_is_still_run_witness :
  exists r, simulation_runs cancelled_task !! 1 = Some r /\ r_status r = COMPLETED /\
    r_progress r = 100 /\ r_error_message r = Some "Cancelled by user".
Proof.
  apply (cancelled_run_is_still_run 100 1 1 1000 2000 one_pending_run cancelled_task
           (pending_run 1 1) (mkScenario 1 baseline) 1 1 late_arrival_metrics).
  - reflexivity.
  - reflexivity.
  - reflexivity.
  - reflexivity.
  - vm_compute. reflexivity.
Defined.

End LateArrivalTask.

(** ** The control messages at one event *)

Section ReplayControlRuns.
Import Replay.



Lemma ticks_bounded_without_seek_witness :
  exists n : nat, (n <= 1440)%nat /\
    map fst (ticks (plain_rounds [on_the_minute] 1 1 default_start 2 ++ [SendComplete]))
    = map (fun k => default default_start None + Z.of_nat k * minute) (seq 0 n).
Proof.
  apply (ticks_bounded_without_seek [on_the_minute] 1 None 1 [None; None; Some Stop] 50).
  - repeat constructor; intros [t Ht]; discriminate Ht.
  - reflexivity.
Defined.


End ReplayControlRuns.
